(** * upb message comparison (upb/message/compare.c)

    A shallow embedding of the comparison core of upb: the base-field and
    extension iterators, [upb_Message_IsEmpty], the container comparisons,
    [upb_Message_IsEqual] and [upb_Message_IsExactlyEqual].

    Memory is a read-only heap of objects addressed by pointers; reading
    through a null or dangling pointer is a [Fault].  Recursion through
    sub-message pointers is bounded by a fuel argument; the loops of the
    source carry a counter derived from the container they traverse. *)

From stdpp Require Import base list gmap.
From Stdlib Require Import ZArith Lia.

Open Scope Z_scope.

(** ** Results of fallible reads *)

Inductive fault :=
| NullDeref      (* a read through the null pointer *)
| InvalidRead.   (* a read through a dangling pointer, of an object of the
                    wrong kind, out of bounds, or of the wrong union member *)

Inductive result (A : Type) : Type :=
| Ret (a : A)
| Fault (e : fault)
| OutOfFuel.

Arguments Ret {A} a.
Arguments Fault {A} e.
Arguments OutOfFuel {A}.

#[global] Instance result_ret : MRet result := @Ret.
#[global] Instance result_bind : MBind result := λ A B f r,
  match r with
  | Ret a => f a
  | Fault e => Fault e
  | OutOfFuel => OutOfFuel
  end.

#[global] Instance fault_eq_dec : EqDecision fault.
Proof. solve_decision. Defined.

(** ** Descriptors (upb/mini_table) *)

Inductive upb_CType :=
| kUpb_CType_Bool | kUpb_CType_Float | kUpb_CType_Int32 | kUpb_CType_UInt32
| kUpb_CType_Enum | kUpb_CType_Message | kUpb_CType_Double | kUpb_CType_Int64
| kUpb_CType_UInt64 | kUpb_CType_String | kUpb_CType_Bytes.

Inductive upb_FieldMode :=
| kUpb_FieldMode_Map | kUpb_FieldMode_Array | kUpb_FieldMode_Scalar.

Inductive upb_FieldRep :=
| kUpb_FieldRep_1Byte | kUpb_FieldRep_4Byte
| kUpb_FieldRep_StringView | kUpb_FieldRep_8Byte.

#[global] Instance upb_CType_eq_dec : EqDecision upb_CType.
Proof. solve_decision. Defined.
#[global] Instance upb_FieldMode_eq_dec : EqDecision upb_FieldMode.
Proof. solve_decision. Defined.
#[global] Instance upb_FieldRep_eq_dec : EqDecision upb_FieldRep.
Proof. solve_decision. Defined.

(** Modelled from the spec: the field descriptor of upb/mini_table/field.h,
    which is not part of the sources at hand.  It carries the runtime value
    category, the repetition kind and the presence discipline: [None] is
    implicit presence, [Some k] is explicit presence with has-bit [k]. *)
Record upb_MiniTableField := {
  field_number : Z;
  field_ctype : upb_CType;
  field_mode : upb_FieldMode;
  field_presence : option nat
}.

#[global] Instance upb_MiniTableField_eq_dec : EqDecision upb_MiniTableField.
Proof. solve_decision. Defined.

(** Modelled from the spec: a message descriptor is an ordered list of field
    descriptors. *)
Record upb_MiniTable := {
  mt_fields : list upb_MiniTableField
}.

#[global] Instance upb_MiniTable_eq_dec : EqDecision upb_MiniTable.
Proof. solve_decision. Defined.

(** Modelled from the spec: an extension descriptor.  [ext_addr] stands for
    the address of the descriptor, so that equality of two records is the
    pointer identity the source compares. *)
Record upb_MiniTableExtension := {
  ext_addr : Z;
  ext_field : upb_MiniTableField;
  ext_sub : upb_MiniTable
}.

#[global] Instance upb_MiniTableExtension_eq_dec :
  EqDecision upb_MiniTableExtension.
Proof. solve_decision. Defined.

(** Modelled from the spec: the descriptor queries of upb/mini_table/field.h,
    message.h and extension.h. *)
Definition upb_MiniTable_FieldCount (m : upb_MiniTable) : Z :=
  Z.of_nat (length (mt_fields m)).

Definition upb_MiniTable_GetFieldByIndex (m : upb_MiniTable) (i : Z)
  : result upb_MiniTableField :=
  match mt_fields m !! Z.to_nat i with
  | Some f => Ret f
  | None => Fault InvalidRead
  end.

Definition upb_MiniTableField_CType (f : upb_MiniTableField) : upb_CType :=
  field_ctype f.

Definition upb_MiniTableField_HasPresence (f : upb_MiniTableField) : bool :=
  bool_decide (field_presence f ≠ None).

Definition upb_MiniTableField_IsArray (f : upb_MiniTableField) : bool :=
  bool_decide (field_mode f = kUpb_FieldMode_Array).

Definition upb_MiniTableField_IsMap (f : upb_MiniTableField) : bool :=
  bool_decide (field_mode f = kUpb_FieldMode_Map).

Definition upb_MiniTableField_IsSubMessage (f : upb_MiniTableField) : bool :=
  bool_decide (field_ctype f = kUpb_CType_Message).

Definition upb_MiniTableExtension_GetSubMessage (e : upb_MiniTableExtension)
  : upb_MiniTable := ext_sub e.

(** Modelled from the spec: the storage representation of a field is derived
    from its descriptor.  Arrays, maps and sub-messages are held through a
    pointer (8 bytes), strings and bytes through a view, scalars at their
    own width. *)
Definition _upb_MiniTableField_GetRep (f : upb_MiniTableField) : upb_FieldRep :=
  match field_mode f with
  | kUpb_FieldMode_Map | kUpb_FieldMode_Array => kUpb_FieldRep_8Byte
  | kUpb_FieldMode_Scalar =>
      match field_ctype f with
      | kUpb_CType_Bool => kUpb_FieldRep_1Byte
      | kUpb_CType_Float | kUpb_CType_Int32 | kUpb_CType_UInt32
      | kUpb_CType_Enum => kUpb_FieldRep_4Byte
      | kUpb_CType_String | kUpb_CType_Bytes => kUpb_FieldRep_StringView
      | kUpb_CType_Message | kUpb_CType_Double | kUpb_CType_Int64
      | kUpb_CType_UInt64 => kUpb_FieldRep_8Byte
      end
  end.

(** ** Values, containers, messages and the heap *)

(** The heap holds three kinds of objects, reached through pointers; the
    layout of an object in bytes is not modelled. *)

Definition byte := Byte.byte.

#[global] Instance byte_eq_dec : EqDecision byte := Byte.byte_eq_dec.

Definition ptr := Z.
Definition NULL : ptr := 0.

(** Modelled from the spec: the string view of upb/base/string_view.h, as the
    bytes it views ("equality compares content, not identity"). *)
Definition upb_StringView := list byte.

(** Modelled from the spec: the union [upb_MessageValue] of
    upb/message/value.h.  The scalar members and the three pointer members
    share one raw word; [str_val] is a view of bytes. *)
Inductive upb_MessageValue :=
| Raw (bits : Z)
| Str (s : upb_StringView).

#[global] Instance upb_MessageValue_eq_dec : EqDecision upb_MessageValue.
Proof. solve_decision. Defined.

(** Modelled from the spec: an array (upb/message/internal/array.h) is an
    ordered sequence of values, with its element size class. *)
Record upb_Array := {
  arr_elem_size_lg2 : Z;
  arr_data : list upb_MessageValue
}.

(** Modelled from the spec: a map (upb/message/internal/map.h), as its
    entries in traversal order. *)
Record upb_Map := {
  map_entries : list (upb_MessageValue * upb_MessageValue)
}.

(** Modelled from the spec: a stored extension
    (upb/message/internal/extension.h) is a descriptor and a value. *)
Record upb_Extension := {
  ext : upb_MiniTableExtension;
  data : upb_MessageValue
}.

(** Modelled from the spec: a message (upb/message/internal/message.h) holds
    one slot per declared field (by field index), the has-bits, the extension
    list in storage order and the unknown bytes. *)
Record upb_Message := {
  msg_data : list upb_MessageValue;
  msg_hasbits : list bool;
  msg_exts : list upb_Extension;
  msg_unknown : list byte
}.

Inductive object :=
| ObjArray (a : upb_Array)
| ObjMap (mp : upb_Map)
| ObjMessage (msg : upb_Message).

Abbreviation heap := (gmap Z object).

(** Modelled from the spec: the results of the unknown-data comparator
    (upb/message/internal/compare_unknown.h). *)
Inductive upb_UnknownCompareResult :=
| kUpb_UnknownCompareResult_Equal
| kUpb_UnknownCompareResult_NotEqual
| kUpb_UnknownCompareResult_OutOfMemory
| kUpb_UnknownCompareResult_MaxDepthExceeded.

#[global] Instance upb_UnknownCompareResult_eq_dec :
  EqDecision upb_UnknownCompareResult.
Proof. solve_decision. Defined.

(** Modelled from the spec: the status and the options of the encoder
    (upb/wire/encode.h), and the arena handle (upb/mem/arena.h). *)
Inductive upb_EncodeStatus :=
| kUpb_EncodeStatus_Ok
| kUpb_EncodeStatus_OutOfMemory
| kUpb_EncodeStatus_MaxDepthExceeded
| kUpb_EncodeStatus_MissingRequired.

#[global] Instance upb_EncodeStatus_eq_dec : EqDecision upb_EncodeStatus.
Proof. solve_decision. Defined.

Definition kUpb_EncodeOption_Deterministic : Z := 1.
Definition kUpb_EncodeOption_SkipUnknown : Z := 2.

Definition upb_Arena := Z.

(** The external collaborators of the comparison core, taken as parameters:
    sub-descriptor lookup (upb/mini_table/message.h), the unknown-data
    comparator and the wire encoder. *)
Class Collaborators := {
  upb_MiniTable_GetSubMessageTable :
    upb_MiniTable → upb_MiniTableField → upb_MiniTable;
  upb_MiniTable_MapValue : upb_MiniTable → upb_MiniTableField;
  _upb_Message_UnknownFieldsAreEqual :
    list byte → list byte → Z → upb_UnknownCompareResult;
  upb_Encode :
    heap → ptr → upb_MiniTable → Z → upb_Arena →
    upb_EncodeStatus * list byte
}.

(** ** Reads

    The accessors below belong to headers that are not part of the sources
    at hand; each is modelled from the spec as a read through its pointer
    argument. *)

(** A read through [p]: null and dangling pointers fault. *)
Definition load (h : heap) (p : ptr) : result object :=
  if bool_decide (p = NULL) then Fault NullDeref
  else match h !! p with
       | Some o => Ret o
       | None => Fault InvalidRead
       end.

Definition load_array (h : heap) (p : ptr) : result upb_Array :=
  o ← load h p;
  match o with ObjArray a => Ret a | _ => Fault InvalidRead end.

Definition load_map (h : heap) (p : ptr) : result upb_Map :=
  o ← load h p;
  match o with ObjMap mp => Ret mp | _ => Fault InvalidRead end.

Definition load_msg (h : heap) (p : ptr) : result upb_Message :=
  o ← load h p;
  match o with ObjMessage msg => Ret msg | _ => Fault InvalidRead end.

(** The low [len] bytes of a raw word. *)
Definition low_bytes (len : Z) (w : Z) : Z := w mod 2 ^ (8 * len).

(** Modelled from the spec: the pointer members [array_val], [map_val] and
    [msg_val] of the value union, the low eight bytes of the raw word. *)
Definition ptr_val (v : upb_MessageValue) : result ptr :=
  match v with Raw w => Ret (low_bytes 8 w) | Str _ => Fault InvalidRead end.

Definition array_val := ptr_val.
Definition map_val := ptr_val.
Definition msg_val := ptr_val.

(** Modelled from the spec: the member [str_val] of the value union. *)
Definition str_val (v : upb_MessageValue) : result upb_StringView :=
  match v with Str s => Ret s | Raw _ => Fault InvalidRead end.

(** [memcmp(&a, &b, len) == 0] on two values. *)
Definition memcmp_eq (len : Z) (a b : upb_MessageValue) : result bool :=
  match a, b with
  | Raw x, Raw y => Ret (low_bytes len x =? low_bytes len y)
  | _, _ => Fault InvalidRead
  end.

(** Modelled from the spec: [upb_StringView_IsEqual]
    (upb/base/string_view.h), "byte-for-byte content equality". *)
Definition upb_StringView_IsEqual (a b : upb_StringView) : bool :=
  bool_decide (a = b).

(** Modelled from the spec: [_upb_MiniTableField_DataIsZero]
    (upb/mini_table/internal/field.h), "zero-valued scalar bytes" at the
    width of the field, zero length for a string view. *)
Definition _upb_MiniTableField_DataIsZero (f : upb_MiniTableField)
  (v : upb_MessageValue) : result bool :=
  match _upb_MiniTableField_GetRep f with
  | kUpb_FieldRep_1Byte => memcmp_eq 1 v (Raw 0)
  | kUpb_FieldRep_4Byte => memcmp_eq 4 v (Raw 0)
  | kUpb_FieldRep_8Byte => memcmp_eq 8 v (Raw 0)
  | kUpb_FieldRep_StringView =>
      s ← str_val v; Ret (bool_decide (length s = 0%nat))
  end.

(** Modelled from the spec: [_upb_MiniTableField_DataEquals]
    (upb/mini_table/internal/field.h), "byte-width compare for scalars,
    content compare for string/bytes". *)
Definition _upb_MiniTableField_DataEquals (f : upb_MiniTableField)
  (a b : upb_MessageValue) : result bool :=
  match _upb_MiniTableField_GetRep f with
  | kUpb_FieldRep_1Byte => memcmp_eq 1 a b
  | kUpb_FieldRep_4Byte => memcmp_eq 4 a b
  | kUpb_FieldRep_8Byte => memcmp_eq 8 a b
  | kUpb_FieldRep_StringView =>
      sa ← str_val a; sb ← str_val b; Ret (upb_StringView_IsEqual sa sb)
  end.

(** Modelled from the spec: [upb_Array_Size], [_upb_Array_ElemSizeLg2] and
    [upb_Array_Get] (upb/message/array.h): size, element size class and
    positional get. *)
Definition upb_Array_Size (h : heap) (arr : ptr) : result Z :=
  a ← load_array h arr; Ret (Z.of_nat (length (arr_data a))).

Definition _upb_Array_ElemSizeLg2 (h : heap) (arr : ptr) : result Z :=
  a ← load_array h arr; Ret (arr_elem_size_lg2 a).

Definition upb_Array_Get (h : heap) (arr : ptr) (i : Z)
  : result upb_MessageValue :=
  a ← load_array h arr;
  match arr_data a !! Z.to_nat i with
  | Some v => Ret v
  | None => Fault InvalidRead
  end.

(** Modelled from the spec: [upb_Map_Size] and [upb_Map_Get]
    (upb/message/map.h): size and lookup by key. *)
Definition upb_Map_Size (h : heap) (map : ptr) : result Z :=
  mp ← load_map h map; Ret (Z.of_nat (length (map_entries mp))).

Definition upb_Map_Get (h : heap) (map : ptr) (key : upb_MessageValue)
  : result (option upb_MessageValue) :=
  mp ← load_map h map;
  Ret (snd <$> find (λ kv, bool_decide (fst kv = key)) (map_entries mp)).

(** Modelled from the spec: the cursors are [size_t]; the "before first"
    sentinels [kUpb_BaseField_Begin], [kUpb_Extension_Begin] and
    [kUpb_Map_Begin] are [(size_t)-1], and the pre-increment wraps around. *)
Definition size_t_modulus : Z := 2 ^ 64.
Definition size_t_incr (i : Z) : Z := (i + 1) mod size_t_modulus.

Definition kUpb_BaseField_Begin : Z := size_t_modulus - 1.
Definition kUpb_Extension_Begin : Z := size_t_modulus - 1.
Definition kUpb_Map_Begin : Z := size_t_modulus - 1.

(** Modelled from the spec: [upb_Map_Next] (upb/message/map.h), the full
    traversal of a map in its storage order. *)
Definition upb_Map_Next (h : heap) (map : ptr) (iter : Z)
  : result (option (upb_MessageValue * upb_MessageValue * Z)) :=
  mp ← load_map h map;
  let i := size_t_incr iter in
  if i <? Z.of_nat (length (map_entries mp)) then
    match map_entries mp !! Z.to_nat i with
    | Some (k, v) => Ret (Some (k, v, i))
    | None => Fault InvalidRead
    end
  else Ret None.

(** Modelled from the spec: [_upb_Message_DataPtr] followed by
    [_upb_MiniTableField_DataCopy] (upb/message/internal/accessors.h): the
    value in the slot of field index [i]. *)
Definition _upb_Message_DataPtr (h : heap) (msg : ptr) (i : Z)
  : result upb_MessageValue :=
  mo ← load_msg h msg;
  match msg_data mo !! Z.to_nat i with
  | Some v => Ret v
  | None => Fault InvalidRead
  end.

(** Modelled from the spec: [upb_Message_HasBaseField]
    (upb/message/accessors.h), the has-bit of an explicit-presence field. *)
Definition upb_Message_HasBaseField (h : heap) (msg : ptr)
  (f : upb_MiniTableField) : result bool :=
  mo ← load_msg h msg;
  match field_presence f with
  | Some k =>
      match msg_hasbits mo !! k with
      | Some b => Ret b
      | None => Fault InvalidRead
      end
  | None => Ret false
  end.

(** Modelled from the spec: [_upb_Message_Getexts],
    [upb_Message_ExtensionCount] and [_upb_Message_Getext]
    (upb/message/internal/extension.h): the extension list, its length, and
    the lookup of an extension by descriptor identity. *)
Definition _upb_Message_Getexts (h : heap) (msg : ptr)
  : result (list upb_Extension) :=
  mo ← load_msg h msg; Ret (msg_exts mo).

Definition upb_Message_ExtensionCount (h : heap) (msg : ptr) : result Z :=
  exts ← _upb_Message_Getexts h msg; Ret (Z.of_nat (length exts)).

Definition _upb_Message_Getext (h : heap) (msg : ptr)
  (e : upb_MiniTableExtension) : result (option upb_Extension) :=
  exts ← _upb_Message_Getexts h msg;
  Ret (find (λ x, bool_decide (ext x = e)) exts).

(** Modelled from the spec: [upb_Message_GetUnknown]
    (upb/message/message.h), the unknown bytes of a message. *)
Definition upb_Message_GetUnknown (h : heap) (msg : ptr)
  : result (list byte) :=
  mo ← load_msg h msg; Ret (msg_unknown mo).

(** ** The iterators *)

(** The body of the [while (++i < count)] loop of
    [upb_Message_NextBaseField]; [n] bounds the remaining iterations.  The
    yielded triple is the field, its value and the new cursor; the cursor is
    also the identity of the yielded field descriptor, which is the address
    of entry [i] of the descriptor's field array. *)
Fixpoint NextBaseField_loop (n : nat) (h : heap) (msg : ptr)
  (m : upb_MiniTable) (i : Z)
  : result (option (upb_MiniTableField * upb_MessageValue * Z)) :=
  let i := size_t_incr i in
  if i <? upb_MiniTable_FieldCount m then
    match n with
    | O => OutOfFuel
    | S n' =>
        f ← upb_MiniTable_GetFieldByIndex m i;
        val ← _upb_Message_DataPtr h msg i;
        skip ←
          (if upb_MiniTableField_HasPresence f then
             has ← upb_Message_HasBaseField h msg f; Ret (negb has)
           else
             zero ← _upb_MiniTableField_DataIsZero f val;
             if zero : bool then Ret true
             else if upb_MiniTableField_IsArray f then
               arr ← array_val val;
               size ← upb_Array_Size h arr; Ret (size =? 0)
             else if upb_MiniTableField_IsMap f then
               map ← map_val val;
               size ← upb_Map_Size h map; Ret (size =? 0)
             else Ret false);
        if skip : bool then NextBaseField_loop n' h msg m i
        else Ret (Some (f, val, i))
    end
  else Ret None.

Definition upb_Message_NextBaseField (h : heap) (msg : ptr)
  (m : upb_MiniTable) (iter : Z)
  : result (option (upb_MiniTableField * upb_MessageValue * Z)) :=
  NextBaseField_loop (length (mt_fields m)) h msg m iter.

Definition upb_Message_NextExtension (h : heap) (msg : ptr)
  (m : upb_MiniTable) (iter : Z)
  : result (option (upb_MiniTableExtension * upb_MessageValue * Z)) :=
  exts ← _upb_Message_Getexts h msg;
  let count := Z.of_nat (length exts) in
  let i := size_t_incr iter in
  if i <? count then
    match exts !! Z.to_nat i with
    | Some x => Ret (Some (ext x, data x, i))
    | None => Fault InvalidRead
    end
  else Ret None.

Definition upb_Message_IsEmpty (h : heap) (msg : ptr) (m : upb_MiniTable)
  : result bool :=
  count ← upb_Message_ExtensionCount h msg;
  if negb (count =? 0) then Ret false
  else
    r ← upb_Message_NextBaseField h msg m kUpb_BaseField_Begin;
    Ret (negb (bool_decide (is_Some r))).

Definition _upb_IsStringView (f : upb_MiniTableField) : bool :=
  let ctype := upb_MiniTableField_CType f in
  bool_decide (ctype = kUpb_CType_String) || bool_decide (ctype = kUpb_CType_Bytes).

(** ** Loops of the comparison *)

(** [for (size_t i = ...; i < ...; i++) { if (!body(i)) return false; }
    return true;] with [count] iterations left. *)
Fixpoint for_each_index (count : nat) (i : Z) (body : Z → result bool)
  : result bool :=
  match count with
  | O => Ret true
  | S count' =>
      ok ← body i;
      if ok : bool then for_each_index count' (i + 1) body else Ret false
  end.

(** [while (next(&iter)) { if (!body(...)) return false; } return true;]
    with at most [n] calls of [next]. *)
Fixpoint while_next {A : Type} (n : nat)
  (next : Z → result (option (A * Z))) (iter : Z)
  (body : A → result bool) : result bool :=
  match n with
  | O => OutOfFuel
  | S n' =>
      r ← next iter;
      match r with
      | None => Ret true
      | Some (a, iter') =>
          ok ← body a;
          if ok : bool then while_next n' next iter' body else Ret false
      end
  end.

(** ** The comparison engine, open in its recursive call *)

Section Engine.
Context `{!Collaborators}.
Variable h : heap.
(** The recursive call [upb_Message_IsEqual] of the container and field
    comparisons. *)
Variable IsEqual_rec : ptr → ptr → upb_MiniTable → result bool.

Definition _upb_Array_IsEqual (arr1 arr2 : ptr) (m : upb_MiniTable)
  (f : upb_MiniTableField) : result bool :=
  (* Check for trivial equality. *)
  if bool_decide (arr1 = arr2) then Ret true else
  (* Must have identical element counts. *)
  size1 ← (if bool_decide (arr1 ≠ NULL) then upb_Array_Size h arr1 else Ret 0);
  size2 ← (if bool_decide (arr2 ≠ NULL) then upb_Array_Size h arr2 else Ret 0);
  if negb (size1 =? size2) then Ret false else
  (* Case #1: Arrays of messages. *)
  if upb_MiniTableField_IsSubMessage f then
    let m2 := upb_MiniTable_GetSubMessageTable m f in
    for_each_index (Z.to_nat size1) 0 (λ i,
      val1 ← upb_Array_Get h arr1 i;
      val2 ← upb_Array_Get h arr2 i;
      p1 ← msg_val val1;
      p2 ← msg_val val2;
      IsEqual_rec p1 p2 m2)
  (* Case #2: Arrays of strings or bytes. *)
  else if _upb_IsStringView f then
    for_each_index (Z.to_nat size1) 0 (λ i,
      val1 ← upb_Array_Get h arr1 i;
      val2 ← upb_Array_Get h arr2 i;
      s1 ← str_val val1;
      s2 ← str_val val2;
      Ret (upb_StringView_IsEqual s1 s2))
  (* Case #3: Arrays of scalars. *)
  else
    lg2 ← _upb_Array_ElemSizeLg2 h arr1;
    let len := Z.shiftl 1 lg2 in
    for_each_index (Z.to_nat size1) 0 (λ i,
      val1 ← upb_Array_Get h arr1 i;
      val2 ← upb_Array_Get h arr2 i;
      memcmp_eq len val1 val2).

Definition _upb_Map_IsEqual (map1 map2 : ptr) (m : upb_MiniTable)
  (f : upb_MiniTableField) : result bool :=
  (* Check for trivial equality. *)
  if bool_decide (map1 = map2) then Ret true else
  (* Must have identical element counts. *)
  size1 ← (if bool_decide (map1 ≠ NULL) then upb_Map_Size h map1 else Ret 0);
  size2 ← (if bool_decide (map2 ≠ NULL) then upb_Map_Size h map2 else Ret 0);
  if negb (size1 =? size2) then Ret false else
  let m2 := upb_MiniTable_GetSubMessageTable m f in
  let f2 := upb_MiniTable_MapValue m2 in
  let next iter :=
    r ← upb_Map_Next h map1 iter;
    Ret (match r with
         | Some (key, val1, iter') => Some ((key, val1), iter')
         | None => None
         end) in
  (* Case #1: Maps of messages. *)
  if upb_MiniTableField_IsSubMessage f2 then
    let m3 := upb_MiniTable_GetSubMessageTable m2 f2 in
    while_next (S (Z.to_nat size1)) next kUpb_Map_Begin (λ '(key, val1),
      r ← upb_Map_Get h map2 key;
      match r with
      | None => Ret false
      | Some val2 =>
          p1 ← msg_val val1;
          p2 ← msg_val val2;
          IsEqual_rec p1 p2 m3
      end)
  (* Case #2: Maps of strings or bytes. *)
  else if _upb_IsStringView f2 then
    while_next (S (Z.to_nat size1)) next kUpb_Map_Begin (λ '(key, val1),
      r ← upb_Map_Get h map2 key;
      match r with
      | None => Ret false
      | Some val2 =>
          s1 ← str_val val1;
          s2 ← str_val val2;
          Ret (upb_StringView_IsEqual s1 s2)
      end)
  (* Case #3: Maps of scalars. *)
  else
    while_next (S (Z.to_nat size1)) next kUpb_Map_Begin (λ '(key, val1),
      r ← upb_Map_Get h map2 key;
      match r with
      | None => Ret false
      | Some val2 => _upb_MiniTableField_DataEquals f2 val1 val2
      end).

(** The [for (;;)] loop of [_upb_Message_BaseFieldsAreEqual]; every
    iteration advances both cursors, so [n] = field count + 1 iterations
    are enough. *)
Fixpoint BaseFieldsAreEqual_loop (n : nat) (msg1 msg2 : ptr)
  (m : upb_MiniTable) (iter1 iter2 : Z) : result bool :=
  match n with
  | O => OutOfFuel
  | S n' =>
      got1 ← upb_Message_NextBaseField h msg1 m iter1;
      got2 ← upb_Message_NextBaseField h msg2 m iter2;
      match got1, got2 with
      | None, None => Ret true          (* Loop termination condition. *)
      | Some (f1, val1, iter1'), Some (f2, val2, iter2') =>
          (* Must have identical minitables: [f1 != f2], the two being
             entries [iter1'] and [iter2'] of the field array of [m]. *)
          if negb (iter1' =? iter2') then Ret false else
          eq ←
            (if upb_MiniTableField_IsArray f1 then
               a1 ← array_val val1; a2 ← array_val val2;
               _upb_Array_IsEqual a1 a2 m f1
             else if upb_MiniTableField_IsMap f1 then
               m1 ← map_val val1; m2 ← map_val val2;
               _upb_Map_IsEqual m1 m2 m f1
             else if upb_MiniTableField_IsSubMessage f1 then
               let subm := upb_MiniTable_GetSubMessageTable m f1 in
               p1 ← msg_val val1; p2 ← msg_val val2;
               IsEqual_rec p1 p2 subm
             else _upb_MiniTableField_DataEquals f1 val1 val2);
          if eq : bool then BaseFieldsAreEqual_loop n' msg1 msg2 m iter1' iter2'
          else Ret false
      | _, _ => Ret false               (* Must have identical field counts. *)
      end
  end.

Definition _upb_Message_BaseFieldsAreEqual (msg1 msg2 : ptr)
  (m : upb_MiniTable) : result bool :=
  BaseFieldsAreEqual_loop (S (length (mt_fields m))) msg1 msg2 m
    kUpb_BaseField_Begin kUpb_BaseField_Begin.

Definition _upb_Message_ExtensionsAreEqual (msg1 msg2 : ptr)
  (m : upb_MiniTable) : result bool :=
  (* Must have identical extension counts. *)
  count1 ← upb_Message_ExtensionCount h msg1;
  count2 ← upb_Message_ExtensionCount h msg2;
  if negb (count1 =? count2) then Ret false else
  let next iter :=
    r ← upb_Message_NextExtension h msg1 m iter;
    Ret (match r with
         | Some (e, val1, iter') => Some ((e, val1), iter')
         | None => None
         end) in
  (* Iterate over all extensions for msg1, and search msg2 for each. *)
  while_next (S (Z.to_nat count1)) next kUpb_Extension_Begin (λ '(e, val1),
    ext2 ← _upb_Message_Getext h msg2 e;
    match ext2 with
    | None => Ret false
    | Some x2 =>
        let val2 := data x2 in
        let f := ext_field e in
        if upb_MiniTableField_IsArray f then
          a1 ← array_val val1; a2 ← array_val val2;
          _upb_Array_IsEqual a1 a2 m f
        else if upb_MiniTableField_IsMap f then
          m1 ← map_val val1; m2 ← map_val val2;
          _upb_Map_IsEqual m1 m2 m f
        else if upb_MiniTableField_IsSubMessage f then
          let subm := upb_MiniTableExtension_GetSubMessage e in
          p1 ← msg_val val1; p2 ← msg_val val2;
          IsEqual_rec p1 p2 subm
        else _upb_MiniTableField_DataEquals f val1 val2
    end).

(** One unfolding of [upb_Message_IsEqual]. *)
Definition IsEqual_body (msg1 msg2 : ptr) (m : upb_MiniTable)
  : result bool :=
  if bool_decide (msg1 = msg2) then Ret true else
  base ← _upb_Message_BaseFieldsAreEqual msg1 msg2 m;
  if negb base then Ret false else
  exts ← _upb_Message_ExtensionsAreEqual msg1 msg2 m;
  if negb exts then Ret false else
  (* Check the unknown fields. *)
  uf1 ← upb_Message_GetUnknown h msg1;
  uf2 ← upb_Message_GetUnknown h msg2;
  Ret (bool_decide (_upb_Message_UnknownFieldsAreEqual uf1 uf2 100
                    = kUpb_UnknownCompareResult_Equal)).
End Engine.

(** [upb_Message_IsEqual]: [fuel] bounds the depth of the recursion through
    sub-message pointers. *)
Fixpoint upb_Message_IsEqual `{!Collaborators} (fuel : nat) (h : heap)
  (msg1 msg2 : ptr) (m : upb_MiniTable) : result bool :=
  match fuel with
  | O => OutOfFuel
  | S fuel' => IsEqual_body h (upb_Message_IsEqual fuel' h) msg1 msg2 m
  end.

(** ** Canonical-form equality, with the arena allocator as state *)

(** Modelled from the spec: the arena allocator (upb/mem/arena.h), as the
    arenas that are live and the next fresh handle; [upb_Arena_New] makes a
    fresh arena live and [upb_Arena_Free] releases one. *)
Record allocator := {
  live : list upb_Arena;
  fresh : upb_Arena
}.

Definition upb_Arena_New (s : allocator) : upb_Arena * allocator :=
  (fresh s, {| live := fresh s :: live s; fresh := fresh s + 1 |}).

Definition upb_Arena_Free (a : upb_Arena) (s : allocator) : allocator :=
  {| live := filter (λ x, x ≠ a) (live s); fresh := fresh s |}.

Definition upb_Message_IsExactlyEqual `{!Collaborators} (h : heap)
  (msg1 msg2 : ptr) (m : upb_MiniTable) (s : allocator) : bool * allocator :=
  if bool_decide (msg1 = msg2) then (true, s) else
  let opts := Z.lor kUpb_EncodeOption_SkipUnknown kUpb_EncodeOption_Deterministic in
  let '(a, s) := upb_Arena_New s in
  (* Compare deterministically serialized payloads with no unknown fields. *)
  let '(status1, data1) := upb_Encode h msg1 m opts a in
  let '(status2, data2) := upb_Encode h msg2 m opts a in
  if bool_decide (status1 ≠ kUpb_EncodeStatus_Ok)
     || bool_decide (status2 ≠ kUpb_EncodeStatus_Ok) then
    (false, upb_Arena_Free a s)
  else
    let ret := bool_decide (length data1 = length data2)
               && bool_decide (take (length data1) data1
                               = take (length data1) data2) in
    (ret, upb_Arena_Free a s).

(** ** Presence, in the words of the specification *)

(** "for array/map fields specifically, yield iff size > 0", a null handle
    being a container of size 0. *)
Definition container_nonempty (size : heap → ptr → result Z) (h : heap)
  (p : ptr) : result bool :=
  if bool_decide (p = NULL) then Ret false
  else n ← size h p; Ret (0 <? n).

(** "If the field has explicit presence: yield it iff its has-bit is set,
    regardless of value.  Else (implicit presence): yield it iff its raw value
    is non-zero-length/non-zero-bytes; for array/map fields specifically,
    yield iff size > 0." *)
Definition spec_field_present (h : heap) (msg : ptr) (f : upb_MiniTableField)
  (v : upb_MessageValue) : result bool :=
  if upb_MiniTableField_HasPresence f then upb_Message_HasBaseField h msg f
  else if upb_MiniTableField_IsArray f then
    arr ← array_val v; container_nonempty upb_Array_Size h arr
  else if upb_MiniTableField_IsMap f then
    map ← map_val v; container_nonempty upb_Map_Size h map
  else
    zero ← _upb_MiniTableField_DataIsZero f v; Ret (negb zero).

(** Presence of the field of index [j] of message [msg]. *)
Definition field_present_at (h : heap) (msg : ptr) (m : upb_MiniTable)
  (j : Z) : result bool :=
  f ← upb_MiniTable_GetFieldByIndex m j;
  v ← _upb_Message_DataPtr h msg j;
  spec_field_present h msg f v.

(** ** Short-circuit conjunction over a list *)

Fixpoint all_equal {A : Type} (body : A → result bool) (l : list A)
  : result bool :=
  match l with
  | [] => Ret true
  | a :: l' =>
      ok ← body a;
      if ok : bool then all_equal body l' else Ret false
  end.

(** ** Per-kind dispatch of a field comparison *)

Section Dispatch.
Context `{!Collaborators}.
Variable h : heap.
Variable IsEqual_rec : ptr → ptr → upb_MiniTable → result bool.

(** The dispatch shared by base fields and extensions, as the code
    performs it; [subm] is the descriptor used for a singular sub-message.
    The array and map comparisons look their sub-descriptor up in [m],
    also when [f] is the field of an extension of [m]. *)
Definition field_value_eq (m : upb_MiniTable) (f : upb_MiniTableField)
  (subm : upb_MiniTable) (val1 val2 : upb_MessageValue) : result bool :=
  if upb_MiniTableField_IsArray f then
    a1 ← array_val val1; a2 ← array_val val2;
    _upb_Array_IsEqual h IsEqual_rec a1 a2 m f
  else if upb_MiniTableField_IsMap f then
    m1 ← map_val val1; m2 ← map_val val2;
    _upb_Map_IsEqual h IsEqual_rec m1 m2 m f
  else if upb_MiniTableField_IsSubMessage f then
    p1 ← msg_val val1; p2 ← msg_val val2;
    IsEqual_rec p1 p2 subm
  else _upb_MiniTableField_DataEquals f val1 val2.

(** Comparison of one element of an array of field [f]. *)
Definition array_elem_eq (m : upb_MiniTable) (f : upb_MiniTableField)
  (lg2 : Z) (val1 val2 : upb_MessageValue) : result bool :=
  if upb_MiniTableField_IsSubMessage f then
    p1 ← msg_val val1; p2 ← msg_val val2;
    IsEqual_rec p1 p2 (upb_MiniTable_GetSubMessageTable m f)
  else if _upb_IsStringView f then
    s1 ← str_val val1; s2 ← str_val val2;
    Ret (upb_StringView_IsEqual s1 s2)
  else memcmp_eq (Z.shiftl 1 lg2) val1 val2.

(** Comparison of one value of a map of field [f]. *)
Definition map_value_eq (m : upb_MiniTable) (f : upb_MiniTableField)
  (val1 val2 : upb_MessageValue) : result bool :=
  let m2 := upb_MiniTable_GetSubMessageTable m f in
  let f2 := upb_MiniTable_MapValue m2 in
  if upb_MiniTableField_IsSubMessage f2 then
    p1 ← msg_val val1; p2 ← msg_val val2;
    IsEqual_rec p1 p2 (upb_MiniTable_GetSubMessageTable m2 f2)
  else if _upb_IsStringView f2 then
    s1 ← str_val val1; s2 ← str_val val2;
    Ret (upb_StringView_IsEqual s1 s2)
  else _upb_MiniTableField_DataEquals f2 val1 val2.

(** The lock-step comparison of base fields, field index by field index. *)
Fixpoint lockstep (msg1 msg2 : ptr) (m : upb_MiniTable) (js : list nat)
  : result bool :=
  match js with
  | [] => Ret true
  | j :: js' =>
      p1 ← field_present_at h msg1 m (Z.of_nat j);
      p2 ← field_present_at h msg2 m (Z.of_nat j);
      match p1, p2 with
      | false, false => lockstep msg1 msg2 m js'
      | true, true =>
          f ← upb_MiniTable_GetFieldByIndex m (Z.of_nat j);
          val1 ← _upb_Message_DataPtr h msg1 (Z.of_nat j);
          val2 ← _upb_Message_DataPtr h msg2 (Z.of_nat j);
          eq ← field_value_eq m f (upb_MiniTable_GetSubMessageTable m f)
                 val1 val2;
          if eq : bool then lockstep msg1 msg2 m js' else Ret false
      | _, _ => Ret false
      end
  end.
End Dispatch.

(** ** Well-formed heaps *)

(** Modelled from the spec: the element size class of an array, as the base
    two logarithm of the element width. *)
Definition lg2_of_ctype (c : upb_CType) : Z :=
  match c with
  | kUpb_CType_Bool => 0
  | kUpb_CType_Float | kUpb_CType_Int32 | kUpb_CType_UInt32
  | kUpb_CType_Enum => 2
  | kUpb_CType_Message | kUpb_CType_Double | kUpb_CType_Int64
  | kUpb_CType_UInt64 => 3
  | kUpb_CType_String | kUpb_CType_Bytes => 4
  end.

Definition in_size_t (n : nat) : bool :=
  bool_decide (Z.of_nat n < size_t_modulus).

Section WellFormed.
Context `{!Collaborators}.
Variable h : heap.
(** Well-formedness of the sub-messages, one level down. *)
Variable wf_sub : upb_MiniTable → ptr → bool.

(** A value that is compared: its union member fits the field, and a
    sub-message pointer is a well-formed message of descriptor [sub]. *)
Definition wf_value (f : upb_MiniTableField) (sub : upb_MiniTable)
  (v : upb_MessageValue) : bool :=
  match v with
  | Raw w =>
      if upb_MiniTableField_IsSubMessage f
      then bool_decide (low_bytes 8 w ≠ NULL) && wf_sub sub (low_bytes 8 w)
      else negb (_upb_IsStringView f)
  | Str _ => negb (upb_MiniTableField_IsSubMessage f) && _upb_IsStringView f
  end.

Definition wf_array (m : upb_MiniTable) (f : upb_MiniTableField) (a : ptr)
  : bool :=
  bool_decide (a ≠ NULL) &&
  match h !! a with
  | Some (ObjArray arr) =>
      in_size_t (length (arr_data arr))
      && bool_decide (arr_elem_size_lg2 arr = lg2_of_ctype (field_ctype f))
      && forallb (wf_value f (upb_MiniTable_GetSubMessageTable m f))
           (arr_data arr)
  | _ => false
  end.

Definition wf_map (m : upb_MiniTable) (f : upb_MiniTableField) (p : ptr)
  : bool :=
  let m2 := upb_MiniTable_GetSubMessageTable m f in
  let f2 := upb_MiniTable_MapValue m2 in
  let m3 := upb_MiniTable_GetSubMessageTable m2 f2 in
  bool_decide (p ≠ NULL) &&
  match h !! p with
  | Some (ObjMap mp) =>
      in_size_t (length (map_entries mp))
      && bool_decide (NoDup (map_entries mp).*1)
      && forallb (λ kv, wf_value f2 m3 kv.2) (map_entries mp)
  | _ => false
  end.

(** The slot of a base field.  Repeated and map fields have implicit
    presence and hold a null or well-formed container; a singular
    sub-message that is marked present is not null. *)
Definition wf_slot (m : upb_MiniTable) (mo : upb_Message)
  (f : upb_MiniTableField) (v : upb_MessageValue) : bool :=
  match field_mode f with
  | kUpb_FieldMode_Array =>
      bool_decide (field_presence f = None) &&
      match v with
      | Raw w => bool_decide (low_bytes 8 w = NULL)
                 || wf_array m f (low_bytes 8 w)
      | Str _ => false
      end
  | kUpb_FieldMode_Map =>
      bool_decide (field_presence f = None) &&
      match v with
      | Raw w => bool_decide (low_bytes 8 w = NULL)
                 || wf_map m f (low_bytes 8 w)
      | Str _ => false
      end
  | kUpb_FieldMode_Scalar =>
      match field_presence f with
      | Some k => bool_decide (k < length (msg_hasbits mo))%nat
      | None => true
      end &&
      if upb_MiniTableField_IsSubMessage f then
        match v with
        | Raw w =>
            if bool_decide (low_bytes 8 w = NULL) then
              match field_presence f with
              | Some k => bool_decide (msg_hasbits mo !! k = Some false)
              | None => true
              end
            else wf_sub (upb_MiniTable_GetSubMessageTable m f) (low_bytes 8 w)
        | Str _ => false
        end
      else wf_value f (upb_MiniTable_GetSubMessageTable m f) v
  end.

(** A value of field [f] that takes part in a comparison: a container is
    not null, a singular value is as [wf_value] says, with [sub] the
    descriptor of a singular sub-message. *)
Definition wf_compared (m : upb_MiniTable) (f : upb_MiniTableField)
  (sub : upb_MiniTable) (v : upb_MessageValue) : bool :=
  match field_mode f with
  | kUpb_FieldMode_Array =>
      match v with
      | Raw w => wf_array m f (low_bytes 8 w)
      | Str _ => false
      end
  | kUpb_FieldMode_Map =>
      match v with
      | Raw w => wf_map m f (low_bytes 8 w)
      | Str _ => false
      end
  | kUpb_FieldMode_Scalar => wf_value f sub v
  end.

(** Every stored extension is compared.  The elements of a repeated
    extension and the entries of a map extension are typed as the code
    reads them, by the descriptor it looks up in [m]; [wf_typed] below
    types them by the descriptor of the extension. *)
Definition wf_extension (m : upb_MiniTable) (x : upb_Extension) : bool :=
  wf_compared m (ext_field (ext x)) (ext_sub (ext x)) (data x).

Definition wf_message (m : upb_MiniTable) (p : ptr) : bool :=
  bool_decide (p ≠ NULL) &&
  match h !! p with
  | Some (ObjMessage mo) =>
      in_size_t (length (mt_fields m))
      && bool_decide (length (mt_fields m) ≤ length (msg_data mo))%nat
      && forallb (λ fv, wf_slot m mo fv.1 fv.2)
           (zip (mt_fields m) (msg_data mo))
      && in_size_t (length (msg_exts mo))
      && bool_decide (NoDup (ext <$> msg_exts mo))
      && forallb (wf_extension m) (msg_exts mo)
  | _ => false
  end.
End WellFormed.

(** A message that is well formed down to depth [d]: the object graph below
    it is a finite tree of height at most [d]. *)
Fixpoint wf_msg `{!Collaborators} (d : nat) (h : heap) (m : upb_MiniTable)
  (p : ptr) : bool :=
  match d with
  | O => false
  | S d' => wf_message h (wf_msg d' h) m p
  end.

(** ** Definitions used by the statements *)

(** A cursor over a list in storage order. *)
Definition list_cursor {A : Type} (l : list A) (iter : Z) : option (A * Z) :=
  let i := size_t_incr iter in
  if i <? Z.of_nat (length l) then
    match l !! Z.to_nat i with
    | Some a => Some (a, i)
    | None => None
    end
  else None.

(** The first field that is present among the field indices [js], with its
    value and index. *)
Fixpoint first_present (h : heap) (msg : ptr) (m : upb_MiniTable)
  (js : list nat)
  : result (option (upb_MiniTableField * upb_MessageValue * Z)) :=
  match js with
  | [] => Ret None
  | j :: js' =>
      p ← field_present_at h msg m (Z.of_nat j);
      if p : bool then
        f ← upb_MiniTable_GetFieldByIndex m (Z.of_nat j);
        v ← _upb_Message_DataPtr h msg (Z.of_nat j);
        Ret (Some (f, v, Z.of_nat j))
      else first_present h msg m js'
  end.

(** Every declared field of the message can be tested for presence. *)
Definition readable (h : heap) (msg : ptr) (m : upb_MiniTable) : Prop :=
  ∀ j : nat, (j < length (mt_fields m))%nat →
    ∃ b, field_present_at h msg m (Z.of_nat j) = Ret b.

(** The size of a container handle, a null handle having size 0. *)
Definition handle_size (size : heap → ptr → result Z) (h : heap) (p : ptr)
  : result Z :=
  if bool_decide (p ≠ NULL) then size h p else Ret 0.

(** Lookup of a key in the entries of a map. *)
Definition map_lookup (key : upb_MessageValue)
  (entries : list (upb_MessageValue * upb_MessageValue))
  : option upb_MessageValue :=
  snd <$> find (λ kv, bool_decide (fst kv = key)) entries.

(** Lookup of an extension by descriptor identity. *)
Definition ext_lookup (e : upb_MiniTableExtension) (exts : list upb_Extension)
  : option upb_Extension :=
  find (λ x, bool_decide (ext x = e)) exts.

(** Lookup by key in a list in storage order: the first entry of that key. *)
Definition assoc_find {A K : Type} `{EqDecision K} (key : A → K) (k : K)
  (l : list A) : option A :=
  find (λ x, bool_decide (key x = k)) l.

(** Every entry of [l1] has a partner of the same key in [l2] that [e]
    accepts. *)
Definition assoc_all {A K : Type} `{EqDecision K} (key : A → K)
  (e : A → A → bool) (l1 l2 : list A) : bool :=
  forallb (λ x, match assoc_find key (key x) l2 with
                | Some y => e x y
                | None => false
                end) l1.

(** [r2] is the result [r1] unless [r1] ran out of fuel. *)
Definition fuel_le {A : Type} (r1 r2 : result A) : Prop :=
  r1 = OutOfFuel ∨ r2 = r1.

(** The same message with other unknown bytes. *)
Definition set_unknown (u : list byte) (mo : upb_Message) : upb_Message :=
  {| msg_data := msg_data mo; msg_hasbits := msg_hasbits mo;
     msg_exts := msg_exts mo; msg_unknown := u |}.

(** The indices of the fields whose presence is has-bit [k]. *)
Definition fields_of_hasbit (m : upb_MiniTable) (k : nat) : list nat :=
  filter (λ j, field_presence <$> mt_fields m !! j = Some (Some k))
    (seq 0 (length (mt_fields m))).

(** The width in bytes at which a singular scalar field is compared. *)
Definition scalar_width (f : upb_MiniTableField) : Z :=
  match _upb_MiniTableField_GetRep f with
  | kUpb_FieldRep_1Byte => 1
  | kUpb_FieldRep_4Byte => 4
  | kUpb_FieldRep_8Byte => 8
  | kUpb_FieldRep_StringView => 0
  end.

(** What a scalar or string array element is compared as: a raw word by its
    low [len] bytes, a string view by its content. *)
Definition elem_repr (len : Z) (v : upb_MessageValue) : upb_MessageValue :=
  match v with
  | Raw x => Raw (low_bytes len x)
  | Str s => Str s
  end.

(** ** A small schema and heap, for the examples *)

Module Example.
Definition f_id : upb_MiniTableField :=
  {| field_number := 1; field_ctype := kUpb_CType_Int32;
     field_mode := kUpb_FieldMode_Scalar; field_presence := Some 0%nat |}.
Definition f_ratio : upb_MiniTableField :=
  {| field_number := 2; field_ctype := kUpb_CType_Float;
     field_mode := kUpb_FieldMode_Scalar; field_presence := None |}.
Definition f_tags : upb_MiniTableField :=
  {| field_number := 3; field_ctype := kUpb_CType_Int32;
     field_mode := kUpb_FieldMode_Array; field_presence := None |}.
Definition f_attrs : upb_MiniTableField :=
  {| field_number := 4; field_ctype := kUpb_CType_Message;
     field_mode := kUpb_FieldMode_Map; field_presence := None |}.
Definition f_key : upb_MiniTableField :=
  {| field_number := 1; field_ctype := kUpb_CType_Int32;
     field_mode := kUpb_FieldMode_Scalar; field_presence := None |}.
Definition f_value : upb_MiniTableField :=
  {| field_number := 2; field_ctype := kUpb_CType_Int32;
     field_mode := kUpb_FieldMode_Scalar; field_presence := None |}.

Definition m_entry : upb_MiniTable := {| mt_fields := [f_key; f_value] |}.
Definition m_example : upb_MiniTable :=
  {| mt_fields := [f_id; f_ratio; f_tags; f_attrs] |}.

Definition e_flag : upb_MiniTableExtension :=
  {| ext_addr := 1000;
     ext_field := {| field_number := 100; field_ctype := kUpb_CType_Bool;
                     field_mode := kUpb_FieldMode_Scalar;
                     field_presence := Some 0%nat |};
     ext_sub := m_entry |}.
Definition e_vals : upb_MiniTableExtension :=
  {| ext_addr := 1016;
     ext_field := {| field_number := 101; field_ctype := kUpb_CType_Int32;
                     field_mode := kUpb_FieldMode_Array;
                     field_presence := None |};
     ext_sub := m_entry |}.
Definition e_other : upb_MiniTableExtension :=
  {| ext_addr := 1032;
     ext_field := {| field_number := 102; field_ctype := kUpb_CType_Int32;
                     field_mode := kUpb_FieldMode_Scalar;
                     field_presence := Some 0%nat |};
     ext_sub := m_entry |}.

(** Collaborators of the examples: every sub-descriptor is the map entry,
    unknown data is compared byte by byte, and the encoder writes the
    has-bits of a message and fails on a pointer that is no message. *)
Definition collaborators : Collaborators :=
  {| upb_MiniTable_GetSubMessageTable := λ _ _, m_entry;
     upb_MiniTable_MapValue := λ m, default f_value (mt_fields m !! 1%nat);
     _upb_Message_UnknownFieldsAreEqual := λ u1 u2 _,
       if bool_decide (u1 = u2) then kUpb_UnknownCompareResult_Equal
       else kUpb_UnknownCompareResult_NotEqual;
     upb_Encode := λ h msg _ _ _,
       match h !! msg with
       | Some (ObjMessage mo) =>
           (kUpb_EncodeStatus_Ok,
            (λ b : bool, if b then Byte.x01 else Byte.x00)
              <$> msg_hasbits mo)
       | _ => (kUpb_EncodeStatus_OutOfMemory, [])
       end |}.

Definition float_nan : Z := 0x7FC00000.
Definition float_nan_payload : Z := 0x7FC00001.
Definition float_neg_zero : Z := 0x80000000.

Definition x_flag : upb_Extension := {| ext := e_flag; data := Raw 1 |}.
Definition x_vals : upb_Extension := {| ext := e_vals; data := Raw 64 |}.
Definition x_other : upb_Extension := {| ext := e_other; data := Raw 7 |}.

Definition msg_A : upb_Message :=
  {| msg_data := [Raw 0; Raw 0; Raw 0; Raw 0]; msg_hasbits := [true];
     msg_exts := []; msg_unknown := [] |}.
Definition msg_B : upb_Message :=
  {| msg_data := [Raw 0; Raw 0; Raw 0; Raw 0]; msg_hasbits := [false];
     msg_exts := []; msg_unknown := [] |}.
Definition msg_Z : upb_Message :=
  {| msg_data := [Raw 0; Raw float_neg_zero; Raw 0; Raw 0];
     msg_hasbits := [true]; msg_exts := []; msg_unknown := [] |}.
Definition msg_D : upb_Message :=
  {| msg_data := [Raw 0; Raw float_nan; Raw 64; Raw 80];
     msg_hasbits := [false]; msg_exts := [x_flag; x_vals];
     msg_unknown := [Byte.x0a] |}.
Definition msg_E : upb_Message :=
  {| msg_data := [Raw 0; Raw float_nan_payload; Raw 64; Raw 80];
     msg_hasbits := [false]; msg_exts := [x_flag; x_vals];
     msg_unknown := [Byte.x0a] |}.
(** [msg_D] with a word whose bits above the four bytes of the float are
    not those of [msg_D]. *)
Definition msg_W : upb_Message :=
  {| msg_data := [Raw 0; Raw (float_nan + 2 ^ 32); Raw 64; Raw 80];
     msg_hasbits := [false]; msg_exts := [x_flag; x_vals];
     msg_unknown := [Byte.x0a] |}.
Definition msg_F : upb_Message :=
  {| msg_data := [Raw 0; Raw float_nan; Raw 72; Raw 80];
     msg_hasbits := [false]; msg_exts := [x_flag; x_vals];
     msg_unknown := [Byte.x0a] |}.
Definition msg_G : upb_Message :=
  {| msg_data := [Raw 0; Raw float_nan; Raw 64; Raw 80];
     msg_hasbits := [false]; msg_exts := [x_vals; x_flag];
     msg_unknown := [Byte.x0a] |}.
Definition msg_H : upb_Message :=
  {| msg_data := [Raw 0; Raw float_nan; Raw 64; Raw 80];
     msg_hasbits := [false]; msg_exts := [x_flag; x_other];
     msg_unknown := [Byte.x0a] |}.
(** A repeated extension that holds a null array, and one that holds an
    empty array. *)
Definition msg_N : upb_Message :=
  {| msg_data := [Raw 0; Raw 0; Raw 0; Raw 0]; msg_hasbits := [false];
     msg_exts := [{| ext := e_vals; data := Raw 0 |}]; msg_unknown := [] |}.
Definition msg_M : upb_Message :=
  {| msg_data := [Raw 0; Raw 0; Raw 0; Raw 0]; msg_hasbits := [false];
     msg_exts := [{| ext := e_vals; data := Raw 128 |}];
     msg_unknown := [] |}.

Definition example_heap : heap :=
  list_to_map
    [ (16, ObjMessage msg_A); (32, ObjMessage msg_B); (48, ObjMessage msg_A);
      (56, ObjMessage msg_Z);
      (64, ObjArray {| arr_elem_size_lg2 := 2;
                       arr_data := [Raw 1; Raw 2] |});
      (72, ObjArray {| arr_elem_size_lg2 := 2;
                       arr_data := [Raw 2; Raw 1] |});
      (80, ObjMap {| map_entries := [(Raw 1, Raw 10); (Raw 2, Raw 20)] |});
      (88, ObjMap {| map_entries := [(Raw 2, Raw 20); (Raw 1, Raw 10)] |});
      (96, ObjMap {| map_entries := [(Raw 1, Raw 10)] |});
      (104, ObjArray {| arr_elem_size_lg2 := 2;
                        arr_data := [Raw (1 + 2 ^ 32); Raw 2] |});
      (128, ObjArray {| arr_elem_size_lg2 := 2; arr_data := [] |});
      (160, ObjMessage msg_D); (176, ObjMessage msg_E);
      (192, ObjMessage msg_F); (208, ObjMessage msg_G);
      (224, ObjMessage msg_H); (240, ObjMessage msg_N);
      (256, ObjMessage msg_M); (272, ObjMessage msg_W) ].

Definition example_allocator : allocator := {| live := [1; 2]; fresh := 3 |}.
End Example.

(** ** The iterators driven to exhaustion, and agreement on a field *)

(** [while (next(..., &iter)) { ... }], the loop by which
    [_upb_Message_ExtensionsAreEqual] and [_upb_Map_IsEqual] drive an
    iterator, with a body that records the item: the items yielded from
    cursor [iter] on, in the order of the calls; [n] bounds the number of
    calls. *)
Fixpoint collect {A : Type} (n : nat) (next : Z → result (option (A * Z)))
  (iter : Z) : result (list A) :=
  match n with
  | O => OutOfFuel
  | S n' =>
      r ← next iter;
      match r with
      | None => Ret []
      | Some (a, iter') => l ← collect n' next iter'; Ret (a :: l)
      end
  end.

(** The walk over the base fields of a message, from
    [kUpb_BaseField_Begin] until [upb_Message_NextBaseField] answers false. *)
Definition base_field_walk (h : heap) (msg : ptr) (m : upb_MiniTable)
  : result (list (upb_MiniTableField * upb_MessageValue * Z)) :=
  collect (S (length (mt_fields m)))
    (λ iter,
       r ← upb_Message_NextBaseField h msg m iter;
       Ret (match r with
            | Some (f, v, iter') => Some ((f, v, iter'), iter')
            | None => None
            end))
    kUpb_BaseField_Begin.

(** The walk over the extensions of a message, from [kUpb_Extension_Begin]
    until [upb_Message_NextExtension] answers false. *)
Definition extension_walk (h : heap) (msg : ptr) (m : upb_MiniTable)
  : result (list (upb_MiniTableExtension * upb_MessageValue)) :=
  count ← upb_Message_ExtensionCount h msg;
  collect (S (Z.to_nat count))
    (λ iter,
       r ← upb_Message_NextExtension h msg m iter;
       Ret (match r with
            | Some (e, v, iter') => Some ((e, v), iter')
            | None => None
            end))
    kUpb_Extension_Begin.

(** The field of index [j] with its value, if it is present. *)
Definition present_field (h : heap) (msg : ptr) (m : upb_MiniTable) (j : nat)
  : option (upb_MiniTableField * upb_MessageValue * Z) :=
  match field_present_at h msg m (Z.of_nat j),
        upb_MiniTable_GetFieldByIndex m (Z.of_nat j),
        _upb_Message_DataPtr h msg (Z.of_nat j) with
  | Ret true, Ret f, Ret v => Some (f, v, Z.of_nat j)
  | _, _, _ => None
  end.

(** The present fields of a message, by ascending field index. *)
Definition present_fields (h : heap) (msg : ptr) (m : upb_MiniTable)
  : list (upb_MiniTableField * upb_MessageValue * Z) :=
  omap (present_field h msg m) (seq 0 (length (mt_fields m))).

(** Two messages agree on the field of index [j]: it is absent from both, or
    present in both with values that compare equal under the dispatch by
    kind. *)
Definition field_agrees `{!Collaborators} (h : heap)
  (IsEqual_rec : ptr → ptr → upb_MiniTable → result bool)
  (msg1 msg2 : ptr) (m : upb_MiniTable) (j : nat) : Prop :=
  (field_present_at h msg1 m (Z.of_nat j) = Ret false
   ∧ field_present_at h msg2 m (Z.of_nat j) = Ret false)
  ∨ (field_present_at h msg1 m (Z.of_nat j) = Ret true
     ∧ field_present_at h msg2 m (Z.of_nat j) = Ret true
     ∧ ∃ f val1 val2,
         upb_MiniTable_GetFieldByIndex m (Z.of_nat j) = Ret f
         ∧ _upb_Message_DataPtr h msg1 (Z.of_nat j) = Ret val1
         ∧ _upb_Message_DataPtr h msg2 (Z.of_nat j) = Ret val2
         ∧ field_value_eq h IsEqual_rec m f
             (upb_MiniTable_GetSubMessageTable m f) val1 val2 = Ret true).

(** ** A nested schema and heap, for the examples *)

Module Nested.
(** message Inner { int32 x = 1; optional string label = 2; } *)
Definition g_x : upb_MiniTableField :=
  {| field_number := 1; field_ctype := kUpb_CType_Int32;
     field_mode := kUpb_FieldMode_Scalar; field_presence := None |}.
Definition g_label : upb_MiniTableField :=
  {| field_number := 2; field_ctype := kUpb_CType_String;
     field_mode := kUpb_FieldMode_Scalar; field_presence := Some 0%nat |}.
Definition m_inner : upb_MiniTable := {| mt_fields := [g_x; g_label] |}.

(** The entry of map<int32, Inner>. *)
Definition g_key : upb_MiniTableField :=
  {| field_number := 1; field_ctype := kUpb_CType_Int32;
     field_mode := kUpb_FieldMode_Scalar; field_presence := None |}.
Definition g_val : upb_MiniTableField :=
  {| field_number := 2; field_ctype := kUpb_CType_Message;
     field_mode := kUpb_FieldMode_Scalar; field_presence := None |}.
Definition m_pair : upb_MiniTable := {| mt_fields := [g_key; g_val] |}.

(** message Outer { optional Inner child = 1; repeated Inner items = 2;
    repeated string names = 3; int32 count = 4;
    map<int32, Inner> index = 5; } *)
Definition g_child : upb_MiniTableField :=
  {| field_number := 1; field_ctype := kUpb_CType_Message;
     field_mode := kUpb_FieldMode_Scalar; field_presence := Some 0%nat |}.
Definition g_items : upb_MiniTableField :=
  {| field_number := 2; field_ctype := kUpb_CType_Message;
     field_mode := kUpb_FieldMode_Array; field_presence := None |}.
Definition g_names : upb_MiniTableField :=
  {| field_number := 3; field_ctype := kUpb_CType_String;
     field_mode := kUpb_FieldMode_Array; field_presence := None |}.
Definition g_count : upb_MiniTableField :=
  {| field_number := 4; field_ctype := kUpb_CType_Int32;
     field_mode := kUpb_FieldMode_Scalar; field_presence := None |}.
Definition g_index : upb_MiniTableField :=
  {| field_number := 5; field_ctype := kUpb_CType_Message;
     field_mode := kUpb_FieldMode_Map; field_presence := None |}.
Definition m_outer : upb_MiniTable :=
  {| mt_fields := [g_child; g_items; g_names; g_count; g_index] |}.

(** extend Outer { repeated Inner more = 200; optional Inner one = 201; } *)
Definition e_more : upb_MiniTableExtension :=
  {| ext_addr := 2000;
     ext_field := {| field_number := 200; field_ctype := kUpb_CType_Message;
                     field_mode := kUpb_FieldMode_Array;
                     field_presence := None |};
     ext_sub := m_inner |}.
Definition e_one : upb_MiniTableExtension :=
  {| ext_addr := 2016;
     ext_field := {| field_number := 201; field_ctype := kUpb_CType_Message;
                     field_mode := kUpb_FieldMode_Scalar;
                     field_presence := Some 0%nat |};
     ext_sub := m_inner |}.

(** Collaborators of the examples: the sub-descriptor of the map field is
    the map entry and that of every other field is [Inner]; unknown data
    is compared byte by byte; the encoder writes the has-bits of a message
    and fails on a pointer that is no message. *)
Definition schema : Collaborators :=
  {| upb_MiniTable_GetSubMessageTable := λ _ f,
       if bool_decide (f = g_index) then m_pair else m_inner;
     upb_MiniTable_MapValue := λ m, default g_x (mt_fields m !! 1%nat);
     _upb_Message_UnknownFieldsAreEqual := λ u1 u2 _,
       if bool_decide (u1 = u2) then kUpb_UnknownCompareResult_Equal
       else kUpb_UnknownCompareResult_NotEqual;
     upb_Encode := λ h msg _ _ _,
       match h !! msg with
       | Some (ObjMessage mo) =>
           (kUpb_EncodeStatus_Ok,
            (λ b : bool, if b then Byte.x01 else Byte.x00)
              <$> msg_hasbits mo)
       | _ => (kUpb_EncodeStatus_OutOfMemory, [])
       end |}.

Definition str_hi : upb_StringView := [Byte.x68; Byte.x69].
Definition str_a : upb_StringView := [Byte.x61].
Definition str_b : upb_StringView := [Byte.x62].

Definition inner_a : upb_Message :=
  {| msg_data := [Raw 7; Str str_hi]; msg_hasbits := [true];
     msg_exts := []; msg_unknown := [] |}.
Definition inner_b : upb_Message :=
  {| msg_data := [Raw 9; Str str_hi]; msg_hasbits := [true];
     msg_exts := []; msg_unknown := [] |}.

Definition outer (child items names index : ptr) : upb_Message :=
  {| msg_data := [Raw child; Raw items; Raw names; Raw 5; Raw index];
     msg_hasbits := [true]; msg_exts := []; msg_unknown := [Byte.x0a] |}.

(** No field is present; the third holds a stale child under a clear
    has-bit, an empty array and an empty map. *)
Definition blank (unknown : list byte) : upb_Message :=
  {| msg_data := [Raw 0; Raw 0; Raw 0; Raw 0; Raw 0];
     msg_hasbits := [false]; msg_exts := []; msg_unknown := unknown |}.
Definition blank_stale : upb_Message :=
  {| msg_data := [Raw 8; Raw 152; Raw 0; Raw 0; Raw 192];
     msg_hasbits := [false]; msg_exts := []; msg_unknown := [Byte.x01] |}.

(** The repeated field and the map field only. *)
Definition sparse : upb_Message :=
  {| msg_data := [Raw 0; Raw 104; Raw 0; Raw 0; Raw 168];
     msg_hasbits := [false]; msg_exts := []; msg_unknown := [] |}.

Definition extended (x : upb_Extension) : upb_Message :=
  {| msg_data := [Raw 0; Raw 0; Raw 0; Raw 0; Raw 0];
     msg_hasbits := [false]; msg_exts := [x]; msg_unknown := [] |}.

Definition nested_heap : heap :=
  list_to_map
    [ (8, ObjMessage inner_a); (24, ObjMessage inner_a);
      (40, ObjMessage inner_b); (56, ObjMessage inner_a);
      (104, ObjArray {| arr_elem_size_lg2 := 3;
                        arr_data := [Raw 8; Raw 40] |});
      (112, ObjArray {| arr_elem_size_lg2 := 3;
                        arr_data := [Raw 24; Raw 40] |});
      (120, ObjArray {| arr_elem_size_lg2 := 3;
                        arr_data := [Raw 56; Raw 40] |});
      (136, ObjArray {| arr_elem_size_lg2 := 4;
                        arr_data := [Str str_a; Str str_b] |});
      (144, ObjArray {| arr_elem_size_lg2 := 4;
                        arr_data := [Str str_a; Str str_b] |});
      (152, ObjArray {| arr_elem_size_lg2 := 3; arr_data := [] |});
      (168, ObjMap {| map_entries := [(Raw 1, Raw 8); (Raw 2, Raw 40)] |});
      (176, ObjMap {| map_entries := [(Raw 2, Raw 40); (Raw 1, Raw 24)] |});
      (184, ObjMap {| map_entries := [(Raw 1, Raw 56); (Raw 2, Raw 40)] |});
      (192, ObjMap {| map_entries := [] |});
      (200, ObjMessage (outer 8 104 136 168));
      (216, ObjMessage (outer 24 112 144 176));
      (232, ObjMessage (outer 56 120 136 184));
      (248, ObjMessage (outer 40 104 136 168));
      (264, ObjMessage (blank [Byte.x01]));
      (280, ObjMessage (blank [Byte.x02]));
      (296, ObjMessage blank_stale);
      (312, ObjMessage (extended {| ext := e_more; data := Raw 104 |}));
      (328, ObjMessage (extended {| ext := e_more; data := Raw 112 |}));
      (344, ObjMessage (extended {| ext := e_one; data := Raw 8 |}));
      (360, ObjMessage (extended {| ext := e_one; data := Raw 40 |}));
      (376, ObjMessage sparse) ].
End Nested.

(** ** The value of an extension, in the words of the specification *)

(** The comparison of a value of field [f] as section 4 of the specification
    words it.  [sub] is "[f]'s sub-message descriptor": the specification
    has the field descriptor carry it, so for the field of an extension it
    is the sub-descriptor of the extension,
    [upb_MiniTableExtension_GetSubMessage]. *)
Section SpecDispatch.
Context `{!Collaborators}.
Variable h : heap.
Variable IsEqual_rec : ptr → ptr → upb_MiniTable → result bool.

(** "sub-message elements: recursively apply Message Equality Engine
    element-by-element, using [f]'s sub-message descriptor; string/bytes
    elements: byte-for-byte content equality; scalar elements:
    raw-byte-width comparison element-by-element, width determined by the
    array's element size class". *)
Definition spec_elem_equal (f : upb_MiniTableField) (sub : upb_MiniTable)
  (lg2 : Z) (val1 val2 : upb_MessageValue) : result bool :=
  if upb_MiniTableField_IsSubMessage f then
    p1 ← msg_val val1; p2 ← msg_val val2;
    IsEqual_rec p1 p2 sub
  else if _upb_IsStringView f then
    s1 ← str_val val1; s2 ← str_val val2;
    Ret (upb_StringView_IsEqual s1 s2)
  else memcmp_eq (Z.shiftl 1 lg2) val1 val2.

(** "identity-equal handles short-circuit true.  Differing lengths → not
    equal.  Otherwise, dispatch by element kind"; a null handle is an
    array of length 0, and two arrays of length 0 hold no element to
    compare. *)
Definition spec_array_equal (f : upb_MiniTableField) (sub : upb_MiniTable)
  (arr1 arr2 : ptr) : result bool :=
  if bool_decide (arr1 = arr2) then Ret true else
  size1 ← handle_size upb_Array_Size h arr1;
  size2 ← handle_size upb_Array_Size h arr2;
  if negb (size1 =? size2) then Ret false
  else if size1 =? 0 then Ret true
  else
    a1 ← load_array h arr1;
    a2 ← load_array h arr2;
    all_equal (λ vv, spec_elem_equal f sub (arr_elem_size_lg2 a1) vv.1 vv.2)
      (zip (arr_data a1) (arr_data a2)).

(** "Compare the found values using the same three-way dispatch as arrays,
    keyed off the map's value-field descriptor (... found via the
    sub-message Descriptor's synthetic value field)"; [entry] is the
    sub-message descriptor of the map field. *)
Definition spec_map_value_equal (entry : upb_MiniTable)
  (val1 val2 : upb_MessageValue) : result bool :=
  let f2 := upb_MiniTable_MapValue entry in
  if upb_MiniTableField_IsSubMessage f2 then
    p1 ← msg_val val1; p2 ← msg_val val2;
    IsEqual_rec p1 p2 (upb_MiniTable_GetSubMessageTable entry f2)
  else if _upb_IsStringView f2 then
    s1 ← str_val val1; s2 ← str_val val2;
    Ret (upb_StringView_IsEqual s1 s2)
  else _upb_MiniTableField_DataEquals f2 val1 val2.

(** "identity-equal short-circuit true; differing sizes → not equal.
    Otherwise traverse [map1]'s entries in any order; for each key, look
    up the same key in [map2] — absence of the key is inequality." *)
Definition spec_map_equal (entry : upb_MiniTable) (map1 map2 : ptr)
  : result bool :=
  if bool_decide (map1 = map2) then Ret true else
  size1 ← handle_size upb_Map_Size h map1;
  size2 ← handle_size upb_Map_Size h map2;
  if negb (size1 =? size2) then Ret false
  else if size1 =? 0 then Ret true
  else
    mp1 ← load_map h map1;
    mp2 ← load_map h map2;
    all_equal (λ kv, match map_lookup kv.1 (map_entries mp2) with
                     | None => Ret false
                     | Some val2 => spec_map_value_equal entry kv.2 val2
                     end)
      (map_entries mp1).

(** "dispatch on field kind — array via 4.3, map via 4.3, sub-message via
    recursive [IsEqual] on the sub-message descriptor, else raw value
    equality (byte-width compare for scalars, content compare for
    string/bytes)". *)
Definition spec_value_equal (f : upb_MiniTableField) (sub : upb_MiniTable)
  (val1 val2 : upb_MessageValue) : result bool :=
  if upb_MiniTableField_IsArray f then
    a1 ← array_val val1; a2 ← array_val val2;
    spec_array_equal f sub a1 a2
  else if upb_MiniTableField_IsMap f then
    m1 ← map_val val1; m2 ← map_val val2;
    spec_map_equal sub m1 m2
  else if upb_MiniTableField_IsSubMessage f then
    p1 ← msg_val val1; p2 ← msg_val val2;
    IsEqual_rec p1 p2 sub
  else _upb_MiniTableField_DataEquals f val1 val2.

(** "Extensions: if extension counts differ ⇒ not equal.  Otherwise, for
    every extension in [msg1], look up the extension of identical
    descriptor identity in [msg2]; absence ⇒ not equal; otherwise compare
    values with the same kind-dispatch as step 2." *)
Definition spec_extensions_equal (msg1 msg2 : ptr) : result bool :=
  mo1 ← load_msg h msg1;
  mo2 ← load_msg h msg2;
  if negb (bool_decide (length (msg_exts mo1) = length (msg_exts mo2)))
  then Ret false
  else
    all_equal (λ x1, match ext_lookup (ext x1) (msg_exts mo2) with
                     | None => Ret false
                     | Some x2 =>
                         spec_value_equal (ext_field (ext x1))
                           (upb_MiniTableExtension_GetSubMessage (ext x1))
                           (data x1) (data x2)
                     end)
      (msg_exts mo1).
End SpecDispatch.

(** Messages whose extensions are typed by their own descriptors.

    [wf_msg] types the elements of a repeated sub-message extension, and
    the entries of a map extension, by the descriptor the code looks up in
    the descriptor of the extended message (compare.c:250 and 252, into
    lines 110 and 154).  Below they are typed by the sub-descriptor of the
    extension, and that the lookup of the code names this same descriptor
    is a condition of its own, [sub_lookup_agrees]. *)
Section WellTyped.
Context `{!Collaborators}.
Variable h : heap.
Variable wf_sub : upb_MiniTable → ptr → bool.

(** An array of field [f] whose sub-message elements have descriptor
    [sub]. *)
Definition wf_array_of (f : upb_MiniTableField) (sub : upb_MiniTable)
  (a : ptr) : bool :=
  bool_decide (a ≠ NULL) &&
  match h !! a with
  | Some (ObjArray arr) =>
      in_size_t (length (arr_data arr))
      && bool_decide (arr_elem_size_lg2 arr = lg2_of_ctype (field_ctype f))
      && forallb (wf_value wf_sub f sub) (arr_data arr)
  | _ => false
  end.

(** A map whose entries have descriptor [entry]. *)
Definition wf_map_of (entry : upb_MiniTable) (p : ptr) : bool :=
  let f2 := upb_MiniTable_MapValue entry in
  let m3 := upb_MiniTable_GetSubMessageTable entry f2 in
  bool_decide (p ≠ NULL) &&
  match h !! p with
  | Some (ObjMap mp) =>
      in_size_t (length (map_entries mp))
      && bool_decide (NoDup (map_entries mp).*1)
      && forallb (λ kv, wf_value wf_sub f2 m3 kv.2) (map_entries mp)
  | _ => false
  end.

(** The value of a stored extension, typed by the extension. *)
Definition wf_extension_own (x : upb_Extension) : bool :=
  let f := ext_field (ext x) in
  let sub := upb_MiniTableExtension_GetSubMessage (ext x) in
  match field_mode f with
  | kUpb_FieldMode_Array =>
      match data x with
      | Raw w => wf_array_of f sub (low_bytes 8 w)
      | Str _ => false
      end
  | kUpb_FieldMode_Map =>
      match data x with
      | Raw w => wf_map_of sub (low_bytes 8 w)
      | Str _ => false
      end
  | kUpb_FieldMode_Scalar => wf_value wf_sub f sub (data x)
  end.

(** For a repeated sub-message extension and for a map extension of the
    message of descriptor [m], [upb_MiniTable_GetSubMessageTable] applied
    to [m] and the field of the extension gives the sub-descriptor of the
    extension.  Any other extension meets the condition. *)
Definition sub_lookup_agrees (m : upb_MiniTable) (x : upb_Extension)
  : bool :=
  let f := ext_field (ext x) in
  if upb_MiniTableField_IsArray f && upb_MiniTableField_IsSubMessage f
     || upb_MiniTableField_IsMap f
  then bool_decide (upb_MiniTable_GetSubMessageTable m f
                    = upb_MiniTableExtension_GetSubMessage (ext x))
  else true.

Definition wf_message_typed (m : upb_MiniTable) (p : ptr) : bool :=
  bool_decide (p ≠ NULL) &&
  match h !! p with
  | Some (ObjMessage mo) =>
      in_size_t (length (mt_fields m))
      && bool_decide (length (mt_fields m) ≤ length (msg_data mo))%nat
      && forallb (λ fv, wf_slot h wf_sub m mo fv.1 fv.2)
           (zip (mt_fields m) (msg_data mo))
      && in_size_t (length (msg_exts mo))
      && bool_decide (NoDup (ext <$> msg_exts mo))
      && forallb wf_extension_own (msg_exts mo)
      && forallb (sub_lookup_agrees m) (msg_exts mo)
  | _ => false
  end.
End WellTyped.

(** A message that is well formed down to depth [d], with every extension
    below it typed by its own descriptor and looked up consistently. *)
Fixpoint wf_typed `{!Collaborators} (d : nat) (h : heap) (m : upb_MiniTable)
  (p : ptr) : bool :=
  match d with
  | O => false
  | S d' => wf_message_typed h (wf_typed d' h) m p
  end.

(** ** Extended messages whose own sub-descriptors are not that of the
    extension *)

Module Holder.
(** message Inner { int32 x = 1; optional string label = 2; } *)
Definition i_x : upb_MiniTableField :=
  {| field_number := 1; field_ctype := kUpb_CType_Int32;
     field_mode := kUpb_FieldMode_Scalar; field_presence := None |}.
Definition i_label : upb_MiniTableField :=
  {| field_number := 2; field_ctype := kUpb_CType_String;
     field_mode := kUpb_FieldMode_Scalar; field_presence := Some 0%nat |}.
Definition m_inner : upb_MiniTable := {| mt_fields := [i_x; i_label] |}.

(** message Slim { int32 x = 1; } *)
Definition m_slim : upb_MiniTable := {| mt_fields := [i_x] |}.

(** message Holder { optional Slim head = 1; extensions 100 to max; } *)
Definition h_head : upb_MiniTableField :=
  {| field_number := 1; field_ctype := kUpb_CType_Message;
     field_mode := kUpb_FieldMode_Scalar; field_presence := Some 0%nat |}.
Definition m_holder : upb_MiniTable := {| mt_fields := [h_head] |}.

(** The entry of map<int32, Inner>, and
    message Book { map<int32, Inner> index = 1; extensions 100 to max; } *)
Definition p_key : upb_MiniTableField :=
  {| field_number := 1; field_ctype := kUpb_CType_Int32;
     field_mode := kUpb_FieldMode_Scalar; field_presence := None |}.
Definition p_val : upb_MiniTableField :=
  {| field_number := 2; field_ctype := kUpb_CType_Message;
     field_mode := kUpb_FieldMode_Scalar; field_presence := Some 0%nat |}.
Definition m_pair : upb_MiniTable := {| mt_fields := [p_key; p_val] |}.
Definition b_index : upb_MiniTableField :=
  {| field_number := 1; field_ctype := kUpb_CType_Message;
     field_mode := kUpb_FieldMode_Map; field_presence := None |}.
Definition m_book : upb_MiniTable := {| mt_fields := [b_index] |}.

(** extend Holder { repeated Inner items = 100; }
    extend Book { repeated Inner pages = 100; } *)
Definition f_repeated_inner : upb_MiniTableField :=
  {| field_number := 100; field_ctype := kUpb_CType_Message;
     field_mode := kUpb_FieldMode_Array; field_presence := None |}.
Definition e_items : upb_MiniTableExtension :=
  {| ext_addr := 3000; ext_field := f_repeated_inner; ext_sub := m_inner |}.
Definition e_pages : upb_MiniTableExtension :=
  {| ext_addr := 3016; ext_field := f_repeated_inner; ext_sub := m_inner |}.

(** Collaborators.  A descriptor keeps its sub-descriptors in an array of
    its own, and a sub-message field names its entry of that array by
    position; every sub-message field above is the first of its
    descriptor, the field of an extension being the first of the
    extension.  [upb_MiniTable_GetSubMessageTable m f] is the entry of
    [m] at the position that [f] names: the first sub-descriptor of [m].
    Unknown data is compared byte by byte; the encoder is not used. *)
Definition first_sub (m : upb_MiniTable) : upb_MiniTable :=
  if bool_decide (m = m_holder) then m_slim
  else if bool_decide (m = m_book) then m_pair
  else m_inner.

Definition schema : Collaborators :=
  {| upb_MiniTable_GetSubMessageTable := λ m _, first_sub m;
     upb_MiniTable_MapValue := λ m, default p_val (mt_fields m !! 1%nat);
     _upb_Message_UnknownFieldsAreEqual := λ u1 u2 _,
       if bool_decide (u1 = u2) then kUpb_UnknownCompareResult_Equal
       else kUpb_UnknownCompareResult_NotEqual;
     upb_Encode := λ _ _ _ _ _, (kUpb_EncodeStatus_OutOfMemory, []) |}.

Definition str_hi : upb_StringView := [Byte.x68; Byte.x69].
Definition str_ho : upb_StringView := [Byte.x68; Byte.x6f].

(** Two [Inner] messages that differ in [label] only. *)
Definition inner_hi : upb_Message :=
  {| msg_data := [Raw 7; Str str_hi]; msg_hasbits := [true];
     msg_exts := []; msg_unknown := [] |}.
Definition inner_ho : upb_Message :=
  {| msg_data := [Raw 7; Str str_ho]; msg_hasbits := [true];
     msg_exts := []; msg_unknown := [] |}.

(** A message with no base field set and one extension. *)
Definition extended (x : upb_Extension) : upb_Message :=
  {| msg_data := [Raw 0]; msg_hasbits := [false]; msg_exts := [x];
     msg_unknown := [] |}.

(** Two [Holder] messages at 128 and 144, whose [items] hold one [Inner]
    each, of different labels; two [Book] messages at 160 and 176, whose
    [pages] hold one [Inner] each, of the same content. *)
Definition holder_heap : heap :=
  list_to_map
    [ (16, ObjMessage inner_hi); (32, ObjMessage inner_ho);
      (48, ObjMessage inner_hi);
      (64, ObjArray {| arr_elem_size_lg2 := 3; arr_data := [Raw 16] |});
      (72, ObjArray {| arr_elem_size_lg2 := 3; arr_data := [Raw 32] |});
      (80, ObjArray {| arr_elem_size_lg2 := 3; arr_data := [Raw 48] |});
      (128, ObjMessage (extended {| ext := e_items; data := Raw 64 |}));
      (144, ObjMessage (extended {| ext := e_items; data := Raw 72 |}));
      (160, ObjMessage (extended {| ext := e_pages; data := Raw 64 |}));
      (176, ObjMessage (extended {| ext := e_pages; data := Raw 80 |})) ].
End Holder.

(** * Basic facts *)

Lemma bind_Ret_inv {A B : Type} (r : result A) (f : A → result B) (b : B) :
  (r ≫= f) = Ret b → ∃ a, r = Ret a ∧ f a = Ret b.
Proof. destruct r as [a| |]; simpl; intros E; try discriminate. eauto. Qed.

Lemma size_t_incr_small (i : Z) :
  0 ≤ i → i + 1 < size_t_modulus → size_t_incr i = i + 1.
Proof. intros. unfold size_t_incr. apply Z.mod_small. lia. Qed.

Lemma size_t_incr_range (i : Z) : 0 ≤ size_t_incr i < size_t_modulus.
Proof. unfold size_t_incr. apply Z.mod_pos_bound. reflexivity. Qed.

Lemma in_size_t_spec (n : nat) :
  in_size_t n = true ↔ Z.of_nat n < size_t_modulus.
Proof. unfold in_size_t. rewrite bool_decide_eq_true. reflexivity. Qed.

(** ** Short-circuit conjunction *)

Section AllEqual.
Context {A : Type} (body : A → result bool).

Lemma all_equal_true (l : list A) :
  all_equal body l = Ret true ↔ Forall (λ a, body a = Ret true) l.
Proof.
  induction l as [|a l IH]; simpl.
  - split; auto.
  - rewrite Forall_cons. destruct (body a) as [[] | |] eqn:E; simpl.
    + rewrite IH. intuition.
    + split; [discriminate | intros [? _]; discriminate].
    + split; [discriminate | intros [? _]; discriminate].
    + split; [discriminate | intros [? _]; discriminate].
Qed.

Lemma all_equal_false (l : list A) :
  all_equal body l = Ret false ↔
  ∃ l1 a l2, l = l1 ++ a :: l2 ∧ Forall (λ x, body x = Ret true) l1
             ∧ body a = Ret false.
Proof.
  induction l as [|a l IH]; simpl.
  - split; [discriminate | intros ([|??] & ? & ? & ? & _); discriminate].
  - destruct (body a) as [[] | |] eqn:E; simpl.
    + rewrite IH. split.
      * intros (l1 & x & l2 & -> & H1 & H2).
        exists (a :: l1), x, l2. repeat split; auto.
      * intros ([|y l1] & x & l2 & Hl & H1 & H2); simplify_eq/=.
        -- congruence.
        -- apply Forall_cons in H1 as [_ H1]. eauto 6.
    + split; [intros _; exists [], a, l; auto|auto].
    + split; [discriminate|].
      intros ([|y l1] & x & l2 & Hl & H1 & H2); simplify_eq/=; [congruence|].
      apply Forall_cons in H1 as [H1 _]. congruence.
    + split; [discriminate|].
      intros ([|y l1] & x & l2 & Hl & H1 & H2); simplify_eq/=; [congruence|].
      apply Forall_cons in H1 as [H1 _]. congruence.
Qed.

Lemma all_equal_total (l : list A) :
  Forall (λ a, ∃ b, body a = Ret b) l → ∃ b, all_equal body l = Ret b.
Proof.
  induction 1 as [|a l [b E] _ IH]; simpl; [eauto|].
  rewrite E. simpl. destruct b; eauto.
Qed.

Lemma all_equal_ext (body' : A → result bool) (l : list A) :
  Forall (λ a, body a = body' a) l → all_equal body l = all_equal body' l.
Proof.
  induction 1 as [|a l E _ IH]; simpl; [done|]. rewrite E, IH. done.
Qed.
End AllEqual.

Lemma all_equal_fmap {A B : Type} (g : A → B) (body : B → result bool)
  (l : list A) :
  all_equal body (g <$> l) = all_equal (body ∘ g) l.
Proof. induction l as [|a l IH]; csimpl; [done|]. by rewrite IH. Qed.

(** ** The counted loops *)

Lemma for_each_index_all_equal (body : Z → result bool) (count : nat) (i : nat) :
  for_each_index count (Z.of_nat i) body
  = all_equal (λ j, body (Z.of_nat j)) (seq i count).
Proof.
  revert i. induction count as [|c IH]; intros i; simpl; [done|].
  destruct (body (Z.of_nat i)) as [[]| |]; simpl; try done.
  replace (Z.of_nat i + 1) with (Z.of_nat (S i)) by lia. apply IH.
Qed.

(** ** Loops over a cursor *)

Lemma while_next_drop {A : Type} (l : list A)
  (next : Z → result (option (A * Z))) (body : A → result bool) :
  Z.of_nat (length l) < size_t_modulus →
  (∀ iter, next iter = Ret (list_cursor l iter)) →
  ∀ (n : nat) (iter : Z),
    (length l - Z.to_nat (size_t_incr iter) < n)%nat →
    while_next n next iter body
    = all_equal body (drop (Z.to_nat (size_t_incr iter)) l).
Proof.
  intros Hlen Hnext n. induction n as [|n IH]; intros iter Hn.
  - lia.
  - simpl. rewrite Hnext. simpl. unfold list_cursor.
    pose proof (size_t_incr_range iter) as Hr.
    set (i := size_t_incr iter) in *.
    destruct (Z.ltb_spec i (Z.of_nat (length l))) as [Hlt|Hge].
    + destruct (l !! Z.to_nat i) as [a|] eqn:Ea.
      2:{ apply lookup_ge_None in Ea. lia. }
      rewrite (drop_S _ _ _ Ea). simpl.
      destruct (body a) as [[]| |]; simpl; try done.
      rewrite IH.
      * rewrite size_t_incr_small by lia. f_equal. f_equal. lia.
      * rewrite size_t_incr_small by lia. lia.
    + rewrite drop_ge by lia. done.
Qed.

Lemma while_next_all_equal {A : Type} (l : list A)
  (next : Z → result (option (A * Z))) (body : A → result bool) (n : nat)
  (iter : Z) :
  size_t_incr iter = 0 →
  Z.of_nat (length l) < size_t_modulus →
  (∀ iter, next iter = Ret (list_cursor l iter)) →
  (length l < n)%nat →
  while_next n next iter body = all_equal body l.
Proof.
  intros Hiter Hlen Hnext Hn.
  rewrite (while_next_drop l) by (try done; rewrite Hiter; simpl; lia).
  by rewrite Hiter.
Qed.

(** ** The base-field iterator *)

Lemma upb_Array_Size_nonneg h a n : upb_Array_Size h a = Ret n → 0 ≤ n.
Proof.
  unfold upb_Array_Size. intros E. destruct (bind_Ret_inv _ _ _ E) as (x & _ & [= <-]). apply Nat2Z.is_nonneg.
Qed.

Lemma upb_Map_Size_nonneg h a n : upb_Map_Size h a = Ret n → 0 ≤ n.
Proof.
  unfold upb_Map_Size. intros E. destruct (bind_Ret_inv _ _ _ E) as (x & _ & [= <-]). apply Nat2Z.is_nonneg.
Qed.

Lemma low_bytes_0 len : low_bytes len 0 = 0.
Proof. unfold low_bytes. apply Zmod_0_l. Qed.

Lemma GetRep_container f :
  field_mode f ≠ kUpb_FieldMode_Scalar →
  _upb_MiniTableField_GetRep f = kUpb_FieldRep_8Byte.
Proof. unfold _upb_MiniTableField_GetRep. destruct (field_mode f); done. Qed.

(** One iteration of the loop, through the presence test of the spec. *)
Lemma NextBaseField_loop_unfold n h msg m i :
  NextBaseField_loop (S n) h msg m i =
  let i' := size_t_incr i in
  if i' <? upb_MiniTable_FieldCount m then
    p ← field_present_at h msg m i';
    if p : bool then
      f ← upb_MiniTable_GetFieldByIndex m i';
      v ← _upb_Message_DataPtr h msg i';
      Ret (Some (f, v, i'))
    else NextBaseField_loop n h msg m i'
  else Ret None.
Proof.
  cbn [NextBaseField_loop]. cbv zeta.
  set (i' := size_t_incr i).
  destruct (i' <? upb_MiniTable_FieldCount m); [|done].
  unfold field_present_at.
  destruct (upb_MiniTable_GetFieldByIndex m i') as [f| |]; simpl; try done.
  destruct (_upb_Message_DataPtr h msg i') as [v| |]; simpl; try done.
  unfold spec_field_present.
  destruct (upb_MiniTableField_HasPresence f).
  { destruct (upb_Message_HasBaseField h msg f) as [[]| |]; done. }
  unfold upb_MiniTableField_IsArray, upb_MiniTableField_IsMap.
  destruct (decide (field_mode f = kUpb_FieldMode_Array)) as [Ha|Ha].
  { rewrite (bool_decide_eq_true_2 _ Ha).
    unfold _upb_MiniTableField_DataIsZero.
    rewrite GetRep_container by congruence.
    destruct v as [w|s]; simpl; [|done].
    rewrite low_bytes_0. unfold container_nonempty, NULL.
    destruct (Z.eqb_spec (low_bytes 8 w) 0) as [Hz|Hz].
    - rewrite bool_decide_eq_true_2 by done. done.
    - rewrite bool_decide_eq_false_2 by done. simpl.
      destruct (upb_Array_Size h (low_bytes 8 w)) as [sz| |] eqn:Es; simpl; try done.
      apply upb_Array_Size_nonneg in Es.
      destruct (Z.eqb_spec sz 0), (Z.ltb_spec 0 sz); simpl; try done; lia. }
  rewrite (bool_decide_eq_false_2 _ Ha).
  destruct (decide (field_mode f = kUpb_FieldMode_Map)) as [Hm|Hm].
  { rewrite (bool_decide_eq_true_2 _ Hm).
    unfold _upb_MiniTableField_DataIsZero.
    rewrite GetRep_container by congruence.
    destruct v as [w|s]; simpl; [|done].
    rewrite low_bytes_0. unfold container_nonempty, NULL.
    destruct (Z.eqb_spec (low_bytes 8 w) 0) as [Hz|Hz].
    - rewrite bool_decide_eq_true_2 by done. done.
    - rewrite bool_decide_eq_false_2 by done. simpl.
      destruct (upb_Map_Size h (low_bytes 8 w)) as [sz| |] eqn:Es; simpl; try done.
      apply upb_Map_Size_nonneg in Es.
      destruct (Z.eqb_spec sz 0), (Z.ltb_spec 0 sz); simpl; try done; lia. }
  rewrite (bool_decide_eq_false_2 _ Hm).
  destruct (_upb_MiniTableField_DataIsZero f v) as [[]| |]; done.
Qed.

Lemma NextBaseField_loop_first_present h msg m :
  in_size_t (length (mt_fields m)) = true →
  ∀ (n : nat) (iter : Z),
    (length (mt_fields m) - Z.to_nat (size_t_incr iter) ≤ n)%nat →
    NextBaseField_loop n h msg m iter
    = first_present h msg m
        (seq (Z.to_nat (size_t_incr iter))
             (length (mt_fields m) - Z.to_nat (size_t_incr iter))).
Proof.
  intros Hsz%in_size_t_spec n. induction n as [|n IH]; intros iter Hn.
  - replace (length (mt_fields m) - Z.to_nat (size_t_incr iter))%nat with 0%nat by lia.
    simpl. pose proof (size_t_incr_range iter).
    unfold upb_MiniTable_FieldCount.
    destruct (Z.ltb_spec (size_t_incr iter) (Z.of_nat (length (mt_fields m)))); [lia|done].
  - rewrite NextBaseField_loop_unfold. cbv zeta.
    pose proof (size_t_incr_range iter) as Hr.
    set (i := size_t_incr iter) in *. unfold upb_MiniTable_FieldCount.
    destruct (Z.ltb_spec i (Z.of_nat (length (mt_fields m)))) as [Hlt|Hge].
    + replace (length (mt_fields m) - Z.to_nat i)%nat
        with (S (length (mt_fields m) - S (Z.to_nat i)))%nat by lia.
      simpl. rewrite Z2Nat.id by lia.
      destruct (field_present_at h msg m i) as [[]| |]; simpl; try done.
      rewrite IH; rewrite size_t_incr_small by lia.
      * replace (Z.to_nat (i + 1)) with (S (Z.to_nat i)) by lia. done.
      * lia.
    + replace (length (mt_fields m) - Z.to_nat i)%nat with 0%nat by lia. done.
Qed.

Lemma NextBaseField_first_present h msg m iter :
  in_size_t (length (mt_fields m)) = true →
  upb_Message_NextBaseField h msg m iter
  = first_present h msg m
      (seq (Z.to_nat (size_t_incr iter))
           (length (mt_fields m) - Z.to_nat (size_t_incr iter))).
Proof.
  intros Hsz. unfold upb_Message_NextBaseField.
  apply NextBaseField_loop_first_present; [done|lia].
Qed.

Lemma first_present_Some h msg m js f v i :
  first_present h msg m js = Ret (Some (f, v, i)) ↔
  ∃ js1 j js2, js = js1 ++ j :: js2 ∧ i = Z.of_nat j
    ∧ Forall (λ j', field_present_at h msg m (Z.of_nat j') = Ret false) js1
    ∧ upb_MiniTable_GetFieldByIndex m i = Ret f
    ∧ _upb_Message_DataPtr h msg i = Ret v
    ∧ spec_field_present h msg f v = Ret true.
Proof.
  induction js as [|j js IH]; simpl.
  - split; [discriminate|]. intros ([|??] & ? & ? & ? & _); discriminate.
  - destruct (field_present_at h msg m (Z.of_nat j)) as [[]| |] eqn:Ep; simpl.
    + unfold field_present_at in Ep.
      destruct (upb_MiniTable_GetFieldByIndex m (Z.of_nat j)) as [f'| |] eqn:Ef;
        simpl in *; try discriminate.
      destruct (_upb_Message_DataPtr h msg (Z.of_nat j)) as [v'| |] eqn:Ev;
        simpl in *; try discriminate.
      split.
      * intros [= -> -> <-]. exists [], j, js. repeat split; auto.
      * intros ([|j0 js1] & j' & js2 & Hjs & -> & Hall & Hf & Hv & Hp);
          simplify_eq/=.
        -- congruence.
        -- apply Forall_cons in Hall as [Hall _].
           unfold field_present_at in Hall. rewrite Ef, Ev in Hall.
           simpl in Hall. congruence.
    + rewrite IH. split.
      * intros (js1 & j' & js2 & -> & -> & Hall & Hrest).
        exists (j :: js1), j', js2. repeat split; auto; apply Hrest.
      * intros ([|j0 js1] & j' & js2 & Hjs & -> & Hall & Hf & Hv & Hp);
          simplify_eq/=.
        -- unfold field_present_at in Ep. rewrite Hf, Hv in Ep. simpl in Ep.
           congruence.
        -- apply Forall_cons in Hall as [_ Hall]. eauto 10.
    + split; [discriminate|].
      intros ([|j0 js1] & j' & js2 & Hjs & -> & Hall & Hf & Hv & Hp);
        simplify_eq/=.
      * unfold field_present_at in Ep. rewrite Hf, Hv in Ep. simpl in Ep.
        congruence.
      * apply Forall_cons in Hall as [Hall _]. congruence.
    + split; [discriminate|].
      intros ([|j0 js1] & j' & js2 & Hjs & -> & Hall & Hf & Hv & Hp);
        simplify_eq/=.
      * unfold field_present_at in Ep. rewrite Hf, Hv in Ep. simpl in Ep.
        congruence.
      * apply Forall_cons in Hall as [Hall _]. congruence.
Qed.

Lemma first_present_None h msg m js :
  first_present h msg m js = Ret None ↔
  Forall (λ j, field_present_at h msg m (Z.of_nat j) = Ret false) js.
Proof.
  induction js as [|j js IH]; simpl; [split; auto|].
  rewrite Forall_cons.
  destruct (field_present_at h msg m (Z.of_nat j)) as [[]| |] eqn:Ep; simpl.
  - unfold field_present_at in Ep.
    destruct (upb_MiniTable_GetFieldByIndex m (Z.of_nat j)) as [f'| |];
      simpl in *; try discriminate.
    destruct (_upb_Message_DataPtr h msg (Z.of_nat j)) as [v'| |];
      simpl in *; try discriminate.
    split; [discriminate|intros [? _]; discriminate].
  - rewrite IH. intuition.
  - split; [discriminate|intros [? _]; discriminate].
  - split; [discriminate|intros [? _]; discriminate].
Qed.

(** ** Lock-step comparison of base fields *)

Lemma field_present_at_Ret h msg m j b :
  field_present_at h msg m j = Ret b →
  ∃ f v, upb_MiniTable_GetFieldByIndex m j = Ret f
         ∧ _upb_Message_DataPtr h msg j = Ret v
         ∧ spec_field_present h msg f v = Ret b.
Proof.
  unfold field_present_at. intros E.
  destruct (bind_Ret_inv _ _ _ E) as (f & Ef & E1).
  destruct (bind_Ret_inv _ _ _ E1) as (v & Ev & E2). eauto.
Qed.

Lemma first_present_readable h msg m (s k : nat) :
  readable h msg m → (s + k ≤ length (mt_fields m))%nat →
  first_present h msg m (seq s k) = Ret None
  ∨ ∃ f v j, first_present h msg m (seq s k) = Ret (Some (f, v, Z.of_nat j))
             ∧ (s ≤ j)%nat.
Proof.
  intros Hr. revert s. induction k as [|k IH]; intros s Hs; simpl; [auto|].
  destruct (Hr s) as [b Eb]; [lia|]. rewrite Eb. simpl.
  destruct b.
  - apply field_present_at_Ret in Eb as (f & v & -> & -> & _). simpl.
    right. exists f, v, s. split; [done|lia].
  - destruct (IH (S s)) as [E|(f & v & j & E & Hj)]; [lia|auto|].
    right. exists f, v, j. split; [done|lia].
Qed.

Section Lockstep.
Context `{!Collaborators}.
Variable h : heap.
Variable IsEqual_rec : ptr → ptr → upb_MiniTable → result bool.

Lemma BaseFieldsAreEqual_loop_unfold n msg1 msg2 m iter1 iter2 :
  BaseFieldsAreEqual_loop h IsEqual_rec (S n) msg1 msg2 m iter1 iter2 =
  got1 ← upb_Message_NextBaseField h msg1 m iter1;
  got2 ← upb_Message_NextBaseField h msg2 m iter2;
  match got1, got2 with
  | None, None => Ret true
  | Some (f1, val1, iter1'), Some (f2, val2, iter2') =>
      if negb (iter1' =? iter2') then Ret false else
      eq ← field_value_eq h IsEqual_rec m f1
             (upb_MiniTable_GetSubMessageTable m f1) val1 val2;
      if eq : bool
      then BaseFieldsAreEqual_loop h IsEqual_rec n msg1 msg2 m iter1' iter2'
      else Ret false
  | _, _ => Ret false
  end.
Proof. reflexivity. Qed.

Lemma BaseFieldsAreEqual_loop_lockstep msg1 msg2 m :
  in_size_t (length (mt_fields m)) = true →
  readable h msg1 m → readable h msg2 m →
  ∀ (k n : nat) (iter : Z),
    (Z.to_nat (size_t_incr iter) + k = length (mt_fields m))%nat →
    (k < n)%nat →
    BaseFieldsAreEqual_loop h IsEqual_rec n msg1 msg2 m iter iter
    = lockstep h IsEqual_rec msg1 msg2 m (seq (Z.to_nat (size_t_incr iter)) k).
Proof.
  intros Hsz Hr1 Hr2 k. pose proof (proj1 (in_size_t_spec _) Hsz) as Hsz'.
  induction k as [|k IH]; intros n iter Hk Hn.
  - destruct n as [|n]; [lia|]. rewrite BaseFieldsAreEqual_loop_unfold.
    rewrite !NextBaseField_first_present by done.
    replace (length (mt_fields m) - Z.to_nat (size_t_incr iter))%nat
      with 0%nat by lia. done.
  - destruct n as [|n]; [lia|]. rewrite BaseFieldsAreEqual_loop_unfold.
    rewrite !NextBaseField_first_present by done.
    pose proof (size_t_incr_range iter) as Hrange.
    set (s := Z.to_nat (size_t_incr iter)) in *.
    replace (length (mt_fields m) - s)%nat with (S k) by lia.
    cbn [seq first_present lockstep].
    destruct (Hr1 s) as [b1 E1]; [lia|]. destruct (Hr2 s) as [b2 E2]; [lia|].
    rewrite E1, E2. cbn [mbind result_bind].
    assert (Hnext : size_t_incr (Z.of_nat s) = Z.of_nat (S s)).
    { rewrite size_t_incr_small by lia. lia. }
    destruct b1, b2.
    + apply field_present_at_Ret in E1 as (f & v1 & Ef & Ev1 & _).
      apply field_present_at_Ret in E2 as (f2 & v2 & Ef2 & Ev2 & _).
      rewrite Ef in Ef2. injection Ef2 as <-.
      rewrite Ef, Ev1, Ev2. cbn [mbind result_bind].
      rewrite Z.eqb_refl. cbn [negb].
      destruct (field_value_eq h IsEqual_rec m f _ v1 v2) as [[]| |];
        cbn [mbind result_bind]; try done.
      rewrite (IH n (Z.of_nat s)).
      * rewrite Hnext, Nat2Z.id. done.
      * rewrite Hnext, Nat2Z.id. lia.
      * lia.
    + apply field_present_at_Ret in E1 as (f & v1 & Ef & Ev1 & _).
      rewrite Ef, Ev1. cbn [mbind result_bind].
      destruct (first_present_readable h msg2 m (S s) k Hr2)
        as [->|(f2 & v2 & j & -> & Hj)]; [lia|done|].
      cbn [mbind result_bind].
      destruct (Z.eqb_spec (Z.of_nat s) (Z.of_nat j)); [lia|done].
    + apply field_present_at_Ret in E2 as (f & v2 & Ef & Ev2 & _).
      rewrite Ef, Ev2.
      destruct (first_present_readable h msg1 m (S s) k Hr1)
        as [->|(f1 & v1 & j & -> & Hj)]; [lia|done|].
      cbn [mbind result_bind].
      destruct (Z.eqb_spec (Z.of_nat j) (Z.of_nat s)); [lia|done].
    + transitivity (BaseFieldsAreEqual_loop h IsEqual_rec (S n) msg1 msg2 m
                      (Z.of_nat s) (Z.of_nat s)).
      * rewrite BaseFieldsAreEqual_loop_unfold.
        rewrite !NextBaseField_first_present by done.
        rewrite Hnext, Nat2Z.id.
        replace (length (mt_fields m) - S s)%nat with k by lia. done.
      * rewrite (IH (S n) (Z.of_nat s)).
        -- rewrite Hnext, Nat2Z.id. done.
        -- rewrite Hnext, Nat2Z.id. lia.
        -- lia.
Qed.

Lemma BaseFieldsAreEqual_lockstep msg1 msg2 m :
  in_size_t (length (mt_fields m)) = true →
  readable h msg1 m → readable h msg2 m →
  _upb_Message_BaseFieldsAreEqual h IsEqual_rec msg1 msg2 m
  = lockstep h IsEqual_rec msg1 msg2 m (seq 0 (length (mt_fields m))).
Proof.
  intros Hsz Hr1 Hr2. unfold _upb_Message_BaseFieldsAreEqual.
  rewrite (BaseFieldsAreEqual_loop_lockstep msg1 msg2 m Hsz Hr1 Hr2
             (length (mt_fields m))); [done|done|lia].
Qed.
End Lockstep.

(** ** Reads of valid objects *)

Lemma load_array_Ret h p a :
  load_array h p = Ret a ↔ p ≠ NULL ∧ h !! p = Some (ObjArray a).
Proof.
  unfold load_array, load. split.
  - case_bool_decide; [done|]. destruct (h !! p) as [[]|]; simpl; try done.
    intros [= ->]. done.
  - intros [Hp Ho]. rewrite bool_decide_eq_false_2, Ho by done. done.
Qed.

Lemma load_map_Ret h p a :
  load_map h p = Ret a ↔ p ≠ NULL ∧ h !! p = Some (ObjMap a).
Proof.
  unfold load_map, load. split.
  - case_bool_decide; [done|]. destruct (h !! p) as [[]|]; simpl; try done.
    intros [= ->]. done.
  - intros [Hp Ho]. rewrite bool_decide_eq_false_2, Ho by done. done.
Qed.

Lemma load_msg_Ret h p a :
  load_msg h p = Ret a ↔ p ≠ NULL ∧ h !! p = Some (ObjMessage a).
Proof.
  unfold load_msg, load. split.
  - case_bool_decide; [done|]. destruct (h !! p) as [[]|]; simpl; try done.
    intros [= ->]. done.
  - intros [Hp Ho]. rewrite bool_decide_eq_false_2, Ho by done. done.
Qed.

(** ** Positional comparison of two lists *)

Lemma all_equal_seq_zip {A : Type} (g : A → A → result bool)
  (body : nat → result bool) (l1 l2 : list A) (s : nat) :
  length l1 = length l2 →
  (∀ j x y, l1 !! j = Some x → l2 !! j = Some y → body (s + j)%nat = g x y) →
  all_equal body (seq s (length l1))
  = all_equal (λ xy, g xy.1 xy.2) (zip l1 l2).
Proof.
  revert l2 s. induction l1 as [|x l1 IH]; intros [|y l2] s Hlen Hb;
    simplify_eq/=; [done|].
  rewrite <- (Hb 0%nat x y) by done. rewrite Nat.add_0_r.
  destruct (body s) as [[]| |]; simpl; try done.
  apply IH; [done|]. intros j x' y' Hx Hy.
  rewrite <- (Hb (S j) x' y') by done. f_equal. lia.
Qed.

Section Containers.
Context `{!Collaborators}.
Variable h : heap.
Variable IsEqual_rec : ptr → ptr → upb_MiniTable → result bool.

(** *** Arrays *)

Lemma Array_IsEqual_same arr m f :
  _upb_Array_IsEqual h IsEqual_rec arr arr m f = Ret true.
Proof. unfold _upb_Array_IsEqual. by rewrite bool_decide_eq_true_2. Qed.

Lemma Array_IsEqual_sizes arr1 arr2 m f n1 n2 :
  arr1 ≠ arr2 →
  handle_size upb_Array_Size h arr1 = Ret n1 →
  handle_size upb_Array_Size h arr2 = Ret n2 →
  n1 ≠ n2 →
  _upb_Array_IsEqual h IsEqual_rec arr1 arr2 m f = Ret false.
Proof.
  intros Hne E1 E2 Hn. unfold _upb_Array_IsEqual.
  rewrite bool_decide_eq_false_2 by done.
  unfold handle_size in E1, E2. rewrite E1, E2. simpl.
  destruct (Z.eqb_spec n1 n2); [done|]. done.
Qed.

Lemma Array_IsEqual_elems arr1 arr2 m f a1 a2 :
  arr1 ≠ arr2 →
  load_array h arr1 = Ret a1 → load_array h arr2 = Ret a2 →
  length (arr_data a1) = length (arr_data a2) →
  _upb_Array_IsEqual h IsEqual_rec arr1 arr2 m f
  = all_equal (λ vv, array_elem_eq IsEqual_rec m f (arr_elem_size_lg2 a1)
                       vv.1 vv.2)
      (zip (arr_data a1) (arr_data a2)).
Proof.
  intros Hne E1 E2 Hlen. unfold _upb_Array_IsEqual.
  rewrite bool_decide_eq_false_2 by done.
  pose proof (proj1 (load_array_Ret _ _ _) E1) as [Hp1 _].
  pose proof (proj1 (load_array_Ret _ _ _) E2) as [Hp2 _].
  rewrite !bool_decide_eq_true_2 by done.
  unfold upb_Array_Size, _upb_Array_ElemSizeLg2. rewrite E1, E2. simpl.
  rewrite Hlen, Z.eqb_refl. simpl. rewrite Nat2Z.id, <- Hlen.
  destruct (upb_MiniTableField_IsSubMessage f) eqn:Hsub;
    [|destruct (_upb_IsStringView f) eqn:Hstr];
    rewrite (for_each_index_all_equal _ _ 0);
    apply (all_equal_seq_zip
             (array_elem_eq IsEqual_rec m f (arr_elem_size_lg2 a1)));
    try done;
    intros j x y Hx Hy; unfold upb_Array_Get, array_elem_eq;
    rewrite E1, E2, Hsub, ?Hstr; simpl;
    rewrite Nat2Z.id, Hx, Hy; done.
Qed.

(** A null first handle against an empty array: the message and string
    cases compare no element; the scalar case reads the element width
    through the null handle. *)
Lemma Array_IsEqual_null_empty arr2 m f a2 :
  load_array h arr2 = Ret a2 → arr_data a2 = [] →
  _upb_Array_IsEqual h IsEqual_rec NULL arr2 m f
  = if upb_MiniTableField_IsSubMessage f || _upb_IsStringView f
    then Ret true else Fault NullDeref.
Proof.
  intros E2 Hnil. unfold _upb_Array_IsEqual.
  pose proof (proj1 (load_array_Ret _ _ _) E2) as [Hp2 _].
  rewrite bool_decide_eq_false_2 by done.
  rewrite (bool_decide_eq_false_2 (NULL ≠ NULL)) by (intros ?; done).
  rewrite (bool_decide_eq_true_2 (arr2 ≠ NULL)) by done.
  unfold upb_Array_Size. rewrite E2. simpl. rewrite Hnil. simpl.
  destruct (upb_MiniTableField_IsSubMessage f); [done|].
  destruct (_upb_IsStringView f); done.
Qed.

Lemma Array_IsEqual_empty_null arr1 m f a1 :
  load_array h arr1 = Ret a1 → arr_data a1 = [] →
  _upb_Array_IsEqual h IsEqual_rec arr1 NULL m f = Ret true.
Proof.
  intros E1 Hnil. unfold _upb_Array_IsEqual.
  pose proof (proj1 (load_array_Ret _ _ _) E1) as [Hp1 _].
  rewrite bool_decide_eq_false_2 by done.
  rewrite (bool_decide_eq_false_2 (NULL ≠ NULL)) by (intros ?; done).
  rewrite (bool_decide_eq_true_2 (arr1 ≠ NULL)) by done.
  unfold upb_Array_Size, _upb_Array_ElemSizeLg2. rewrite E1. simpl.
  rewrite Hnil. simpl.
  destruct (upb_MiniTableField_IsSubMessage f); [done|].
  destruct (_upb_IsStringView f); done.
Qed.

(** *** Maps *)

Lemma Map_IsEqual_same map m f :
  _upb_Map_IsEqual h IsEqual_rec map map m f = Ret true.
Proof. unfold _upb_Map_IsEqual. by rewrite bool_decide_eq_true_2. Qed.

Lemma Map_IsEqual_sizes map1 map2 m f n1 n2 :
  map1 ≠ map2 →
  handle_size upb_Map_Size h map1 = Ret n1 →
  handle_size upb_Map_Size h map2 = Ret n2 →
  n1 ≠ n2 →
  _upb_Map_IsEqual h IsEqual_rec map1 map2 m f = Ret false.
Proof.
  intros Hne E1 E2 Hn. unfold _upb_Map_IsEqual.
  rewrite bool_decide_eq_false_2 by done.
  unfold handle_size in E1, E2. rewrite E1, E2. simpl.
  destruct (Z.eqb_spec n1 n2); [done|]. done.
Qed.

Lemma Map_Next_cursor map mp iter :
  load_map h map = Ret mp →
  (r ← upb_Map_Next h map iter;
   Ret (match r with
        | Some (key, val1, iter') => Some ((key, val1), iter')
        | None => None
        end))
  = Ret (list_cursor (map_entries mp) iter).
Proof.
  intros E. unfold upb_Map_Next, list_cursor. rewrite E. simpl.
  destruct (_ <? _) eqn:Hlt; [|done].
  destruct (map_entries mp !! _) as [[k v]|] eqn:El; [done|].
  apply lookup_ge_None in El. apply Z.ltb_lt in Hlt.
  pose proof (size_t_incr_range iter). lia.
Qed.

Lemma Map_IsEqual_entries map1 map2 m f mp1 mp2 :
  map1 ≠ map2 →
  load_map h map1 = Ret mp1 → load_map h map2 = Ret mp2 →
  length (map_entries mp1) = length (map_entries mp2) →
  in_size_t (length (map_entries mp1)) = true →
  _upb_Map_IsEqual h IsEqual_rec map1 map2 m f
  = all_equal (λ kv, match map_lookup kv.1 (map_entries mp2) with
                     | None => Ret false
                     | Some val2 => map_value_eq IsEqual_rec m f kv.2 val2
                     end)
      (map_entries mp1).
Proof.
  intros Hne E1 E2 Hlen Hsz%in_size_t_spec. unfold _upb_Map_IsEqual.
  rewrite bool_decide_eq_false_2 by done.
  pose proof (proj1 (load_map_Ret _ _ _) E1) as [Hp1 _].
  pose proof (proj1 (load_map_Ret _ _ _) E2) as [Hp2 _].
  rewrite !bool_decide_eq_true_2 by done.
  unfold upb_Map_Size. rewrite E1, E2. cbn [mbind result_bind].
  rewrite Hlen, Z.eqb_refl. cbn [negb]. rewrite Nat2Z.id, <- Hlen.
  unfold map_value_eq. cbv zeta.
  destruct (upb_MiniTableField_IsSubMessage _);
    [|destruct (_upb_IsStringView _)];
    (rewrite (while_next_all_equal (map_entries mp1));
     [|done|done|intros iter; by apply Map_Next_cursor|lia]);
    apply all_equal_ext, Forall_forall; intros [k v1] _;
    unfold upb_Map_Get, map_lookup; rewrite E2; simpl;
    destruct (find _ _) as [[k2 v2]|]; done.
Qed.

(** *** Extensions *)

Lemma NextExtension_cursor msg mo m iter :
  load_msg h msg = Ret mo →
  (r ← upb_Message_NextExtension h msg m iter;
   Ret (match r with
        | Some (e, val1, iter') => Some ((e, val1), iter')
        | None => None
        end))
  = Ret (list_cursor ((λ x, (ext x, data x)) <$> msg_exts mo) iter).
Proof.
  intros E. unfold upb_Message_NextExtension, _upb_Message_Getexts, list_cursor.
  rewrite E. simpl. rewrite length_fmap, list_lookup_fmap.
  destruct (_ <? _) eqn:Hlt; [|done].
  destruct (msg_exts mo !! _) as [x|] eqn:El; [done|].
  apply lookup_ge_None in El. apply Z.ltb_lt in Hlt.
  pose proof (size_t_incr_range iter). lia.
Qed.

Lemma ExtensionsAreEqual_counts msg1 msg2 m mo1 mo2 :
  load_msg h msg1 = Ret mo1 → load_msg h msg2 = Ret mo2 →
  length (msg_exts mo1) ≠ length (msg_exts mo2) →
  _upb_Message_ExtensionsAreEqual h IsEqual_rec msg1 msg2 m = Ret false.
Proof.
  intros E1 E2 Hlen. unfold _upb_Message_ExtensionsAreEqual.
  unfold upb_Message_ExtensionCount, _upb_Message_Getexts.
  rewrite E1, E2. simpl.
  destruct (Z.eqb_spec (Z.of_nat (length (msg_exts mo1)))
              (Z.of_nat (length (msg_exts mo2)))); [lia|done].
Qed.

Lemma ExtensionsAreEqual_exts msg1 msg2 m mo1 mo2 :
  load_msg h msg1 = Ret mo1 → load_msg h msg2 = Ret mo2 →
  length (msg_exts mo1) = length (msg_exts mo2) →
  in_size_t (length (msg_exts mo1)) = true →
  _upb_Message_ExtensionsAreEqual h IsEqual_rec msg1 msg2 m
  = all_equal (λ x1, match ext_lookup (ext x1) (msg_exts mo2) with
                     | None => Ret false
                     | Some x2 =>
                         field_value_eq h IsEqual_rec m (ext_field (ext x1))
                           (ext_sub (ext x1)) (data x1) (data x2)
                     end)
      (msg_exts mo1).
Proof.
  intros E1 E2 Hlen Hsz%in_size_t_spec.
  unfold _upb_Message_ExtensionsAreEqual.
  unfold upb_Message_ExtensionCount, _upb_Message_Getexts.
  rewrite E1, E2. cbn [mbind result_bind].
  rewrite Hlen, Z.eqb_refl. cbn [negb].
  rewrite Nat2Z.id, <- Hlen.
  rewrite (while_next_all_equal ((λ x, (ext x, data x)) <$> msg_exts mo1)).
  - rewrite all_equal_fmap. apply all_equal_ext, Forall_forall.
    intros x1 _. simpl. unfold _upb_Message_Getext, _upb_Message_Getexts.
    rewrite E2. simpl. unfold ext_lookup.
    destruct (find _ _) as [x2|]; done.
  - done.
  - by rewrite length_fmap.
  - intros iter. by apply NextExtension_cursor.
  - rewrite length_fmap. lia.
Qed.
End Containers.

(** ** Consequences of well-formedness *)

Lemma forallb_Forall {A : Type} (f : A → bool) (l : list A) :
  forallb f l = true ↔ Forall (λ x, f x = true) l.
Proof.
  induction l as [|x l IH]; simpl; [split; auto|].
  rewrite andb_true_iff, Forall_cons, IH. done.
Qed.

Lemma IsStringView_not_SubMessage f :
  _upb_IsStringView f = true → upb_MiniTableField_IsSubMessage f = false.
Proof.
  unfold _upb_IsStringView, upb_MiniTableField_IsSubMessage,
    upb_MiniTableField_CType.
  destruct (field_ctype f); simpl; try done.
Qed.

Section WellFormedFacts.
Context `{!Collaborators}.
Variable h : heap.
Variable wf_sub : upb_MiniTable → ptr → bool.

Lemma wf_value_message f sub v :
  upb_MiniTableField_IsSubMessage f = true →
  wf_value wf_sub f sub v = true →
  ∃ w, v = Raw w ∧ low_bytes 8 w ≠ NULL ∧ wf_sub sub (low_bytes 8 w) = true.
Proof.
  intros Hsub. unfold wf_value. rewrite Hsub. destruct v as [w|s]; [|done].
  intros [Hn Hw]%andb_true_iff. apply bool_decide_eq_true in Hn. eauto.
Qed.

Lemma wf_value_string f sub v :
  _upb_IsStringView f = true →
  wf_value wf_sub f sub v = true → ∃ s, v = Str s.
Proof.
  intros Hstr. unfold wf_value.
  rewrite (IsStringView_not_SubMessage f Hstr), Hstr.
  destruct v as [w|s]; [done|eauto].
Qed.

Lemma wf_value_scalar f sub v :
  upb_MiniTableField_IsSubMessage f = false →
  _upb_IsStringView f = false →
  wf_value wf_sub f sub v = true → ∃ w, v = Raw w.
Proof.
  intros Hsub Hstr. unfold wf_value. rewrite Hsub, Hstr.
  destruct v as [w|s]; [eauto|done].
Qed.

Lemma wf_array_inv m f a :
  wf_array h wf_sub m f a = true →
  ∃ arr, load_array h a = Ret arr
    ∧ in_size_t (length (arr_data arr)) = true
    ∧ arr_elem_size_lg2 arr = lg2_of_ctype (field_ctype f)
    ∧ Forall (λ v, wf_value wf_sub f
                     (upb_MiniTable_GetSubMessageTable m f) v = true)
        (arr_data arr).
Proof.
  unfold wf_array. intros [Hn Hw]%andb_true_iff.
  apply bool_decide_eq_true in Hn.
  destruct (h !! a) as [[arr| |]|] eqn:Ha; try done.
  apply andb_true_iff in Hw as [[Hsz Hlg]%andb_true_iff Hall].
  apply bool_decide_eq_true in Hlg. apply forallb_Forall in Hall.
  exists arr. rewrite load_array_Ret. done.
Qed.

Lemma wf_map_inv m f p :
  wf_map h wf_sub m f p = true →
  ∃ mp, load_map h p = Ret mp
    ∧ in_size_t (length (map_entries mp)) = true
    ∧ NoDup (map_entries mp).*1
    ∧ Forall (λ kv,
        wf_value wf_sub
          (upb_MiniTable_MapValue (upb_MiniTable_GetSubMessageTable m f))
          (upb_MiniTable_GetSubMessageTable
             (upb_MiniTable_GetSubMessageTable m f)
             (upb_MiniTable_MapValue (upb_MiniTable_GetSubMessageTable m f)))
          kv.2 = true)
        (map_entries mp).
Proof.
  unfold wf_map. cbv zeta. intros [Hn Hw]%andb_true_iff.
  apply bool_decide_eq_true in Hn.
  destruct (h !! p) as [[|mp|]|] eqn:Ha; try done.
  apply andb_true_iff in Hw as [[Hsz Hnd]%andb_true_iff Hall].
  apply bool_decide_eq_true in Hnd. apply forallb_Forall in Hall.
  exists mp. rewrite load_map_Ret. done.
Qed.

Lemma wf_message_inv m p :
  wf_message h wf_sub m p = true →
  ∃ mo, load_msg h p = Ret mo
    ∧ in_size_t (length (mt_fields m)) = true
    ∧ (∀ (j : nat) f, mt_fields m !! j = Some f →
         ∃ v, msg_data mo !! j = Some v ∧ wf_slot h wf_sub m mo f v = true)
    ∧ in_size_t (length (msg_exts mo)) = true
    ∧ NoDup (ext <$> msg_exts mo)
    ∧ Forall (λ x, wf_extension h wf_sub m x = true) (msg_exts mo).
Proof.
  unfold wf_message. intros [Hn Hw]%andb_true_iff.
  apply bool_decide_eq_true in Hn.
  destruct (h !! p) as [[| |mo]|] eqn:Ha; try done.
  repeat (apply andb_true_iff in Hw as [Hw ?]).
  repeat match goal with
         | H : bool_decide _ = true |- _ => apply bool_decide_eq_true in H
         | H : forallb _ _ = true |- _ => apply forallb_Forall in H
         end.
  exists mo. rewrite load_msg_Ret. repeat split; try done.
  intros j f Hf.
  destruct (msg_data mo !! j) as [v|] eqn:Hv.
  - exists v. split; [done|].
    match goal with
    | H : Forall _ (zip _ _) |- _ =>
        eapply (proj1 (Forall_forall _ _) H (f, v))
    end.
    apply list_elem_of_lookup. exists j. apply lookup_zip_Some. done.
  - apply lookup_ge_None in Hv. apply lookup_lt_Some in Hf. lia.
Qed.
End WellFormedFacts.

Lemma memcmp_eq_zero_ptr w :
  memcmp_eq 8 (Raw w) (Raw 0) = Ret (bool_decide (low_bytes 8 w = NULL)).
Proof.
  simpl. rewrite low_bytes_0. f_equal. unfold NULL.
  destruct (Z.eqb_spec (low_bytes 8 w) 0);
    [by rewrite bool_decide_eq_true_2|by rewrite bool_decide_eq_false_2].
Qed.

Section SlotFacts.
Context `{!Collaborators}.
Variable h : heap.
Variable wf_sub : upb_MiniTable → ptr → bool.

(** The presence test of a well-formed slot returns, and a present slot
    holds a value that can be compared. *)
Lemma wf_slot_present m p mo f v :
  load_msg h p = Ret mo →
  wf_slot h wf_sub m mo f v = true →
  ∃ b, spec_field_present h p f v = Ret b
       ∧ (b = true →
          wf_compared h wf_sub m f (upb_MiniTable_GetSubMessageTable m f) v
          = true).
Proof.
  intros Hload. unfold wf_slot, spec_field_present, wf_compared.
  unfold upb_MiniTableField_HasPresence, upb_MiniTableField_IsArray,
    upb_MiniTableField_IsMap.
  destruct (field_mode f) eqn:Hmode.
  - (* map *)
    intros [Hp Hv]%andb_true_iff. apply bool_decide_eq_true in Hp.
    rewrite Hp. rewrite bool_decide_eq_false_2 by (intros ?; done).
    rewrite bool_decide_eq_false_2 by done.
    rewrite bool_decide_eq_true_2 by done.
    destruct v as [w|s]; [|done]. simpl. unfold container_nonempty.
    destruct (decide (low_bytes 8 w = NULL)) as [Hnull|Hnull].
    + rewrite bool_decide_eq_true_2 by done. exists false. done.
    + rewrite bool_decide_eq_false_2 in Hv |- * by done. simpl in Hv.
      destruct (wf_map_inv h wf_sub m f _ Hv) as (mp & Emp & _).
      unfold upb_Map_Size. rewrite Emp. simpl. eauto.
  - (* array *)
    intros [Hp Hv]%andb_true_iff. apply bool_decide_eq_true in Hp.
    rewrite Hp. rewrite bool_decide_eq_false_2 by (intros ?; done).
    rewrite bool_decide_eq_true_2 by done.
    destruct v as [w|s]; [|done]. simpl. unfold container_nonempty.
    destruct (decide (low_bytes 8 w = NULL)) as [Hnull|Hnull].
    + rewrite bool_decide_eq_true_2 by done. exists false. done.
    + rewrite bool_decide_eq_false_2 in Hv |- * by done. simpl in Hv.
      destruct (wf_array_inv h wf_sub m f _ Hv) as (arr & Earr & _).
      unfold upb_Array_Size. rewrite Earr. simpl. eauto.
  - (* singular *)
    intros [Hk Hv]%andb_true_iff.
    rewrite !(bool_decide_eq_false_2 (kUpb_FieldMode_Scalar = _)) by done.
    destruct (field_presence f) as [k|] eqn:Hpres.
    + rewrite bool_decide_eq_true_2 by done.
      apply bool_decide_eq_true in Hk.
      unfold upb_Message_HasBaseField. rewrite Hload, Hpres. simpl.
      destruct (msg_hasbits mo !! k) as [b|] eqn:Hb.
      2:{ apply lookup_ge_None in Hb. lia. }
      exists b. split; [done|]. intros ->.
      destruct (upb_MiniTableField_IsSubMessage f) eqn:Hsub; [|done].
      destruct v as [w|s]; [|done]. unfold wf_value. rewrite Hsub.
      case_bool_decide as Hnull.
      * apply bool_decide_eq_true in Hv. congruence.
      * rewrite bool_decide_eq_true_2 by done. done.
    + rewrite bool_decide_eq_false_2 by (intros ?; done).
      destruct (upb_MiniTableField_IsSubMessage f) eqn:Hsub.
      * destruct v as [w|s]; [|done].
        unfold _upb_MiniTableField_DataIsZero, _upb_MiniTableField_GetRep.
        rewrite Hmode.
        unfold upb_MiniTableField_IsSubMessage in Hsub.
        apply bool_decide_eq_true in Hsub. rewrite Hsub.
        rewrite memcmp_eq_zero_ptr. simpl.
        eexists. split; [done|]. unfold wf_value.
        unfold upb_MiniTableField_IsSubMessage. rewrite Hsub. simpl.
        case_bool_decide as Hnull; [done|]. intros _.
        rewrite bool_decide_eq_true_2 by done. done.
      * assert (∃ b, _upb_MiniTableField_DataIsZero f v = Ret b) as [b ->].
        { unfold _upb_MiniTableField_DataIsZero, _upb_MiniTableField_GetRep.
          rewrite Hmode. unfold wf_value in Hv. rewrite Hsub in Hv.
          unfold _upb_IsStringView, upb_MiniTableField_CType in Hv.
          destruct v as [w|s], (field_ctype f); simpl in *;
            try done; eauto. }
        simpl. eauto.
Qed.

Lemma wf_message_readable m p :
  wf_message h wf_sub m p = true → readable h p m.
Proof.
  intros (mo & Hload & Hsz & Hslots & _)%wf_message_inv j Hj.
  destruct (mt_fields m !! j) as [f|] eqn:Hf.
  2:{ apply lookup_ge_None in Hf. lia. }
  destruct (Hslots j f Hf) as (v & Hv & Hslot).
  destruct (wf_slot_present m p mo f v Hload Hslot) as (b & Hb & _).
  exists b. unfold field_present_at, upb_MiniTable_GetFieldByIndex,
    _upb_Message_DataPtr.
  rewrite Nat2Z.id, Hf, Hload. simpl. rewrite Hv. done.
Qed.

(** A present field of a well-formed message holds a comparable value. *)
Lemma wf_message_present m p (j : nat) :
  wf_message h wf_sub m p = true →
  field_present_at h p m (Z.of_nat j) = Ret true →
  ∃ f v, upb_MiniTable_GetFieldByIndex m (Z.of_nat j) = Ret f
    ∧ _upb_Message_DataPtr h p (Z.of_nat j) = Ret v
    ∧ wf_compared h wf_sub m f (upb_MiniTable_GetSubMessageTable m f) v
      = true.
Proof.
  intros (mo & Hload & Hsz & Hslots & _)%wf_message_inv Hp.
  apply field_present_at_Ret in Hp as (f & v & Hf & Hv & Hp).
  exists f, v. repeat split; try done.
  unfold upb_MiniTable_GetFieldByIndex in Hf. rewrite Nat2Z.id in Hf.
  destruct (mt_fields m !! j) as [f'|] eqn:Hf'; [|done].
  injection Hf as ->.
  destruct (Hslots j f Hf') as (v' & Hv' & Hslot).
  unfold _upb_Message_DataPtr in Hv. rewrite Hload, Nat2Z.id in Hv.
  simpl in Hv. rewrite Hv' in Hv. injection Hv as ->.
  destruct (wf_slot_present m p mo f v Hload Hslot) as (b & Hb & Hc).
  rewrite Hp in Hb. injection Hb as <-. auto.
Qed.
End SlotFacts.

(** ** Termination without faults on well-formed heaps *)

Lemma find_Some_elem {A : Type} (P : A → bool) (l : list A) (x : A) :
  find P l = Some x → x ∈ l ∧ P x = true.
Proof.
  induction l as [|y l IH]; simpl; [done|].
  destruct (P y) eqn:Hy.
  - intros [= ->]. split; [left|done].
  - intros [Hx HP]%IH. split; [by right|done].
Qed.

Lemma map_lookup_Some key entries v :
  map_lookup key entries = Some v → (key, v) ∈ entries.
Proof.
  unfold map_lookup. destruct (find _ _) as [[k v']|] eqn:Hf; [|done].
  intros [= <-]. apply find_Some_elem in Hf as [Hin Hk].
  apply bool_decide_eq_true in Hk. simpl in Hk. by subst.
Qed.

Lemma ext_lookup_Some e exts x :
  ext_lookup e exts = Some x → x ∈ exts ∧ ext x = e.
Proof.
  unfold ext_lookup. intros [Hin Hk]%find_Some_elem.
  apply bool_decide_eq_true in Hk. done.
Qed.

Section Totality.
Context `{!Collaborators}.
Variable h : heap.
Variable wf_sub : upb_MiniTable → ptr → bool.
Variable IsEqual_rec : ptr → ptr → upb_MiniTable → result bool.
Hypothesis Hrec : ∀ sub p1 p2,
  wf_sub sub p1 = true → wf_sub sub p2 = true →
  ∃ b, IsEqual_rec p1 p2 sub = Ret b.

Lemma DataEquals_total f sub v1 v2 :
  upb_MiniTableField_IsSubMessage f = false →
  _upb_IsStringView f = false ∨ field_mode f = kUpb_FieldMode_Scalar →
  wf_value wf_sub f sub v1 = true → wf_value wf_sub f sub v2 = true →
  ∃ b, _upb_MiniTableField_DataEquals f v1 v2 = Ret b.
Proof.
  intros Hsub Hcase. unfold wf_value. rewrite Hsub.
  unfold _upb_MiniTableField_DataEquals, _upb_MiniTableField_GetRep.
  unfold _upb_IsStringView, upb_MiniTableField_CType in *.
  destruct Hcase as [Hstr|Hmode].
  - rewrite Hstr. destruct v1, v2; try done. intros _ _.
    destruct (field_mode f), (field_ctype f); simpl in *; try done; eauto.
  - rewrite Hmode.
    destruct v1, v2, (field_ctype f); simpl in *; try done; eauto.
Qed.

Lemma array_elem_eq_total m f lg2 v1 v2 :
  wf_value wf_sub f (upb_MiniTable_GetSubMessageTable m f) v1 = true →
  wf_value wf_sub f (upb_MiniTable_GetSubMessageTable m f) v2 = true →
  ∃ b, array_elem_eq IsEqual_rec m f lg2 v1 v2 = Ret b.
Proof.
  intros H1 H2. unfold array_elem_eq.
  destruct (upb_MiniTableField_IsSubMessage f) eqn:Hsub.
  - apply wf_value_message in H1 as (w1 & -> & _ & Hw1); [|done].
    apply wf_value_message in H2 as (w2 & -> & _ & Hw2); [|done].
    simpl. by apply Hrec.
  - destruct (_upb_IsStringView f) eqn:Hstr.
    + apply wf_value_string in H1 as (s1 & ->); [|done].
      apply wf_value_string in H2 as (s2 & ->); [|done].
      simpl. eauto.
    + apply wf_value_scalar in H1 as (w1 & ->); [|done..].
      apply wf_value_scalar in H2 as (w2 & ->); [|done..].
      simpl. eauto.
Qed.

Lemma map_value_eq_total m f v1 v2 :
  let m2 := upb_MiniTable_GetSubMessageTable m f in
  let f2 := upb_MiniTable_MapValue m2 in
  let m3 := upb_MiniTable_GetSubMessageTable m2 f2 in
  wf_value wf_sub f2 m3 v1 = true → wf_value wf_sub f2 m3 v2 = true →
  ∃ b, map_value_eq IsEqual_rec m f v1 v2 = Ret b.
Proof.
  intros m2 f2 m3 H1 H2. unfold map_value_eq. fold m2 f2 m3.
  destruct (upb_MiniTableField_IsSubMessage f2) eqn:Hsub.
  - apply wf_value_message in H1 as (w1 & -> & _ & Hw1); [|done].
    apply wf_value_message in H2 as (w2 & -> & _ & Hw2); [|done].
    simpl. by apply Hrec.
  - destruct (_upb_IsStringView f2) eqn:Hstr.
    + apply wf_value_string in H1 as (s1 & ->); [|done].
      apply wf_value_string in H2 as (s2 & ->); [|done].
      simpl. eauto.
    + eapply DataEquals_total; eauto.
Qed.

Lemma Array_IsEqual_total m f a1 a2 :
  wf_array h wf_sub m f a1 = true → wf_array h wf_sub m f a2 = true →
  ∃ b, _upb_Array_IsEqual h IsEqual_rec a1 a2 m f = Ret b.
Proof.
  intros (arr1 & E1 & Hsz1 & Hlg1 & Hall1)%wf_array_inv
         (arr2 & E2 & Hsz2 & Hlg2 & Hall2)%wf_array_inv.
  destruct (decide (a1 = a2)) as [->|Hne].
  { rewrite Array_IsEqual_same. eauto. }
  pose proof (proj1 (load_array_Ret _ _ _) E1) as [Hp1 _].
  pose proof (proj1 (load_array_Ret _ _ _) E2) as [Hp2 _].
  destruct (decide (length (arr_data arr1) = length (arr_data arr2)))
    as [Hlen|Hlen].
  - rewrite (Array_IsEqual_elems h _ a1 a2 m f arr1 arr2) by done.
    apply all_equal_total, Forall_forall. intros [v1 v2] Hin. simpl.
    apply array_elem_eq_total.
    + eapply (proj1 (Forall_forall _ _) Hall1), elem_of_zip_l, Hin.
    + eapply (proj1 (Forall_forall _ _) Hall2), elem_of_zip_r, Hin.
  - exists false.
    eapply (Array_IsEqual_sizes h _ a1 a2 m f
              (Z.of_nat (length (arr_data arr1)))
              (Z.of_nat (length (arr_data arr2)))); try done.
    + unfold handle_size, upb_Array_Size.
      rewrite bool_decide_eq_true_2, E1 by done. done.
    + unfold handle_size, upb_Array_Size.
      rewrite bool_decide_eq_true_2, E2 by done. done.
    + lia.
Qed.

Lemma Map_IsEqual_total m f p1 p2 :
  wf_map h wf_sub m f p1 = true → wf_map h wf_sub m f p2 = true →
  ∃ b, _upb_Map_IsEqual h IsEqual_rec p1 p2 m f = Ret b.
Proof.
  intros (mp1 & E1 & Hsz1 & Hnd1 & Hall1)%wf_map_inv
         (mp2 & E2 & Hsz2 & Hnd2 & Hall2)%wf_map_inv.
  destruct (decide (p1 = p2)) as [->|Hne].
  { rewrite Map_IsEqual_same. eauto. }
  pose proof (proj1 (load_map_Ret _ _ _) E1) as [Hp1 _].
  pose proof (proj1 (load_map_Ret _ _ _) E2) as [Hp2 _].
  destruct (decide (length (map_entries mp1) = length (map_entries mp2)))
    as [Hlen|Hlen].
  - rewrite (Map_IsEqual_entries h _ p1 p2 m f mp1 mp2) by done.
    apply all_equal_total, Forall_forall. intros [k v1] Hin. simpl.
    destruct (map_lookup k (map_entries mp2)) as [v2|] eqn:Hl; [|eauto].
    apply map_lookup_Some in Hl.
    apply map_value_eq_total.
    + apply (proj1 (Forall_forall _ _) Hall1 _ Hin).
    + apply (proj1 (Forall_forall _ _) Hall2 _ Hl).
  - exists false.
    eapply (Map_IsEqual_sizes h _ p1 p2 m f
              (Z.of_nat (length (map_entries mp1)))
              (Z.of_nat (length (map_entries mp2)))); try done.
    + unfold handle_size, upb_Map_Size.
      rewrite bool_decide_eq_true_2, E1 by done. done.
    + unfold handle_size, upb_Map_Size.
      rewrite bool_decide_eq_true_2, E2 by done. done.
    + lia.
Qed.

Lemma field_value_eq_total m f sub v1 v2 :
  wf_compared h wf_sub m f sub v1 = true →
  wf_compared h wf_sub m f sub v2 = true →
  ∃ b, field_value_eq h IsEqual_rec m f sub v1 v2 = Ret b.
Proof.
  unfold wf_compared, field_value_eq.
  unfold upb_MiniTableField_IsArray, upb_MiniTableField_IsMap.
  destruct (field_mode f) eqn:Hmode.
  - rewrite bool_decide_eq_false_2 by done.
    rewrite bool_decide_eq_true_2 by done.
    destruct v1 as [w1|], v2 as [w2|]; try done. simpl.
    apply Map_IsEqual_total.
  - rewrite bool_decide_eq_true_2 by done.
    destruct v1 as [w1|], v2 as [w2|]; try done. simpl.
    apply Array_IsEqual_total.
  - rewrite !bool_decide_eq_false_2 by done. intros H1 H2.
    destruct (upb_MiniTableField_IsSubMessage f) eqn:Hsub.
    + apply wf_value_message in H1 as (w1 & -> & _ & Hw1); [|done].
      apply wf_value_message in H2 as (w2 & -> & _ & Hw2); [|done].
      simpl. by apply Hrec.
    + eapply DataEquals_total; eauto.
Qed.

Lemma lockstep_total m p1 p2 js :
  wf_message h wf_sub m p1 = true → wf_message h wf_sub m p2 = true →
  Forall (λ j : nat, (j < length (mt_fields m))%nat) js →
  ∃ b, lockstep h IsEqual_rec p1 p2 m js = Ret b.
Proof.
  intros Hwf1 Hwf2. induction 1 as [|j js Hj _ IH]; simpl; [eauto|].
  destruct (wf_message_readable h wf_sub m p1 Hwf1 j Hj) as [b1 E1].
  destruct (wf_message_readable h wf_sub m p2 Hwf2 j Hj) as [b2 E2].
  rewrite E1, E2. simpl. destruct b1, b2; eauto.
  destruct (wf_message_present h wf_sub m p1 j Hwf1 E1)
    as (f & v1 & Hf & Hv1 & Hc1).
  destruct (wf_message_present h wf_sub m p2 j Hwf2 E2)
    as (f' & v2 & Hf' & Hv2 & Hc2).
  rewrite Hf in Hf'. injection Hf' as <-.
  rewrite Hf, Hv1, Hv2. simpl.
  destruct (field_value_eq_total m f _ v1 v2 Hc1 Hc2) as [b ->].
  simpl. destruct b; eauto.
Qed.

Lemma BaseFieldsAreEqual_total m p1 p2 :
  wf_message h wf_sub m p1 = true → wf_message h wf_sub m p2 = true →
  ∃ b, _upb_Message_BaseFieldsAreEqual h IsEqual_rec p1 p2 m = Ret b.
Proof.
  intros Hwf1 Hwf2.
  pose proof (wf_message_inv h wf_sub m p1 Hwf1) as (mo & _ & Hsz & _).
  rewrite BaseFieldsAreEqual_lockstep;
    eauto using wf_message_readable.
  apply lockstep_total; try done.
  apply Forall_forall. intros j Hj%elem_of_seq. lia.
Qed.

Lemma ExtensionsAreEqual_total m p1 p2 :
  wf_message h wf_sub m p1 = true → wf_message h wf_sub m p2 = true →
  ∃ b, _upb_Message_ExtensionsAreEqual h IsEqual_rec p1 p2 m = Ret b.
Proof.
  intros (mo1 & E1 & _ & _ & Hsz1 & Hnd1 & Hall1)%wf_message_inv
         (mo2 & E2 & _ & _ & Hsz2 & Hnd2 & Hall2)%wf_message_inv.
  destruct (decide (length (msg_exts mo1) = length (msg_exts mo2)))
    as [Hlen|Hlen].
  - rewrite (ExtensionsAreEqual_exts h _ p1 p2 m mo1 mo2) by done.
    apply all_equal_total, Forall_forall. intros x1 Hin.
    destruct (ext_lookup (ext x1) (msg_exts mo2)) as [x2|] eqn:Hl; [|eauto].
    apply ext_lookup_Some in Hl as [Hin2 Hext].
    apply field_value_eq_total.
    + apply (proj1 (Forall_forall _ _) Hall1 _ Hin).
    + pose proof (proj1 (Forall_forall _ _) Hall2 _ Hin2) as Hx2.
      unfold wf_extension in Hx2. by rewrite Hext in Hx2.
  - exists false. by eapply ExtensionsAreEqual_counts.
Qed.

Lemma IsEqual_body_total m p1 p2 :
  wf_message h wf_sub m p1 = true → wf_message h wf_sub m p2 = true →
  ∃ b, IsEqual_body h IsEqual_rec p1 p2 m = Ret b.
Proof.
  intros Hwf1 Hwf2. unfold IsEqual_body.
  case_bool_decide; [eauto|].
  destruct (BaseFieldsAreEqual_total m p1 p2 Hwf1 Hwf2) as [b ->].
  simpl. destruct b; simpl; [|eauto].
  destruct (ExtensionsAreEqual_total m p1 p2 Hwf1 Hwf2) as [b ->].
  simpl. destruct b; simpl; [|eauto].
  apply wf_message_inv in Hwf1 as (mo1 & E1 & _).
  apply wf_message_inv in Hwf2 as (mo2 & E2 & _).
  unfold upb_Message_GetUnknown. rewrite E1, E2. simpl. eauto.
Qed.
End Totality.

(** On a heap that is well formed down to depth [d], fuel [d] is enough. *)
Lemma IsEqual_total `{!Collaborators} (d : nat) (h : heap) (m : upb_MiniTable)
  (p1 p2 : ptr) :
  wf_msg d h m p1 = true → wf_msg d h m p2 = true →
  ∃ b, upb_Message_IsEqual d h p1 p2 m = Ret b.
Proof.
  revert m p1 p2. induction d as [|d IH]; intros m p1 p2; simpl; [done|].
  apply IsEqual_body_total. intros sub q1 q2. apply IH.
Qed.

(** ** Lookup directed comparison is symmetric on lists of unique keys *)

Lemma all_equal_forallb {A : Type} (body : A → result bool) (bb : A → bool)
  (l : list A) :
  Forall (λ a, body a = Ret (bb a)) l → all_equal body l = Ret (forallb bb l).
Proof.
  induction 1 as [|a l E _ IH]; simpl; [done|]. rewrite E. simpl.
  destruct (bb a); [done|done].
Qed.

Section Assoc.
Context {A K : Type} `{EqDecision K} (key : A → K).

Lemma assoc_find_Some k l y :
  assoc_find key k l = Some y → y ∈ l ∧ key y = k.
Proof.
  unfold assoc_find. intros [Hin Hk]%find_Some_elem.
  apply bool_decide_eq_true in Hk. done.
Qed.

Lemma assoc_find_NoDup l x :
  NoDup (key <$> l) → x ∈ l → assoc_find key (key x) l = Some x.
Proof.
  unfold assoc_find. induction l as [|y l IH]; csimpl.
  - intros _ Hx. by apply elem_of_nil in Hx.
  - intros [Hy Hnd]%NoDup_cons [->|Hx]%elem_of_cons.
    + by rewrite bool_decide_eq_true_2.
    + rewrite bool_decide_eq_false_2; [by apply IH|].
      intros Heq. apply Hy. rewrite Heq. by apply list_elem_of_fmap_2.
Qed.

Lemma assoc_all_flip (e : A → A → bool) l1 l2 :
  NoDup (key <$> l1) → NoDup (key <$> l2) → length l1 = length l2 →
  (∀ x y, x ∈ l1 → y ∈ l2 → key x = key y → e x y = e y x) →
  assoc_all key e l1 l2 = true → assoc_all key e l2 l1 = true.
Proof.
  intros Hnd1 Hnd2 Hlen Hsym. unfold assoc_all. rewrite !forallb_Forall.
  rewrite !Forall_forall. intros H12 y Hy.
  assert (Hsub : key <$> l1 ⊆+ key <$> l2).
  { apply NoDup_submseteq; [done|]. intros k (x & -> & Hx)%list_elem_of_fmap.
    specialize (H12 x Hx).
    destruct (assoc_find key (key x) l2) as [y'|] eqn:Hf; [|done].
    apply assoc_find_Some in Hf as [Hy' <-]. by apply list_elem_of_fmap_2. }
  apply submseteq_length_Permutation in Hsub.
  2:{ rewrite !length_fmap. lia. }
  assert (key y ∈ key <$> l1) as (x & Hk & Hx)%list_elem_of_fmap.
  { rewrite Hsub. by apply list_elem_of_fmap_2. }
  rewrite Hk, (assoc_find_NoDup l1 x) by done.
  specialize (H12 x Hx). rewrite <- Hk, (assoc_find_NoDup l2 y) in H12 by done.
  rewrite <- Hsym by done. done.
Qed.

Lemma assoc_all_sym (e : A → A → bool) l1 l2 :
  NoDup (key <$> l1) → NoDup (key <$> l2) → length l1 = length l2 →
  (∀ x y, x ∈ l1 → y ∈ l2 → key x = key y → e x y = e y x) →
  assoc_all key e l1 l2 = assoc_all key e l2 l1.
Proof.
  intros Hnd1 Hnd2 Hlen Hsym.
  destruct (assoc_all key e l1 l2) eqn:H12, (assoc_all key e l2 l1) eqn:H21;
    try done.
  - rewrite (assoc_all_flip e l1 l2) in H21; done.
  - rewrite (assoc_all_flip e l2 l1) in H12; try done.
    intros x y Hx Hy Hk. symmetry. by apply Hsym.
Qed.

Lemma all_equal_assoc (E : A → A → result bool) (e : A → A → bool) l1 l2 :
  (∀ x y, x ∈ l1 → y ∈ l2 → key x = key y → E x y = Ret (e x y)) →
  all_equal (λ x, match assoc_find key (key x) l2 with
                  | None => Ret false
                  | Some y => E x y
                  end) l1
  = Ret (assoc_all key e l1 l2).
Proof.
  intros HE. apply all_equal_forallb, Forall_forall. intros x Hx.
  destruct (assoc_find key (key x) l2) as [y|] eqn:Hf; [|done].
  apply assoc_find_Some in Hf as [Hy Hk]. by apply HE.
Qed.

(** The comparison that walks [l1] and looks every entry up in [l2] gives
    the result of the comparison that walks [l2] and looks up in [l1]. *)
Lemma all_equal_assoc_sym (E : A → A → result bool) l1 l2 :
  NoDup (key <$> l1) → NoDup (key <$> l2) → length l1 = length l2 →
  (∀ x y, x ∈ l1 → y ∈ l2 → key x = key y → ∃ b, E x y = Ret b) →
  (∀ x y, x ∈ l1 → y ∈ l2 → key x = key y → E x y = E y x) →
  all_equal (λ x, match assoc_find key (key x) l2 with
                  | None => Ret false
                  | Some y => E x y
                  end) l1
  = all_equal (λ y, match assoc_find key (key y) l1 with
                    | None => Ret false
                    | Some x => E y x
                    end) l2.
Proof.
  intros Hnd1 Hnd2 Hlen Htot Hsym.
  set (e := λ x y, match E x y with Ret b => b | _ => false end).
  rewrite (all_equal_assoc E e l1 l2).
  2:{ intros x y Hx Hy Hk. unfold e.
      destruct (Htot x y Hx Hy Hk) as [b ->]. done. }
  rewrite (all_equal_assoc E e l2 l1).
  2:{ intros y x Hy Hx Hk. unfold e.
      rewrite <- (Hsym x y) by done.
      destruct (Htot x y Hx Hy) as [b ->]; done. }
  f_equal. apply assoc_all_sym; try done.
  intros x y Hx Hy Hk. unfold e. by rewrite Hsym.
Qed.
End Assoc.

Lemma all_equal_zip_flip {A : Type} (g g' : A → A → result bool)
  (l1 l2 : list A) :
  Forall (λ xy, g xy.1 xy.2 = g' xy.2 xy.1) (zip l1 l2) →
  all_equal (λ xy, g xy.1 xy.2) (zip l1 l2)
  = all_equal (λ yx, g' yx.1 yx.2) (zip l2 l1).
Proof.
  revert l2. induction l1 as [|x l1 IH]; intros [|y l2]; simpl; try done.
  intros [E Hall]%Forall_cons. simpl in E. rewrite E.
  destruct (g' y x) as [[]| |]; simpl; try done. by apply IH.
Qed.

(** ** Symmetry on well-formed heaps *)

Lemma memcmp_eq_sym len a b : memcmp_eq len a b = memcmp_eq len b a.
Proof. destruct a, b; simpl; try done. by rewrite Z.eqb_sym. Qed.

Lemma upb_StringView_IsEqual_sym a b :
  upb_StringView_IsEqual a b = upb_StringView_IsEqual b a.
Proof. unfold upb_StringView_IsEqual. apply bool_decide_ext. split; done. Qed.

Lemma DataEquals_sym f a b :
  _upb_MiniTableField_DataEquals f a b = _upb_MiniTableField_DataEquals f b a.
Proof.
  unfold _upb_MiniTableField_DataEquals.
  destruct (_upb_MiniTableField_GetRep f); try apply memcmp_eq_sym.
  destruct a, b; simpl; try done. by rewrite upb_StringView_IsEqual_sym.
Qed.

Section Symmetry.
Context `{!Collaborators}.
Variable h : heap.
Variable wf_sub : upb_MiniTable → ptr → bool.
Variable IsEqual_rec : ptr → ptr → upb_MiniTable → result bool.
Hypothesis Hrec : ∀ sub p1 p2,
  wf_sub sub p1 = true → wf_sub sub p2 = true →
  ∃ b, IsEqual_rec p1 p2 sub = Ret b.
Hypothesis Hsym : ∀ sub p1 p2,
  wf_sub sub p1 = true → wf_sub sub p2 = true →
  IsEqual_rec p1 p2 sub = IsEqual_rec p2 p1 sub.

Lemma array_elem_eq_sym m f lg2 v1 v2 :
  wf_value wf_sub f (upb_MiniTable_GetSubMessageTable m f) v1 = true →
  wf_value wf_sub f (upb_MiniTable_GetSubMessageTable m f) v2 = true →
  array_elem_eq IsEqual_rec m f lg2 v1 v2
  = array_elem_eq IsEqual_rec m f lg2 v2 v1.
Proof.
  intros H1 H2. unfold array_elem_eq.
  destruct (upb_MiniTableField_IsSubMessage f) eqn:Hsub.
  - apply wf_value_message in H1 as (w1 & -> & _ & Hw1); [|done].
    apply wf_value_message in H2 as (w2 & -> & _ & Hw2); [|done].
    simpl. by apply Hsym.
  - destruct (_upb_IsStringView f) eqn:Hstr.
    + apply wf_value_string in H1 as (s1 & ->); [|done].
      apply wf_value_string in H2 as (s2 & ->); [|done].
      simpl. by rewrite upb_StringView_IsEqual_sym.
    + apply memcmp_eq_sym.
Qed.

Lemma map_value_eq_sym m f v1 v2 :
  let m2 := upb_MiniTable_GetSubMessageTable m f in
  let f2 := upb_MiniTable_MapValue m2 in
  let m3 := upb_MiniTable_GetSubMessageTable m2 f2 in
  wf_value wf_sub f2 m3 v1 = true → wf_value wf_sub f2 m3 v2 = true →
  map_value_eq IsEqual_rec m f v1 v2 = map_value_eq IsEqual_rec m f v2 v1.
Proof.
  intros m2 f2 m3 H1 H2. unfold map_value_eq. fold m2 f2 m3.
  destruct (upb_MiniTableField_IsSubMessage f2) eqn:Hsub.
  - apply wf_value_message in H1 as (w1 & -> & _ & Hw1); [|done].
    apply wf_value_message in H2 as (w2 & -> & _ & Hw2); [|done].
    simpl. by apply Hsym.
  - destruct (_upb_IsStringView f2) eqn:Hstr.
    + apply wf_value_string in H1 as (s1 & ->); [|done].
      apply wf_value_string in H2 as (s2 & ->); [|done].
      simpl. by rewrite upb_StringView_IsEqual_sym.
    + apply DataEquals_sym.
Qed.

Lemma Array_IsEqual_sym m f a1 a2 :
  wf_array h wf_sub m f a1 = true → wf_array h wf_sub m f a2 = true →
  _upb_Array_IsEqual h IsEqual_rec a1 a2 m f
  = _upb_Array_IsEqual h IsEqual_rec a2 a1 m f.
Proof.
  intros (arr1 & E1 & Hsz1 & Hlg1 & Hall1)%wf_array_inv
         (arr2 & E2 & Hsz2 & Hlg2 & Hall2)%wf_array_inv.
  destruct (decide (a1 = a2)) as [->|Hne]; [done|].
  pose proof (proj1 (load_array_Ret _ _ _) E1) as [Hp1 _].
  pose proof (proj1 (load_array_Ret _ _ _) E2) as [Hp2 _].
  assert (Hs1 : handle_size upb_Array_Size h a1
                = Ret (Z.of_nat (length (arr_data arr1)))).
  { unfold handle_size, upb_Array_Size.
    rewrite bool_decide_eq_true_2, E1 by done. done. }
  assert (Hs2 : handle_size upb_Array_Size h a2
                = Ret (Z.of_nat (length (arr_data arr2)))).
  { unfold handle_size, upb_Array_Size.
    rewrite bool_decide_eq_true_2, E2 by done. done. }
  destruct (decide (length (arr_data arr1) = length (arr_data arr2)))
    as [Hlen|Hlen].
  - rewrite (Array_IsEqual_elems h _ a1 a2 m f arr1 arr2) by done.
    rewrite (Array_IsEqual_elems h _ a2 a1 m f arr2 arr1) by done.
    rewrite Hlg1, Hlg2.
    apply (all_equal_zip_flip
             (array_elem_eq IsEqual_rec m f (lg2_of_ctype (field_ctype f)))
             (array_elem_eq IsEqual_rec m f (lg2_of_ctype (field_ctype f)))).
    apply Forall_forall. intros [v1 v2] Hin. simpl.
    apply array_elem_eq_sym.
    + eapply (proj1 (Forall_forall _ _) Hall1), elem_of_zip_l, Hin.
    + eapply (proj1 (Forall_forall _ _) Hall2), elem_of_zip_r, Hin.
  - rewrite (Array_IsEqual_sizes h _ a1 a2 m f _ _ Hne Hs1 Hs2) by lia.
    rewrite (Array_IsEqual_sizes h _ a2 a1 m f _ _ (not_eq_sym Hne) Hs2 Hs1)
      by lia.
    done.
Qed.

Lemma Map_IsEqual_sym m f p1 p2 :
  wf_map h wf_sub m f p1 = true → wf_map h wf_sub m f p2 = true →
  _upb_Map_IsEqual h IsEqual_rec p1 p2 m f
  = _upb_Map_IsEqual h IsEqual_rec p2 p1 m f.
Proof.
  intros (mp1 & E1 & Hsz1 & Hnd1 & Hall1)%wf_map_inv
         (mp2 & E2 & Hsz2 & Hnd2 & Hall2)%wf_map_inv.
  destruct (decide (p1 = p2)) as [->|Hne]; [done|].
  pose proof (proj1 (load_map_Ret _ _ _) E1) as [Hp1 _].
  pose proof (proj1 (load_map_Ret _ _ _) E2) as [Hp2 _].
  assert (Hs1 : handle_size upb_Map_Size h p1
                = Ret (Z.of_nat (length (map_entries mp1)))).
  { unfold handle_size, upb_Map_Size.
    rewrite bool_decide_eq_true_2, E1 by done. done. }
  assert (Hs2 : handle_size upb_Map_Size h p2
                = Ret (Z.of_nat (length (map_entries mp2)))).
  { unfold handle_size, upb_Map_Size.
    rewrite bool_decide_eq_true_2, E2 by done. done. }
  destruct (decide (length (map_entries mp1) = length (map_entries mp2)))
    as [Hlen|Hlen].
  - rewrite (Map_IsEqual_entries h _ p1 p2 m f mp1 mp2) by done.
    rewrite (Map_IsEqual_entries h _ p2 p1 m f mp2 mp1) by done.
    set (E := λ kv1 kv2 : upb_MessageValue * upb_MessageValue,
                map_value_eq IsEqual_rec m f kv1.2 kv2.2).
    transitivity
      (all_equal (λ x, match assoc_find fst (fst x) (map_entries mp2) with
                       | None => Ret false
                       | Some y => E x y
                       end) (map_entries mp1)).
    { apply all_equal_ext, Forall_forall. intros [k v1] _.
      unfold map_lookup, assoc_find. simpl.
      destruct (find _ _) as [[k2 v2]|]; done. }
    rewrite (all_equal_assoc_sym fst E).
    + apply all_equal_ext, Forall_forall. intros [k v2] _.
      unfold map_lookup, assoc_find. simpl.
      destruct (find _ _) as [[k1 v1]|]; done.
    + done.
    + done.
    + done.
    + intros x y Hx Hy _. apply map_value_eq_total with (wf_sub := wf_sub).
      * done.
      * apply (proj1 (Forall_forall _ _) Hall1 _ Hx).
      * apply (proj1 (Forall_forall _ _) Hall2 _ Hy).
    + intros x y Hx Hy _. unfold E. apply map_value_eq_sym.
      * apply (proj1 (Forall_forall _ _) Hall1 _ Hx).
      * apply (proj1 (Forall_forall _ _) Hall2 _ Hy).
  - rewrite (Map_IsEqual_sizes h _ p1 p2 m f _ _ Hne Hs1 Hs2) by lia.
    rewrite (Map_IsEqual_sizes h _ p2 p1 m f _ _ (not_eq_sym Hne) Hs2 Hs1)
      by lia.
    done.
Qed.

Lemma field_value_eq_sym m f sub v1 v2 :
  wf_compared h wf_sub m f sub v1 = true →
  wf_compared h wf_sub m f sub v2 = true →
  field_value_eq h IsEqual_rec m f sub v1 v2
  = field_value_eq h IsEqual_rec m f sub v2 v1.
Proof.
  unfold wf_compared, field_value_eq.
  unfold upb_MiniTableField_IsArray, upb_MiniTableField_IsMap.
  destruct (field_mode f) eqn:Hmode.
  - rewrite bool_decide_eq_false_2 by done.
    rewrite bool_decide_eq_true_2 by done.
    destruct v1 as [w1|], v2 as [w2|]; try done. simpl.
    apply Map_IsEqual_sym.
  - rewrite bool_decide_eq_true_2 by done.
    destruct v1 as [w1|], v2 as [w2|]; try done. simpl.
    apply Array_IsEqual_sym.
  - rewrite !bool_decide_eq_false_2 by done. intros H1 H2.
    destruct (upb_MiniTableField_IsSubMessage f) eqn:Hsub.
    + apply wf_value_message in H1 as (w1 & -> & _ & Hw1); [|done].
      apply wf_value_message in H2 as (w2 & -> & _ & Hw2); [|done].
      simpl. by apply Hsym.
    + apply DataEquals_sym.
Qed.

Lemma lockstep_sym m p1 p2 js :
  wf_message h wf_sub m p1 = true → wf_message h wf_sub m p2 = true →
  Forall (λ j : nat, (j < length (mt_fields m))%nat) js →
  lockstep h IsEqual_rec p1 p2 m js = lockstep h IsEqual_rec p2 p1 m js.
Proof.
  intros Hwf1 Hwf2. induction 1 as [|j js Hj _ IH]; simpl; [done|].
  destruct (wf_message_readable h wf_sub m p1 Hwf1 j Hj) as [b1 E1].
  destruct (wf_message_readable h wf_sub m p2 Hwf2 j Hj) as [b2 E2].
  rewrite E1, E2. simpl. destruct b1, b2; try done.
  destruct (wf_message_present h wf_sub m p1 j Hwf1 E1)
    as (f & v1 & Hf & Hv1 & Hc1).
  destruct (wf_message_present h wf_sub m p2 j Hwf2 E2)
    as (f' & v2 & Hf' & Hv2 & Hc2).
  rewrite Hf in Hf'. injection Hf' as <-.
  rewrite Hf, Hv1, Hv2. simpl.
  rewrite (field_value_eq_sym m f _ v1 v2 Hc1 Hc2).
  destruct (field_value_eq h IsEqual_rec m f _ v2 v1) as [[]| |]; done.
Qed.

Lemma BaseFieldsAreEqual_sym m p1 p2 :
  wf_message h wf_sub m p1 = true → wf_message h wf_sub m p2 = true →
  _upb_Message_BaseFieldsAreEqual h IsEqual_rec p1 p2 m
  = _upb_Message_BaseFieldsAreEqual h IsEqual_rec p2 p1 m.
Proof.
  intros Hwf1 Hwf2.
  pose proof (wf_message_inv h wf_sub m p1 Hwf1) as (mo & _ & Hsz & _).
  rewrite !BaseFieldsAreEqual_lockstep; eauto using wf_message_readable.
  apply lockstep_sym; try done.
  apply Forall_forall. intros j Hj%elem_of_seq. lia.
Qed.

Lemma ExtensionsAreEqual_sym m p1 p2 :
  wf_message h wf_sub m p1 = true → wf_message h wf_sub m p2 = true →
  _upb_Message_ExtensionsAreEqual h IsEqual_rec p1 p2 m
  = _upb_Message_ExtensionsAreEqual h IsEqual_rec p2 p1 m.
Proof.
  intros (mo1 & E1 & _ & _ & Hsz1 & Hnd1 & Hall1)%wf_message_inv
         (mo2 & E2 & _ & _ & Hsz2 & Hnd2 & Hall2)%wf_message_inv.
  destruct (decide (length (msg_exts mo1) = length (msg_exts mo2)))
    as [Hlen|Hlen].
  - rewrite (ExtensionsAreEqual_exts h _ p1 p2 m mo1 mo2) by done.
    rewrite (ExtensionsAreEqual_exts h _ p2 p1 m mo2 mo1) by done.
    set (E := λ x1 x2 : upb_Extension,
                field_value_eq h IsEqual_rec m (ext_field (ext x1))
                  (ext_sub (ext x1)) (data x1) (data x2)).
    apply (all_equal_assoc_sym ext E); try done.
    + intros x y Hx Hy Hk. unfold E.
      apply field_value_eq_total with (wf_sub := wf_sub); try done.
      * apply (proj1 (Forall_forall _ _) Hall1 _ Hx).
      * pose proof (proj1 (Forall_forall _ _) Hall2 _ Hy) as Hy'.
        unfold wf_extension in Hy'. by rewrite <- Hk in Hy'.
    + intros x y Hx Hy Hk. unfold E. rewrite <- Hk.
      apply field_value_eq_sym.
      * apply (proj1 (Forall_forall _ _) Hall1 _ Hx).
      * pose proof (proj1 (Forall_forall _ _) Hall2 _ Hy) as Hy'.
        unfold wf_extension in Hy'. by rewrite <- Hk in Hy'.
  - rewrite (ExtensionsAreEqual_counts h _ p1 p2 m mo1 mo2) by done.
    rewrite (ExtensionsAreEqual_counts h _ p2 p1 m mo2 mo1) by done.
    done.
Qed.

Hypothesis Hcmp : ∀ u1 u2 depth,
  _upb_Message_UnknownFieldsAreEqual u1 u2 depth
    = kUpb_UnknownCompareResult_Equal ↔
  _upb_Message_UnknownFieldsAreEqual u2 u1 depth
    = kUpb_UnknownCompareResult_Equal.

Lemma IsEqual_body_sym m p1 p2 :
  wf_message h wf_sub m p1 = true → wf_message h wf_sub m p2 = true →
  IsEqual_body h IsEqual_rec p1 p2 m = IsEqual_body h IsEqual_rec p2 p1 m.
Proof.
  intros Hwf1 Hwf2. unfold IsEqual_body.
  destruct (decide (p1 = p2)) as [->|Hne]; [done|].
  rewrite !bool_decide_eq_false_2 by done.
  rewrite (BaseFieldsAreEqual_sym m p1 p2 Hwf1 Hwf2).
  destruct (_upb_Message_BaseFieldsAreEqual h IsEqual_rec p2 p1 m)
    as [[]| |]; simpl; try done.
  rewrite (ExtensionsAreEqual_sym m p1 p2 Hwf1 Hwf2).
  destruct (_upb_Message_ExtensionsAreEqual h IsEqual_rec p2 p1 m)
    as [[]| |]; simpl; try done.
  apply wf_message_inv in Hwf1 as (mo1 & E1 & _).
  apply wf_message_inv in Hwf2 as (mo2 & E2 & _).
  unfold upb_Message_GetUnknown. rewrite E1, E2. simpl.
  f_equal. apply bool_decide_ext, Hcmp.
Qed.
End Symmetry.

(** [upb_Message_IsEqual] is symmetric on well-formed messages, given a
    symmetric comparator of unknown data. *)
Lemma IsEqual_sym_wf `{!Collaborators} (d : nat) (h : heap)
  (m : upb_MiniTable) (p1 p2 : ptr) :
  (∀ u1 u2 depth,
     _upb_Message_UnknownFieldsAreEqual u1 u2 depth
       = kUpb_UnknownCompareResult_Equal ↔
     _upb_Message_UnknownFieldsAreEqual u2 u1 depth
       = kUpb_UnknownCompareResult_Equal) →
  wf_msg d h m p1 = true → wf_msg d h m p2 = true →
  upb_Message_IsEqual d h p1 p2 m = upb_Message_IsEqual d h p2 p1 m.
Proof.
  intros Hcmp. revert m p1 p2.
  induction d as [|d IH]; intros m p1 p2; simpl; [done|].
  apply IsEqual_body_sym with (wf_sub := wf_msg d h); [|exact IH|exact Hcmp].
  intros sub q1 q2. apply IsEqual_total.
Qed.

(** ** Messages that agree on their fields *)

Lemma memcmp_eq_refl len w : memcmp_eq len (Raw w) (Raw w) = Ret true.
Proof. simpl. by rewrite Z.eqb_refl. Qed.

Lemma field_present_at_slot h p m mo (j : nat) f v :
  load_msg h p = Ret mo →
  mt_fields m !! j = Some f → msg_data mo !! j = Some v →
  upb_MiniTable_GetFieldByIndex m (Z.of_nat j) = Ret f
  ∧ _upb_Message_DataPtr h p (Z.of_nat j) = Ret v
  ∧ field_present_at h p m (Z.of_nat j) = spec_field_present h p f v.
Proof.
  intros Hload Hf Hv.
  unfold field_present_at, upb_MiniTable_GetFieldByIndex, _upb_Message_DataPtr.
  rewrite Nat2Z.id, Hf, Hload. simpl. rewrite Hv. done.
Qed.

Lemma HasBaseField_hasbit h p mo f k :
  load_msg h p = Ret mo → field_presence f = Some k →
  upb_Message_HasBaseField h p f
  = match msg_hasbits mo !! k with
    | Some b => Ret b
    | None => Fault InvalidRead
    end.
Proof.
  intros Hload Hk. unfold upb_Message_HasBaseField. by rewrite Hload, Hk.
Qed.

Lemma spec_field_present_explicit h p mo f v k b :
  load_msg h p = Ret mo → field_presence f = Some k →
  msg_hasbits mo !! k = Some b →
  spec_field_present h p f v = Ret b.
Proof.
  intros Hload Hk Hb. unfold spec_field_present, upb_MiniTableField_HasPresence.
  rewrite bool_decide_eq_true_2 by (by rewrite Hk).
  rewrite (HasBaseField_hasbit h p mo f k), Hb by done. done.
Qed.

Lemma spec_field_present_implicit_scalar h p f v :
  field_presence f = None → field_mode f = kUpb_FieldMode_Scalar →
  spec_field_present h p f v
  = (zero ← _upb_MiniTableField_DataIsZero f v; Ret (negb zero)).
Proof.
  intros Hk Hmode. unfold spec_field_present, upb_MiniTableField_HasPresence,
    upb_MiniTableField_IsArray, upb_MiniTableField_IsMap.
  rewrite bool_decide_eq_false_2 by (rewrite Hk; intros ?; done).
  rewrite Hmode. done.
Qed.

(** Presence depends on the slot and on the has-bit of the field only. *)
Lemma field_present_at_agree h m p1 p2 mo1 mo2 (j : nat) :
  load_msg h p1 = Ret mo1 → load_msg h p2 = Ret mo2 →
  msg_data mo1 !! j = msg_data mo2 !! j →
  (∀ f k, mt_fields m !! j = Some f → field_presence f = Some k →
          msg_hasbits mo1 !! k = msg_hasbits mo2 !! k) →
  field_present_at h p1 m (Z.of_nat j) = field_present_at h p2 m (Z.of_nat j)
  ∧ _upb_Message_DataPtr h p1 (Z.of_nat j)
    = _upb_Message_DataPtr h p2 (Z.of_nat j).
Proof.
  intros H1 H2 Hdata Hbits.
  unfold field_present_at, upb_MiniTable_GetFieldByIndex, _upb_Message_DataPtr.
  rewrite Nat2Z.id, H1, H2. simpl. rewrite Hdata. split; [|done].
  destruct (mt_fields m !! j) as [f|] eqn:Hf; [|done]. simpl.
  destruct (msg_data mo2 !! j) as [v|]; [|done]. simpl.
  unfold spec_field_present, upb_Message_HasBaseField. rewrite H1, H2. simpl.
  destruct (field_presence f) as [k|] eqn:Hk; [|done].
  by rewrite (Hbits f k).
Qed.

Lemma seq_split_at (n j : nat) :
  (j < n)%nat → seq 0 n = seq 0 j ++ [j] ++ seq (S j) (n - S j).
Proof.
  intros Hj. replace n with (j + S (n - S j))%nat at 1 by lia.
  rewrite seq_app. done.
Qed.

Section Agreement.
Context `{!Collaborators}.
Variable h : heap.
Variable wf_sub : upb_MiniTable → ptr → bool.
Variable IsEqual_rec : ptr → ptr → upb_MiniTable → result bool.
Hypothesis Hrefl : ∀ sub p,
  wf_sub sub p = true → IsEqual_rec p p sub = Ret true.

Lemma field_value_eq_refl m f sub v :
  wf_compared h wf_sub m f sub v = true →
  field_value_eq h IsEqual_rec m f sub v v = Ret true.
Proof.
  unfold wf_compared, field_value_eq.
  unfold upb_MiniTableField_IsArray, upb_MiniTableField_IsMap.
  destruct (field_mode f) eqn:Hmode.
  - rewrite bool_decide_eq_false_2 by done.
    rewrite bool_decide_eq_true_2 by done.
    destruct v as [w|]; [|done]. intros _. simpl. apply Map_IsEqual_same.
  - rewrite bool_decide_eq_true_2 by done.
    destruct v as [w|]; [|done]. intros _. simpl. apply Array_IsEqual_same.
  - rewrite !bool_decide_eq_false_2 by done. intros Hv.
    destruct (upb_MiniTableField_IsSubMessage f) eqn:Hsub.
    + apply wf_value_message in Hv as (w & -> & _ & Hw); [|done].
      simpl. by apply Hrefl.
    + unfold wf_value in Hv. rewrite Hsub in Hv.
      unfold _upb_MiniTableField_DataEquals, _upb_MiniTableField_GetRep.
      rewrite Hmode.
      unfold _upb_IsStringView, upb_MiniTableField_CType in Hv.
      destruct v as [w|s], (field_ctype f); simpl in *; try done;
        rewrite ?Z.eqb_refl; try done;
        unfold upb_StringView_IsEqual; by rewrite bool_decide_eq_true_2.
Qed.

Lemma lockstep_app p1 p2 m js1 js2 :
  lockstep h IsEqual_rec p1 p2 m (js1 ++ js2)
  = (b ← lockstep h IsEqual_rec p1 p2 m js1;
     if b : bool then lockstep h IsEqual_rec p1 p2 m js2 else Ret false).
Proof.
  induction js1 as [|j js1 IH]; simpl; [done|].
  destruct (field_present_at h p1 m (Z.of_nat j)) as [b1| |]; simpl; try done.
  destruct (field_present_at h p2 m (Z.of_nat j)) as [b2| |]; simpl; try done.
  destruct b1, b2; simpl; try done.
  destruct (upb_MiniTable_GetFieldByIndex m (Z.of_nat j)) as [f| |];
    simpl; try done.
  destruct (_upb_Message_DataPtr h p1 (Z.of_nat j)) as [v1| |];
    simpl; try done.
  destruct (_upb_Message_DataPtr h p2 (Z.of_nat j)) as [v2| |];
    simpl; try done.
  destruct (field_value_eq h IsEqual_rec m f _ v1 v2) as [[]| |];
    simpl; done.
Qed.

(** Fields on which two well-formed messages agree pass the lock-step
    comparison. *)
Lemma lockstep_agree m p1 p2 js :
  wf_message h wf_sub m p1 = true → wf_message h wf_sub m p2 = true →
  Forall (λ j : nat,
    (j < length (mt_fields m))%nat
    ∧ field_present_at h p1 m (Z.of_nat j)
      = field_present_at h p2 m (Z.of_nat j)
    ∧ (field_present_at h p1 m (Z.of_nat j) = Ret true →
       _upb_Message_DataPtr h p1 (Z.of_nat j)
       = _upb_Message_DataPtr h p2 (Z.of_nat j))) js →
  lockstep h IsEqual_rec p1 p2 m js = Ret true.
Proof.
  intros Hwf1 Hwf2. induction 1 as [|j js (Hj & Hp & Hd) _ IH]; simpl; [done|].
  destruct (wf_message_readable h wf_sub m p1 Hwf1 j Hj) as [b1 E1].
  rewrite <- Hp, E1. simpl. destruct b1; [|done].
  destruct (wf_message_present h wf_sub m p1 j Hwf1 E1)
    as (f & v1 & Hf & Hv1 & Hc1).
  rewrite Hf, <- Hd, Hv1 by done. simpl.
  rewrite field_value_eq_refl by done. done.
Qed.

(** Two well-formed messages that agree on every field but [j] are
    compared by comparing field [j]. *)
Lemma BaseFieldsAreEqual_one_field m p1 p2 (j : nat) :
  wf_message h wf_sub m p1 = true → wf_message h wf_sub m p2 = true →
  (j < length (mt_fields m))%nat →
  (∀ j' : nat, (j' < length (mt_fields m))%nat → j' ≠ j →
     field_present_at h p1 m (Z.of_nat j')
     = field_present_at h p2 m (Z.of_nat j')
     ∧ _upb_Message_DataPtr h p1 (Z.of_nat j')
       = _upb_Message_DataPtr h p2 (Z.of_nat j')) →
  _upb_Message_BaseFieldsAreEqual h IsEqual_rec p1 p2 m
  = lockstep h IsEqual_rec p1 p2 m [j].
Proof.
  intros Hwf1 Hwf2 Hj Hagree.
  pose proof (wf_message_inv h wf_sub m p1 Hwf1) as (mo & _ & Hsz & _).
  rewrite BaseFieldsAreEqual_lockstep; eauto using wf_message_readable.
  rewrite (seq_split_at _ j Hj).
  assert (Hother : ∀ js, Forall (λ j' : nat,
             (j' < length (mt_fields m))%nat ∧ j' ≠ j) js →
           lockstep h IsEqual_rec p1 p2 m js = Ret true).
  { intros js Hjs. apply lockstep_agree; try done.
    eapply Forall_impl; [exact Hjs|]. intros j' [Hlt Hne]. simpl.
    destruct (Hagree j' Hlt Hne) as [Hp Hd]. auto. }
  rewrite lockstep_app, (Hother (seq 0 j)).
  2:{ apply Forall_forall. intros j' Hin%elem_of_seq. lia. }
  cbn [mbind result_bind]. rewrite (lockstep_app _ _ _ [j]), (Hother (seq (S j) _)).
  2:{ apply Forall_forall. intros j' Hin%elem_of_seq. lia. }
  destruct (lockstep h IsEqual_rec p1 p2 m [j]) as [[]| |]; done.
Qed.

(** Two well-formed messages that agree on every field have equal base
    fields. *)
Lemma BaseFieldsAreEqual_agree m p1 p2 :
  wf_message h wf_sub m p1 = true → wf_message h wf_sub m p2 = true →
  (∀ j' : nat, (j' < length (mt_fields m))%nat →
     field_present_at h p1 m (Z.of_nat j')
     = field_present_at h p2 m (Z.of_nat j')
     ∧ (field_present_at h p1 m (Z.of_nat j') = Ret true →
        _upb_Message_DataPtr h p1 (Z.of_nat j')
        = _upb_Message_DataPtr h p2 (Z.of_nat j'))) →
  _upb_Message_BaseFieldsAreEqual h IsEqual_rec p1 p2 m = Ret true.
Proof.
  intros Hwf1 Hwf2 Hagree.
  pose proof (wf_message_inv h wf_sub m p1 Hwf1) as (mo & _ & Hsz & _).
  rewrite BaseFieldsAreEqual_lockstep; eauto using wf_message_readable.
  apply lockstep_agree; try done.
  apply Forall_forall. intros j' Hin%elem_of_seq.
  destruct (Hagree j') as [Hp Hd]; [lia|]. split; [lia|auto].
Qed.

(** The extensions of a well-formed message compare equal to any
    reordering of them. *)
Lemma ExtensionsAreEqual_Permutation m p1 p2 mo1 mo2 :
  wf_message h wf_sub m p1 = true → wf_message h wf_sub m p2 = true →
  load_msg h p1 = Ret mo1 → load_msg h p2 = Ret mo2 →
  msg_exts mo1 ≡ₚ msg_exts mo2 →
  _upb_Message_ExtensionsAreEqual h IsEqual_rec p1 p2 m = Ret true.
Proof.
  intros (mo1' & E1 & _ & _ & Hsz1 & Hnd1 & Hall1)%wf_message_inv
         (mo2' & E2 & _ & _ & Hsz2 & Hnd2 & Hall2)%wf_message_inv
         E1' E2' Hperm.
  rewrite E1 in E1'. injection E1' as ->.
  rewrite E2 in E2'. injection E2' as ->.
  rewrite (ExtensionsAreEqual_exts h _ p1 p2 m mo1 mo2);
    [|done|done|by apply Permutation_length|done].
  apply all_equal_true, Forall_forall. intros x Hx.
  change (ext_lookup (ext x) (msg_exts mo2))
    with (assoc_find ext (ext x) (msg_exts mo2)).
  rewrite assoc_find_NoDup; [|done|by rewrite <- Hperm].
  apply field_value_eq_refl.
  apply (proj1 (Forall_forall _ _) Hall1 _ Hx).
Qed.
End Agreement.

(** ** More fuel does not change a result *)

Lemma fuel_le_refl {A : Type} (r : result A) : fuel_le r r.
Proof. by right. Qed.

Lemma fuel_le_bind {A B : Type} (r1 r2 : result A) (f1 f2 : A → result B) :
  fuel_le r1 r2 → (∀ a, fuel_le (f1 a) (f2 a)) →
  fuel_le (r1 ≫= f1) (r2 ≫= f2).
Proof.
  intros [->| ->] Hf; [by left|]. destruct r1 as [a| |]; simpl; [apply Hf|..];
    by right.
Qed.

Ltac fuel_le_step :=
  match goal with
  | |- fuel_le ?r ?r => apply fuel_le_refl
  | |- fuel_le (mbind _ _) (mbind _ _) => apply fuel_le_bind; [|intros ?]
  | |- fuel_le (if ?b then _ else _) (if ?b then _ else _) => destruct b
  | |- fuel_le (match ?x with _ => _ end) (match ?x with _ => _ end) =>
      destruct x
  | |- fuel_le (match ?x with _ => _ end _) (match ?x with _ => _ end _) =>
      destruct x
  end.

Lemma for_each_index_fuel_le (body1 body2 : Z → result bool) count i :
  (∀ j, fuel_le (body1 j) (body2 j)) →
  fuel_le (for_each_index count i body1) (for_each_index count i body2).
Proof.
  intros Hb. revert i. induction count as [|c IH]; intros i; simpl.
  - apply fuel_le_refl.
  - apply fuel_le_bind; [apply Hb|]. intros []; [apply IH|apply fuel_le_refl].
Qed.

Lemma while_next_fuel_le {A : Type} n (next : Z → result (option (A * Z)))
  iter (body1 body2 : A → result bool) :
  (∀ a, fuel_le (body1 a) (body2 a)) →
  fuel_le (while_next n next iter body1) (while_next n next iter body2).
Proof.
  intros Hb. revert iter. induction n as [|n IH]; intros iter; simpl.
  - apply fuel_le_refl.
  - apply fuel_le_bind; [apply fuel_le_refl|]. intros [[a iter']|].
    + apply fuel_le_bind; [apply Hb|].
      intros []; [apply IH|apply fuel_le_refl].
    + apply fuel_le_refl.
Qed.

Section FuelMonotone.
Context `{!Collaborators}.
Variable h : heap.
Variables rec1 rec2 : ptr → ptr → upb_MiniTable → result bool.
Hypothesis Hrec : ∀ p1 p2 m, fuel_le (rec1 p1 p2 m) (rec2 p1 p2 m).

Lemma Array_IsEqual_fuel_le a1 a2 m f :
  fuel_le (_upb_Array_IsEqual h rec1 a1 a2 m f)
          (_upb_Array_IsEqual h rec2 a1 a2 m f).
Proof.
  unfold _upb_Array_IsEqual. repeat fuel_le_step;
    try (apply for_each_index_fuel_le; intros j);
    repeat fuel_le_step; apply Hrec.
Qed.

Lemma Map_IsEqual_fuel_le a1 a2 m f :
  fuel_le (_upb_Map_IsEqual h rec1 a1 a2 m f)
          (_upb_Map_IsEqual h rec2 a1 a2 m f).
Proof.
  unfold _upb_Map_IsEqual. cbv zeta. repeat fuel_le_step;
    try (apply while_next_fuel_le; intros [key val1]);
    repeat fuel_le_step; apply Hrec.
Qed.

Lemma field_value_eq_fuel_le m f sub v1 v2 :
  fuel_le (field_value_eq h rec1 m f sub v1 v2)
          (field_value_eq h rec2 m f sub v1 v2).
Proof.
  unfold field_value_eq. repeat fuel_le_step;
    first [apply Array_IsEqual_fuel_le|apply Map_IsEqual_fuel_le|apply Hrec].
Qed.

Lemma BaseFieldsAreEqual_loop_fuel_le n p1 p2 m i1 i2 :
  fuel_le (BaseFieldsAreEqual_loop h rec1 n p1 p2 m i1 i2)
          (BaseFieldsAreEqual_loop h rec2 n p1 p2 m i1 i2).
Proof.
  revert i1 i2. induction n as [|n IH]; intros i1 i2.
  - apply fuel_le_refl.
  - rewrite !BaseFieldsAreEqual_loop_unfold.
    repeat fuel_le_step; first [apply field_value_eq_fuel_le|apply IH].
Qed.

Lemma ExtensionsAreEqual_fuel_le p1 p2 m :
  fuel_le (_upb_Message_ExtensionsAreEqual h rec1 p1 p2 m)
          (_upb_Message_ExtensionsAreEqual h rec2 p1 p2 m).
Proof.
  unfold _upb_Message_ExtensionsAreEqual. cbv zeta. repeat fuel_le_step.
  apply while_next_fuel_le. intros [e val1].
  repeat fuel_le_step;
    first [apply Array_IsEqual_fuel_le|apply Map_IsEqual_fuel_le|apply Hrec].
Qed.

Lemma IsEqual_body_fuel_le p1 p2 m :
  fuel_le (IsEqual_body h rec1 p1 p2 m) (IsEqual_body h rec2 p1 p2 m).
Proof.
  unfold IsEqual_body, _upb_Message_BaseFieldsAreEqual.
  repeat fuel_le_step;
    first [apply BaseFieldsAreEqual_loop_fuel_le
          |apply ExtensionsAreEqual_fuel_le].
Qed.
End FuelMonotone.

(** A result of [upb_Message_IsEqual], an answer or a fault, stays the same
    with more fuel. *)
Lemma IsEqual_fuel_mono `{!Collaborators} (fuel : nat) (h : heap)
  (msg1 msg2 : ptr) (m : upb_MiniTable) :
  fuel_le (upb_Message_IsEqual fuel h msg1 msg2 m)
          (upb_Message_IsEqual (S fuel) h msg1 msg2 m).
Proof.
  revert msg1 msg2 m. induction fuel as [|fuel IH]; intros msg1 msg2 m.
  - by left.
  - cbn [upb_Message_IsEqual]. apply IsEqual_body_fuel_le. apply IH.
Qed.

Lemma fuel_le_trans {A : Type} (r1 r2 r3 : result A) :
  fuel_le r1 r2 → fuel_le r2 r3 → fuel_le r1 r3.
Proof.
  intros [->| ->]; [by left|]. intros [->| ->]; [by left|by right].
Qed.

Lemma IsEqual_fuel_ge `{!Collaborators} (fuel fuel' : nat) (h : heap)
  (msg1 msg2 : ptr) (m : upb_MiniTable) :
  (fuel ≤ fuel')%nat →
  fuel_le (upb_Message_IsEqual fuel h msg1 msg2 m)
          (upb_Message_IsEqual fuel' h msg1 msg2 m).
Proof.
  induction 1 as [|fuel' _ IH]; [apply fuel_le_refl|].
  eapply fuel_le_trans; [exact IH|apply IsEqual_fuel_mono].
Qed.

(** On messages that are well formed down to depth [d], any fuel from [d] on
    gives the answer that fuel [d] gives. *)
Lemma IsEqual_enough_fuel `{!Collaborators} (d fuel : nat) (h : heap)
  (m : upb_MiniTable) (p1 p2 : ptr) :
  wf_msg d h m p1 = true → wf_msg d h m p2 = true → (d ≤ fuel)%nat →
  ∃ b, upb_Message_IsEqual fuel h p1 p2 m = Ret b
       ∧ upb_Message_IsEqual d h p1 p2 m = Ret b.
Proof.
  intros Hwf1 Hwf2 Hle.
  destruct (IsEqual_total d h m p1 p2 Hwf1 Hwf2) as [b Hb].
  exists b. split; [|done].
  destruct (IsEqual_fuel_ge d fuel h p1 p2 m Hle) as [Hout|Heq]; congruence.
Qed.

(** * The claims *)

Lemma IsEqual_same `{!Collaborators} fuel h msg m :
  upb_Message_IsEqual (S fuel) h msg msg m = Ret true.
Proof. simpl. unfold IsEqual_body. by rewrite bool_decide_eq_true_2. Qed.

Lemma IsEqual_refl_wf `{!Collaborators} d h sub p :
  wf_msg d h sub p = true → upb_Message_IsEqual d h p p sub = Ret true.
Proof. destruct d; [done|]. intros _. apply IsEqual_same. Qed.

(** C8. Reflexivity: for every message [msg] and descriptor [m], both
    [upb_Message_IsEqual] and [upb_Message_IsExactlyEqual] answer true on
    [(msg, msg)], through the identity test on the two pointers; nothing is
    read and no arena is created. *)
Theorem IsEqual_reflexive `{!Collaborators} (fuel : nat) (h : heap)
  (msg : ptr) (m : upb_MiniTable) (s : allocator) :
  upb_Message_IsEqual (S fuel) h msg msg m = Ret true
  ∧ upb_Message_IsExactlyEqual h msg msg m s = (true, s).
Proof.
  split; [apply IsEqual_same|].
  unfold upb_Message_IsExactlyEqual. by rewrite bool_decide_eq_true_2.
Qed.

Lemma filter_Forall_id {A : Type} (P : A → Prop) `{∀ x, Decision (P x)}
  (l : list A) :
  Forall P l → filter P l = l.
Proof.
  induction 1 as [|x l Hx _ IH]; [done|].
  rewrite filter_cons_True by done. by rewrite IH.
Qed.

(** C6. [upb_Message_IsExactlyEqual] on two distinct messages answers false
    when the encoding of either operand fails, and on every path the arenas
    that are live when it returns are those that were live when it was
    called: the scratch arena has been released. *)
Theorem IsExactlyEqual_encode_failure `{!Collaborators} (h : heap)
  (msg1 msg2 : ptr) (m : upb_MiniTable) (s : allocator) :
  fresh s ∉ live s →
  let opts := Z.lor kUpb_EncodeOption_SkipUnknown
                kUpb_EncodeOption_Deterministic in
  let r := upb_Message_IsExactlyEqual h msg1 msg2 m s in
  live r.2 = live s
  ∧ (msg1 ≠ msg2 →
     (upb_Encode h msg1 m opts (fresh s)).1 ≠ kUpb_EncodeStatus_Ok
     ∨ (upb_Encode h msg2 m opts (fresh s)).1 ≠ kUpb_EncodeStatus_Ok →
     r.1 = false).
Proof.
  intros Hfresh opts r. subst r. unfold upb_Message_IsExactlyEqual.
  assert (Hfree : filter (λ x, x ≠ fresh s) (fresh s :: live s) = live s).
  { rewrite filter_cons_False by (intros Hne; by apply Hne).
    apply filter_Forall_id, Forall_forall. intros x Hx ->. done. }
  fold opts. split.
  - case_bool_decide; [done|]. simpl.
    destruct (upb_Encode h msg1 m opts (fresh s)) as [st1 d1].
    destruct (upb_Encode h msg2 m opts (fresh s)) as [st2 d2].
    destruct (_ || _); simpl; exact Hfree.
  - intros Hne Hfail. rewrite bool_decide_eq_false_2 by done. simpl.
    destruct (upb_Encode h msg1 m opts (fresh s)) as [st1 d1].
    destruct (upb_Encode h msg2 m opts (fresh s)) as [st2 d2].
    simpl in Hfail.
    destruct Hfail as [Hf|Hf].
    + rewrite (bool_decide_eq_true_2 _ Hf). done.
    + rewrite (bool_decide_eq_true_2 (st2 ≠ _) Hf), orb_true_r. done.
Qed.

(** ** [upb_Message_IsEmpty] *)

Section UnknownUpdate.
Variable h : heap.
Variable msg : ptr.
Variable mo : upb_Message.
Variable u : list byte.
Hypothesis Hmsg : h !! msg = Some (ObjMessage mo).

Let h' : heap := <[msg := ObjMessage (set_unknown u mo)]> h.

Lemma load_array_set_unknown p : load_array h' p = load_array h p.
Proof.
  unfold load_array, load, h'. case_bool_decide; [done|].
  destruct (decide (p = msg)) as [->|Hne].
  - by rewrite lookup_insert_eq, Hmsg.
  - by rewrite lookup_insert_ne.
Qed.

Lemma load_map_set_unknown p : load_map h' p = load_map h p.
Proof.
  unfold load_map, load, h'. case_bool_decide; [done|].
  destruct (decide (p = msg)) as [->|Hne].
  - by rewrite lookup_insert_eq, Hmsg.
  - by rewrite lookup_insert_ne.
Qed.

Lemma load_msg_set_unknown :
  load_msg h' msg = (mo' ← load_msg h msg; Ret (set_unknown u mo')).
Proof.
  unfold load_msg, load, h'. case_bool_decide; [done|].
  by rewrite lookup_insert_eq, Hmsg.
Qed.

Lemma NextBaseField_loop_set_unknown n m i :
  NextBaseField_loop n h' msg m i = NextBaseField_loop n h msg m i.
Proof.
  revert i. induction n as [|n IH]; intros i; [done|].
  cbn [NextBaseField_loop]. cbv zeta.
  destruct (_ <? _); [|done].
  destruct (upb_MiniTable_GetFieldByIndex m _) as [f| |]; simpl; try done.
  unfold _upb_Message_DataPtr, upb_Message_HasBaseField, upb_Array_Size,
    upb_Map_Size.
  rewrite load_msg_set_unknown.
  destruct (load_msg h msg) as [mo'| |]; simpl; try done.
  destruct (msg_data mo' !! _) as [v|]; simpl; try done.
  assert (∀ p, load_array h' p = load_array h p) as Ha
    by apply load_array_set_unknown.
  assert (∀ p, load_map h' p = load_map h p) as Hm
    by apply load_map_set_unknown.
  destruct (upb_MiniTableField_HasPresence f).
  - destruct (field_presence f) as [k|]; simpl; [|by apply IH].
    destruct (msg_hasbits mo' !! k) as [[]|]; simpl; try done; by apply IH.
  - destruct (_upb_MiniTableField_DataIsZero f v) as [[]| |]; simpl;
      try done; try (by apply IH).
    destruct (upb_MiniTableField_IsArray f).
    { destruct (array_val v) as [a| |]; simpl; try done. rewrite Ha.
      destruct (load_array h a) as [arr| |]; simpl; try done.
      destruct (_ =? _); simpl; try done; by apply IH. }
    destruct (upb_MiniTableField_IsMap f).
    { destruct (map_val v) as [a| |]; simpl; try done. rewrite Hm.
      destruct (load_map h a) as [mp| |]; simpl; try done.
      destruct (_ =? _); simpl; try done; by apply IH. }
    done.
Qed.
End UnknownUpdate.

(** C7. [upb_Message_IsEmpty] answers true exactly when the message has zero
    extensions and the first call of the base-field iterator yields nothing.
    The unknown bytes are not read: replacing them by any others leaves the
    answer as it is. *)
Theorem IsEmpty_spec (h : heap) (msg : ptr) (m : upb_MiniTable) :
  (upb_Message_IsEmpty h msg m = Ret true ↔
     upb_Message_ExtensionCount h msg = Ret 0
     ∧ upb_Message_NextBaseField h msg m kUpb_BaseField_Begin = Ret None)
  ∧ (∀ mo u, h !! msg = Some (ObjMessage mo) →
       upb_Message_IsEmpty (<[msg := ObjMessage (set_unknown u mo)]> h) msg m
       = upb_Message_IsEmpty h msg m).
Proof.
  split.
  - unfold upb_Message_IsEmpty.
    destruct (upb_Message_ExtensionCount h msg) as [c| |]; simpl.
    + destruct (Z.eqb_spec c 0) as [->|Hc]; simpl.
      * destruct (upb_Message_NextBaseField h msg m kUpb_BaseField_Begin)
          as [[r|]| |]; simpl;
          (split; [try done|first [intros [_ ?]; done|done]]).
      * split; [done|]. intros [[= ?] _]. done.
    + split; [done|intros [? _]; done].
    + split; [done|intros [? _]; done].
  - intros mo u Hmo. unfold upb_Message_IsEmpty, upb_Message_ExtensionCount,
      _upb_Message_Getexts, upb_Message_NextBaseField.
    rewrite (load_msg_set_unknown h msg mo u Hmo).
    destruct (load_msg h msg) as [mo'| |]; simpl; try done.
    by rewrite (NextBaseField_loop_set_unknown h msg mo u Hmo).
Qed.

(** C10. A null first handle against a non-null empty array of scalars: the
    sizes agree (both 0), the field is neither a sub-message nor a string, and
    the element width is read through the null handle. *)
Theorem Array_IsEqual_null_first_scalar `{!Collaborators} (h : heap)
  (IsEqual_rec : ptr → ptr → upb_MiniTable → result bool) (arr2 : ptr)
  (a2 : upb_Array) (m : upb_MiniTable) (f : upb_MiniTableField) :
  load_array h arr2 = Ret a2 → arr_data a2 = [] →
  upb_MiniTableField_IsSubMessage f = false → _upb_IsStringView f = false →
  _upb_Array_IsEqual h IsEqual_rec NULL arr2 m f = Fault NullDeref
  ∧ _upb_Array_IsEqual h IsEqual_rec arr2 NULL m f = Ret true.
Proof.
  intros Hload Hnil Hsub Hstr. split.
  - rewrite (Array_IsEqual_null_empty h _ arr2 m f a2) by done.
    by rewrite Hsub, Hstr.
  - by apply (Array_IsEqual_empty_null h _ arr2 m f a2).
Qed.

(** ** What the base-field iterator yields *)

Lemma fields_of_hasbit_only m k (j j' : nat) f' :
  fields_of_hasbit m k = [j] →
  mt_fields m !! j' = Some f' → field_presence f' = Some k → j' = j.
Proof.
  intros Honly Hf Hk.
  assert (Hin : j' ∈ fields_of_hasbit m k).
  { unfold fields_of_hasbit. apply list_elem_of_filter. split.
    - by rewrite Hf, <- Hk.
    - apply elem_of_seq. apply lookup_lt_Some in Hf. lia. }
  rewrite Honly in Hin. by apply list_elem_of_singleton in Hin.
Qed.

Lemma seq_split_inv (s n : nat) (js1 js2 : list nat) (j : nat) :
  seq s n = js1 ++ j :: js2 →
  js1 = seq s (j - s) ∧ (s ≤ j < s + n)%nat.
Proof.
  intros Heq.
  assert (Hj : seq s n !! length js1 = Some j).
  { rewrite Heq. by apply list_lookup_middle. }
  apply lookup_seq in Hj as [-> Hlt].
  split; [|lia].
  replace (s + length js1 - s)%nat with (length js1) by lia.
  assert (Htake : take (length js1) (seq s n) = js1).
  { rewrite Heq. by rewrite take_app_length. }
  rewrite <- Htake at 1. rewrite take_seq. f_equal. lia.
Qed.

(** A well-formed message, opened: its object and its slots. *)
Lemma wf_msg_open `{!Collaborators} d h m p mo :
  wf_msg (S d) h m p = true → h !! p = Some (ObjMessage mo) →
  load_msg h p = Ret mo
  ∧ ∀ (j : nat) f, mt_fields m !! j = Some f →
      ∃ v, msg_data mo !! j = Some v
           ∧ wf_slot h (wf_msg d h) m mo f v = true.
Proof.
  intros (mo' & E & _ & Hslots & _)%wf_message_inv Hmo.
  pose proof (proj1 (load_msg_Ret _ _ _) E) as [_ Hmo'].
  rewrite Hmo in Hmo'. by injection Hmo' as <-.
Qed.

Lemma NextBaseField_yields h msg m iter f v i :
  in_size_t (length (mt_fields m)) = true →
  upb_Message_NextBaseField h msg m iter = Ret (Some (f, v, i)) ↔
  size_t_incr iter ≤ i < upb_MiniTable_FieldCount m
  ∧ upb_MiniTable_GetFieldByIndex m i = Ret f
  ∧ _upb_Message_DataPtr h msg i = Ret v
  ∧ spec_field_present h msg f v = Ret true
  ∧ ∀ j, size_t_incr iter ≤ j < i → field_present_at h msg m j = Ret false.
Proof.
  intros Hsz. rewrite NextBaseField_first_present by done.
  rewrite first_present_Some.
  pose proof (size_t_incr_range iter) as Hr.
  set (s := size_t_incr iter) in *. unfold upb_MiniTable_FieldCount.
  split.
  - intros (js1 & j & js2 & Hjs & -> & Hall & Hf & Hv & Hp).
    apply seq_split_inv in Hjs as [-> Hj].
    repeat split; try done; try lia.
    intros j' Hj'.
    replace j' with (Z.of_nat (Z.to_nat j')) by lia.
    apply (proj1 (Forall_forall _ _) Hall). apply elem_of_seq. lia.
  - intros (Hi & Hf & Hv & Hp & Hall).
    exists (seq (Z.to_nat s) (Z.to_nat i - Z.to_nat s)), (Z.to_nat i),
      (seq (S (Z.to_nat i)) (length (mt_fields m) - S (Z.to_nat i))).
    repeat split; try done; try lia.
    + replace (length (mt_fields m) - Z.to_nat s)%nat
        with ((Z.to_nat i - Z.to_nat s)
              + S (length (mt_fields m) - S (Z.to_nat i)))%nat by lia.
      rewrite seq_app. simpl. do 3 f_equal; lia.
    + apply Forall_forall. intros j' Hj'%elem_of_seq. apply Hall. lia.
Qed.

Lemma NextBaseField_exhausted h msg m iter :
  in_size_t (length (mt_fields m)) = true →
  upb_Message_NextBaseField h msg m iter = Ret None ↔
  ∀ j, size_t_incr iter ≤ j < upb_MiniTable_FieldCount m →
       field_present_at h msg m j = Ret false.
Proof.
  intros Hsz. rewrite NextBaseField_first_present by done.
  rewrite first_present_None, Forall_forall.
  pose proof (size_t_incr_range iter) as Hr.
  set (s := size_t_incr iter) in *. unfold upb_MiniTable_FieldCount.
  split.
  - intros Hall j Hj. replace j with (Z.of_nat (Z.to_nat j)) by lia.
    apply Hall, elem_of_seq. lia.
  - intros Hall j Hj%elem_of_seq. apply Hall. lia.
Qed.

(** C1. The base-field iterator yields the next field that is present in
    the words of the specification: an explicit-presence field iff its
    has-bit is set, an implicit-presence field iff its raw value is not zero
    (an array or map iff its size is greater than 0), see
    [spec_field_present].  Consequently, for two well-formed messages that
    differ only in the has-bit of one explicit-presence field, set in the
    first and clear in the second, [upb_Message_IsEqual] answers false,
    whatever the value of the field; and for two well-formed messages that
    differ at most in how an implicit-presence scalar field holds zero, with
    unknown bytes that the comparator accepts, it answers true. *)
Theorem NextBaseField_presence `{!Collaborators} :
  (∀ h msg m iter f v i,
     in_size_t (length (mt_fields m)) = true →
     upb_Message_NextBaseField h msg m iter = Ret (Some (f, v, i)) ↔
     size_t_incr iter ≤ i < upb_MiniTable_FieldCount m
     ∧ upb_MiniTable_GetFieldByIndex m i = Ret f
     ∧ _upb_Message_DataPtr h msg i = Ret v
     ∧ spec_field_present h msg f v = Ret true
     ∧ ∀ j, size_t_incr iter ≤ j < i →
            field_present_at h msg m j = Ret false)
  ∧ (∀ h msg m iter,
       in_size_t (length (mt_fields m)) = true →
       upb_Message_NextBaseField h msg m iter = Ret None ↔
       ∀ j, size_t_incr iter ≤ j < upb_MiniTable_FieldCount m →
            field_present_at h msg m j = Ret false)
  ∧ (∀ d h m p1 p2 mo1 mo2 (j : nat) f k,
       wf_msg (S d) h m p1 = true → wf_msg (S d) h m p2 = true →
       p1 ≠ p2 →
       h !! p1 = Some (ObjMessage mo1) → h !! p2 = Some (ObjMessage mo2) →
       mt_fields m !! j = Some f → field_presence f = Some k →
       fields_of_hasbit m k = [j] →
       msg_data mo2 = msg_data mo1 →
       msg_hasbits mo1 !! k = Some true →
       msg_hasbits mo2 = <[k := false]> (msg_hasbits mo1) →
       upb_Message_IsEqual (S d) h p1 p2 m = Ret false)
  ∧ (∀ d h m p1 p2 mo1 mo2 (j : nat) f v1 v2,
       wf_msg (S d) h m p1 = true → wf_msg (S d) h m p2 = true →
       h !! p1 = Some (ObjMessage mo1) → h !! p2 = Some (ObjMessage mo2) →
       mt_fields m !! j = Some f → field_presence f = None →
       field_mode f = kUpb_FieldMode_Scalar →
       msg_data mo1 !! j = Some v1 →
       msg_data mo2 = <[j := v2]> (msg_data mo1) →
       _upb_MiniTableField_DataIsZero f v1 = Ret true →
       _upb_MiniTableField_DataIsZero f v2 = Ret true →
       msg_hasbits mo2 = msg_hasbits mo1 →
       msg_exts mo2 = msg_exts mo1 →
       msg_unknown mo2 = msg_unknown mo1 →
       _upb_Message_UnknownFieldsAreEqual (msg_unknown mo1) (msg_unknown mo1)
         100 = kUpb_UnknownCompareResult_Equal →
       upb_Message_IsEqual (S d) h p1 p2 m = Ret true).
Proof.
  split; [intros; by apply NextBaseField_yields|].
  split; [intros; by apply NextBaseField_exhausted|].
  split.
  - intros d h m p1 p2 mo1 mo2 j f k Hwf1 Hwf2 Hne Hm1 Hm2 Hf Hk Honly
      Hdata Hset Hbits.
    destruct (wf_msg_open d h m p1 mo1 Hwf1 Hm1) as [E1 Hslots1].
    destruct (wf_msg_open d h m p2 mo2 Hwf2 Hm2) as [E2 Hslots2].
    simpl in Hwf1, Hwf2.
    cbn [upb_Message_IsEqual]. unfold IsEqual_body.
    rewrite bool_decide_eq_false_2 by done.
    assert (Hj : (j < length (mt_fields m))%nat) by by eapply lookup_lt_Some.
    rewrite (BaseFieldsAreEqual_one_field h (wf_msg d h) _
               (IsEqual_refl_wf d h) m p1 p2 j Hwf1 Hwf2 Hj).
    + destruct (Hslots1 j f Hf) as (v & Hv & _).
      destruct (field_present_at_slot h p1 m mo1 j f v E1 Hf Hv)
        as (_ & _ & Hpres1).
      assert (Hv2 : msg_data mo2 !! j = Some v) by by rewrite Hdata.
      destruct (field_present_at_slot h p2 m mo2 j f v E2 Hf Hv2)
        as (_ & _ & Hpres2).
      cbn [lockstep]. rewrite Hpres1, Hpres2.
      rewrite (spec_field_present_explicit h p1 mo1 f v k true) by done.
      rewrite (spec_field_present_explicit h p2 mo2 f v k false); try done.
      rewrite Hbits. apply list_lookup_insert_eq. by eapply lookup_lt_Some.
    + intros j' Hj' Hne'.
      apply (field_present_at_agree h m p1 p2 mo1 mo2 j' E1 E2).
      * by rewrite Hdata.
      * intros f' k' Hf' Hk'. rewrite Hbits.
        rewrite list_lookup_insert_ne; [done|].
        intros <-. apply Hne'. by eapply fields_of_hasbit_only.
  - intros d h m p1 p2 mo1 mo2 j f v1 v2 Hwf1 Hwf2 Hm1 Hm2 Hf Hk Hmode
      Hv1 Hdata Hz1 Hz2 Hbits Hexts Hunk Hcmp.
    destruct (decide (p1 = p2)) as [->|Hne]; [apply IsEqual_same|].
    destruct (wf_msg_open d h m p1 mo1 Hwf1 Hm1) as [E1 Hslots1].
    destruct (wf_msg_open d h m p2 mo2 Hwf2 Hm2) as [E2 Hslots2].
    simpl in Hwf1, Hwf2.
    cbn [upb_Message_IsEqual]. unfold IsEqual_body.
    rewrite bool_decide_eq_false_2 by done.
    rewrite (BaseFieldsAreEqual_agree h (wf_msg d h) _
               (IsEqual_refl_wf d h) m p1 p2 Hwf1 Hwf2).
    + cbn [mbind result_bind negb].
      rewrite (ExtensionsAreEqual_Permutation h (wf_msg d h) _
                 (IsEqual_refl_wf d h) m p1 p2 mo1 mo2) by (by rewrite ?Hexts).
      cbn [mbind result_bind negb].
      unfold upb_Message_GetUnknown. rewrite E1, E2. simpl.
      rewrite Hunk, Hcmp. by rewrite bool_decide_eq_true_2.
    + intros j' Hj'.
      destruct (decide (j' = j)) as [->|Hne'].
      * assert (Hv2 : msg_data mo2 !! j = Some v2).
        { rewrite Hdata. apply list_lookup_insert_eq. by eapply lookup_lt_Some. }
        destruct (field_present_at_slot h p1 m mo1 j f v1 E1 Hf Hv1)
          as (_ & _ & Hpres1).
        destruct (field_present_at_slot h p2 m mo2 j f v2 E2 Hf Hv2)
          as (_ & _ & Hpres2).
        rewrite Hpres1, Hpres2.
        rewrite !spec_field_present_implicit_scalar by done.
        rewrite Hz1, Hz2. split; [done|]. simpl. done.
      * destruct (field_present_at_agree h m p1 p2 mo1 mo2 j' E1 E2)
          as [Hp Hd].
        -- rewrite Hdata. by rewrite list_lookup_insert_ne.
        -- intros f' k' _ _. by rewrite Hbits.
        -- split; [done|by intros _].
Qed.

(** ** Scalars are compared as bit patterns *)

Lemma all_equal_total_false {A : Type} (body : A → result bool) (l : list A) :
  Forall (λ a, ∃ b, body a = Ret b) l →
  Exists (λ a, body a = Ret false) l →
  all_equal body l = Ret false.
Proof.
  intros Htot Hex. destruct (all_equal_total body l Htot) as [[] E]; [|done].
  apply all_equal_true in E. apply Exists_exists in Hex as (a & Ha & Hf).
  apply (proj1 (Forall_forall _ _) E) in Ha. congruence.
Qed.

Lemma Z_eqb_bool_decide (a b : Z) : (a =? b) = bool_decide (a = b).
Proof.
  destruct (Z.eqb_spec a b);
    [by rewrite bool_decide_eq_true_2|by rewrite bool_decide_eq_false_2].
Qed.

Lemma DataEquals_bits f x y :
  _upb_MiniTableField_GetRep f ≠ kUpb_FieldRep_StringView →
  _upb_MiniTableField_DataEquals f (Raw x) (Raw y)
  = Ret (bool_decide (low_bytes (scalar_width f) x
                      = low_bytes (scalar_width f) y)).
Proof.
  unfold _upb_MiniTableField_DataEquals, scalar_width.
  destruct (_upb_MiniTableField_GetRep f); try done; intros _; simpl;
    by rewrite Z_eqb_bool_decide.
Qed.

Lemma DataIsZero_bits f x :
  _upb_MiniTableField_GetRep f ≠ kUpb_FieldRep_StringView →
  _upb_MiniTableField_DataIsZero f (Raw x)
  = Ret (bool_decide (low_bytes (scalar_width f) x = 0)).
Proof.
  unfold _upb_MiniTableField_DataIsZero, scalar_width.
  destruct (_upb_MiniTableField_GetRep f); try done; intros _; simpl;
    by rewrite low_bytes_0, Z_eqb_bool_decide.
Qed.

Lemma list_neq_lookup {A : Type} `{EqDecision A} (l1 l2 : list A) :
  length l1 = length l2 → l1 ≠ l2 →
  ∃ i x y, l1 !! i = Some x ∧ l2 !! i = Some y ∧ x ≠ y.
Proof.
  revert l2. induction l1 as [|x l1 IH]; intros [|y l2] Hlen Hne;
    simplify_eq/=.
  destruct (decide (x = y)) as [->|Hxy].
  - destruct (IH l2) as (i & a & b & ? & ? & ?); [done|congruence|].
    exists (S i), a, b. done.
  - exists 0%nat, x, y. done.
Qed.

Lemma array_elem_eq_repr `{!Collaborators} d h m f lg2 v1 v2 :
  upb_MiniTableField_IsSubMessage f = false →
  wf_value (wf_msg d h) f (upb_MiniTable_GetSubMessageTable m f) v1 = true →
  wf_value (wf_msg d h) f (upb_MiniTable_GetSubMessageTable m f) v2 = true →
  array_elem_eq (upb_Message_IsEqual d h) m f lg2 v1 v2
  = Ret (bool_decide (elem_repr (Z.shiftl 1 lg2) v1
                      = elem_repr (Z.shiftl 1 lg2) v2)).
Proof.
  intros Hsub H1 H2. unfold array_elem_eq. rewrite Hsub.
  destruct (_upb_IsStringView f) eqn:Hstr.
  - apply wf_value_string in H1 as (s1 & ->); [|done].
    apply wf_value_string in H2 as (s2 & ->); [|done].
    simpl. unfold upb_StringView_IsEqual. f_equal.
    apply bool_decide_ext. split; congruence.
  - apply wf_value_scalar in H1 as (x & ->); [|done..].
    apply wf_value_scalar in H2 as (y & ->); [|done..].
    simpl. rewrite Z_eqb_bool_decide. f_equal.
    apply bool_decide_ext. split; congruence.
Qed.

(** Two well-formed arrays of scalars or strings of equal length that differ
    at some index compare unequal. *)
Lemma Array_IsEqual_elem_differ `{!Collaborators} d h m f arr1 arr2 a1 a2
  (i : nat) v1 v2 :
  wf_array h (wf_msg d h) m f arr1 = true →
  wf_array h (wf_msg d h) m f arr2 = true →
  arr1 ≠ arr2 →
  load_array h arr1 = Ret a1 → load_array h arr2 = Ret a2 →
  upb_MiniTableField_IsSubMessage f = false →
  length (arr_data a1) = length (arr_data a2) →
  arr_data a1 !! i = Some v1 → arr_data a2 !! i = Some v2 →
  elem_repr (Z.shiftl 1 (arr_elem_size_lg2 a1)) v1
  ≠ elem_repr (Z.shiftl 1 (arr_elem_size_lg2 a1)) v2 →
  _upb_Array_IsEqual h (upb_Message_IsEqual d h) arr1 arr2 m f = Ret false.
Proof.
  intros Hwf1 Hwf2 Hne E1 E2 Hsub Hlen Hx Hy Hxy.
  rewrite (Array_IsEqual_elems h _ arr1 arr2 m f a1 a2) by done.
  apply wf_array_inv in Hwf1 as (a1' & E1' & _ & _ & Hall1).
  apply wf_array_inv in Hwf2 as (a2' & E2' & _ & _ & Hall2).
  rewrite E1 in E1'. injection E1' as <-.
  rewrite E2 in E2'. injection E2' as <-.
  apply all_equal_total_false.
  - apply Forall_forall. intros [u1 u2] Hin. simpl.
    apply array_elem_eq_total with (wf_sub := wf_msg d h).
    + intros sub q1 q2. apply IsEqual_total.
    + eapply (proj1 (Forall_forall _ _) Hall1), elem_of_zip_l, Hin.
    + eapply (proj1 (Forall_forall _ _) Hall2), elem_of_zip_r, Hin.
  - apply Exists_exists. exists (v1, v2). split.
    + apply list_elem_of_lookup. exists i. by apply lookup_zip_Some.
    + simpl. rewrite (array_elem_eq_repr d h m f).
      * by rewrite bool_decide_eq_false_2.
      * done.
      * eapply (proj1 (Forall_forall _ _) Hall1), list_elem_of_lookup_2, Hx.
      * eapply (proj1 (Forall_forall _ _) Hall2), list_elem_of_lookup_2, Hy.
Qed.

(** Raw words are compared position by position, by their low bytes. *)
Lemma all_equal_memcmp (len : Z) (xs ys : list Z) :
  length xs = length ys →
  all_equal (λ vv : upb_MessageValue * upb_MessageValue,
               memcmp_eq len vv.1 vv.2)
    (zip (Raw <$> xs) (Raw <$> ys))
  = Ret (bool_decide (low_bytes len <$> xs = low_bytes len <$> ys)).
Proof.
  revert ys. induction xs as [|x xs IH]; intros [|y ys] Hlen;
    simplify_eq/=; [done|].
  rewrite Z_eqb_bool_decide.
  destruct (decide (low_bytes len x = low_bytes len y)) as [Hxy|Hxy].
  - rewrite bool_decide_eq_true_2 by done. cbn [mbind result_bind].
    rewrite IH by done. f_equal. apply bool_decide_ext.
    rewrite Hxy. split; [by intros ->|by intros [=]].
  - rewrite bool_decide_eq_false_2 by done. cbn [mbind result_bind].
    rewrite bool_decide_eq_false_2; [done|]. by intros [=].
Qed.

(** Two arrays of raw words, of a field of scalars, compare as the lists of
    the low bytes of their words, at the width of the first array. *)
Lemma Array_IsEqual_scalars `{!Collaborators} h IsEqual_rec m f arr1 arr2
  a1 a2 (xs ys : list Z) :
  arr1 ≠ arr2 →
  load_array h arr1 = Ret a1 → load_array h arr2 = Ret a2 →
  upb_MiniTableField_IsSubMessage f = false →
  _upb_IsStringView f = false →
  arr_data a1 = Raw <$> xs → arr_data a2 = Raw <$> ys →
  _upb_Array_IsEqual h IsEqual_rec arr1 arr2 m f
  = Ret (bool_decide
           (low_bytes (Z.shiftl 1 (arr_elem_size_lg2 a1)) <$> xs
            = low_bytes (Z.shiftl 1 (arr_elem_size_lg2 a1)) <$> ys)).
Proof.
  intros Hne E1 E2 Hsub Hstr Hx Hy.
  pose proof (proj1 (load_array_Ret _ _ _) E1) as [Hp1 _].
  pose proof (proj1 (load_array_Ret _ _ _) E2) as [Hp2 _].
  destruct (decide (length xs = length ys)) as [Hlen|Hlen].
  - rewrite (Array_IsEqual_elems h _ arr1 arr2 m f a1 a2);
      [|done|done|done|by rewrite Hx, Hy, !length_fmap].
    rewrite Hx, Hy, <- (all_equal_memcmp _ xs ys Hlen).
    apply all_equal_ext, Forall_forall. intros [v1 v2] _.
    unfold array_elem_eq. by rewrite Hsub, Hstr.
  - rewrite (Array_IsEqual_sizes h _ arr1 arr2 m f
               (Z.of_nat (length xs)) (Z.of_nat (length ys))); try done.
    + rewrite bool_decide_eq_false_2; [done|].
      intros Heq. apply (f_equal length) in Heq.
      rewrite !length_fmap in Heq. done.
    + unfold handle_size, upb_Array_Size.
      rewrite bool_decide_eq_true_2, E1 by done. simpl.
      by rewrite Hx, length_fmap.
    + unfold handle_size, upb_Array_Size.
      rewrite bool_decide_eq_true_2, E2 by done. simpl.
      by rewrite Hy, length_fmap.
    + lia.
Qed.

(** The base fields of two well-formed messages that differ only in one
    singular scalar field, set in both, compare as the low bytes of the two
    words of that field. *)
Lemma BaseFieldsAreEqual_scalar_field `{!Collaborators} d h m p1 p2 mo1 mo2
  (j : nat) f x y :
  wf_msg (S d) h m p1 = true → wf_msg (S d) h m p2 = true →
  h !! p1 = Some (ObjMessage mo1) → h !! p2 = Some (ObjMessage mo2) →
  mt_fields m !! j = Some f →
  field_mode f = kUpb_FieldMode_Scalar →
  upb_MiniTableField_IsSubMessage f = false →
  _upb_IsStringView f = false →
  msg_data mo1 !! j = Some (Raw x) →
  msg_data mo2 = <[j := Raw y]> (msg_data mo1) →
  msg_hasbits mo2 = msg_hasbits mo1 →
  (∀ k, field_presence f = Some k → msg_hasbits mo1 !! k = Some true) →
  _upb_Message_BaseFieldsAreEqual h (upb_Message_IsEqual d h) p1 p2 m
  = Ret (bool_decide (low_bytes (scalar_width f) x
                      = low_bytes (scalar_width f) y)).
Proof.
  intros Hwf1 Hwf2 Hm1 Hm2 Hf Hmode Hsub Hstr Hx Hdata Hbits Hset.
  destruct (wf_msg_open d h m p1 mo1 Hwf1 Hm1) as [E1 Hslots1].
  destruct (wf_msg_open d h m p2 mo2 Hwf2 Hm2) as [E2 Hslots2].
  simpl in Hwf1, Hwf2.
  assert (Hj : (j < length (mt_fields m))%nat) by by eapply lookup_lt_Some.
  assert (Hrep : _upb_MiniTableField_GetRep f ≠ kUpb_FieldRep_StringView).
  { unfold _upb_MiniTableField_GetRep. rewrite Hmode.
    unfold _upb_IsStringView, upb_MiniTableField_CType in Hstr.
    destruct (field_ctype f); simpl in *; done. }
  rewrite (BaseFieldsAreEqual_one_field h (wf_msg d h) _
             (IsEqual_refl_wf d h) m p1 p2 j Hwf1 Hwf2 Hj).
  - assert (Hy : msg_data mo2 !! j = Some (Raw y)).
    { rewrite Hdata. apply list_lookup_insert_eq. by eapply lookup_lt_Some. }
    destruct (field_present_at_slot h p1 m mo1 j f _ E1 Hf Hx)
      as (Hget & Hd1 & Hpres1).
    destruct (field_present_at_slot h p2 m mo2 j f _ E2 Hf Hy)
      as (_ & Hd2 & Hpres2).
    cbn [lockstep]. rewrite Hpres1, Hpres2.
    assert (Hcmp : field_value_eq h (upb_Message_IsEqual d h) m f
                     (upb_MiniTable_GetSubMessageTable m f) (Raw x) (Raw y)
                   = Ret (bool_decide (low_bytes (scalar_width f) x
                                       = low_bytes (scalar_width f) y))).
    { unfold field_value_eq, upb_MiniTableField_IsArray,
        upb_MiniTableField_IsMap.
      rewrite Hmode, Hsub, !bool_decide_eq_false_2 by done.
      by rewrite DataEquals_bits. }
    destruct (field_presence f) as [k|] eqn:Hk.
    + rewrite (spec_field_present_explicit h p1 mo1 f _ k true);
        [|done|done|by apply Hset].
      rewrite (spec_field_present_explicit h p2 mo2 f _ k true);
        [|done|done|rewrite Hbits; by apply Hset].
      cbn [mbind result_bind]. rewrite Hget, Hd1, Hd2.
      cbn [mbind result_bind]. rewrite Hcmp. cbn [mbind result_bind].
      by destruct (bool_decide _).
    + rewrite !spec_field_present_implicit_scalar by done.
      rewrite !DataIsZero_bits by done. cbn [mbind result_bind].
      destruct (decide (low_bytes (scalar_width f) x = 0)) as [Hx0|Hx0],
        (decide (low_bytes (scalar_width f) y = 0)) as [Hy0|Hy0].
      * rewrite !(bool_decide_eq_true_2 (_ = 0)) by done. cbn [negb].
        rewrite bool_decide_eq_true_2 by congruence. done.
      * rewrite (bool_decide_eq_true_2 (_ x = 0)) by done.
        rewrite (bool_decide_eq_false_2 (_ y = 0)) by done. cbn [negb].
        rewrite bool_decide_eq_false_2 by congruence. done.
      * rewrite (bool_decide_eq_false_2 (_ x = 0)) by done.
        rewrite (bool_decide_eq_true_2 (_ y = 0)) by done. cbn [negb].
        rewrite bool_decide_eq_false_2 by congruence. done.
      * rewrite !(bool_decide_eq_false_2 (_ = 0)) by done. cbn [negb].
        rewrite Hget, Hd1, Hd2. cbn [mbind result_bind]. rewrite Hcmp.
        cbn [mbind result_bind]. by destruct (bool_decide _).
  - intros j' Hj' Hne'.
    apply (field_present_at_agree h m p1 p2 mo1 mo2 j' E1 E2).
    + rewrite Hdata. by rewrite list_lookup_insert_ne.
    + intros f' k' _ _. by rewrite Hbits.
Qed.

(** C5. Scalar values are compared by bit pattern, at the width of the
    field and no further: the comparison of two raw words is the equality of
    their low bytes.  Two well-formed messages that differ only in the word
    of one singular scalar field, set in both, are equal under
    [upb_Message_IsEqual] exactly when the two words agree within the width
    of the field: two different NaN patterns, and positive and negative
    zero, are unequal, and what a word holds above the width is not
    compared.  Two arrays of a field of scalars are equal under
    [_upb_Array_IsEqual] exactly when they hold as many words and the words
    agree, index by index, within 1 << the element size class of the first
    array. *)
Theorem scalar_bit_pattern_equality `{!Collaborators} :
  (∀ f x y,
     _upb_MiniTableField_GetRep f ≠ kUpb_FieldRep_StringView →
     _upb_MiniTableField_DataEquals f (Raw x) (Raw y)
     = Ret (bool_decide (low_bytes (scalar_width f) x
                         = low_bytes (scalar_width f) y)))
  ∧ (∀ d h m p1 p2 mo1 mo2 (j : nat) f x y,
       wf_msg (S d) h m p1 = true → wf_msg (S d) h m p2 = true →
       p1 ≠ p2 →
       h !! p1 = Some (ObjMessage mo1) → h !! p2 = Some (ObjMessage mo2) →
       mt_fields m !! j = Some f →
       field_mode f = kUpb_FieldMode_Scalar →
       upb_MiniTableField_IsSubMessage f = false →
       _upb_IsStringView f = false →
       msg_data mo1 !! j = Some (Raw x) →
       msg_data mo2 = <[j := Raw y]> (msg_data mo1) →
       msg_hasbits mo2 = msg_hasbits mo1 →
       (∀ k, field_presence f = Some k → msg_hasbits mo1 !! k = Some true) →
       msg_exts mo1 ≡ₚ msg_exts mo2 →
       _upb_Message_UnknownFieldsAreEqual (msg_unknown mo1) (msg_unknown mo2)
         100 = kUpb_UnknownCompareResult_Equal →
       upb_Message_IsEqual (S d) h p1 p2 m
       = Ret (bool_decide (low_bytes (scalar_width f) x
                           = low_bytes (scalar_width f) y)))
  ∧ (∀ d h m p1 p2 mo1 mo2 (j : nat) f x y,
       wf_msg (S d) h m p1 = true → wf_msg (S d) h m p2 = true →
       p1 ≠ p2 →
       h !! p1 = Some (ObjMessage mo1) → h !! p2 = Some (ObjMessage mo2) →
       mt_fields m !! j = Some f →
       field_mode f = kUpb_FieldMode_Scalar →
       upb_MiniTableField_IsSubMessage f = false →
       _upb_IsStringView f = false →
       msg_data mo1 !! j = Some (Raw x) →
       msg_data mo2 = <[j := Raw y]> (msg_data mo1) →
       msg_hasbits mo2 = msg_hasbits mo1 →
       (∀ k, field_presence f = Some k → msg_hasbits mo1 !! k = Some true) →
       low_bytes (scalar_width f) x ≠ low_bytes (scalar_width f) y →
       upb_Message_IsEqual (S d) h p1 p2 m = Ret false)
  ∧ (∀ h IsEqual_rec m f arr1 arr2 a1 a2 (xs ys : list Z),
       arr1 ≠ arr2 →
       load_array h arr1 = Ret a1 → load_array h arr2 = Ret a2 →
       upb_MiniTableField_IsSubMessage f = false →
       _upb_IsStringView f = false →
       arr_data a1 = Raw <$> xs → arr_data a2 = Raw <$> ys →
       _upb_Array_IsEqual h IsEqual_rec arr1 arr2 m f
       = Ret (bool_decide
                (low_bytes (Z.shiftl 1 (arr_elem_size_lg2 a1)) <$> xs
                 = low_bytes (Z.shiftl 1 (arr_elem_size_lg2 a1)) <$> ys)))
  ∧ (∀ d h m f arr1 arr2 a1 a2 (i : nat) x y,
       wf_array h (wf_msg d h) m f arr1 = true →
       wf_array h (wf_msg d h) m f arr2 = true →
       arr1 ≠ arr2 →
       load_array h arr1 = Ret a1 → load_array h arr2 = Ret a2 →
       upb_MiniTableField_IsSubMessage f = false →
       _upb_IsStringView f = false →
       length (arr_data a1) = length (arr_data a2) →
       arr_data a1 !! i = Some (Raw x) → arr_data a2 !! i = Some (Raw y) →
       low_bytes (Z.shiftl 1 (arr_elem_size_lg2 a1)) x
       ≠ low_bytes (Z.shiftl 1 (arr_elem_size_lg2 a1)) y →
       _upb_Array_IsEqual h (upb_Message_IsEqual d h) arr1 arr2 m f
       = Ret false).
Proof.
  split; [intros; by apply DataEquals_bits|].
  split; [|split; [|split; [intros; by eapply Array_IsEqual_scalars|]]].
  - intros d h m p1 p2 mo1 mo2 j f x y Hwf1 Hwf2 Hne Hm1 Hm2 Hf Hmode Hsub
      Hstr Hx Hdata Hbits Hset Hexts Hunk.
    destruct (wf_msg_open d h m p1 mo1 Hwf1 Hm1) as [E1 _].
    destruct (wf_msg_open d h m p2 mo2 Hwf2 Hm2) as [E2 _].
    cbn [upb_Message_IsEqual]. unfold IsEqual_body.
    rewrite bool_decide_eq_false_2 by done.
    rewrite (BaseFieldsAreEqual_scalar_field d h m p1 p2 mo1 mo2 j f x y)
      by done.
    cbn [mbind result_bind]. destruct (bool_decide _); [|done].
    cbn [negb]. simpl in Hwf1, Hwf2.
    rewrite (ExtensionsAreEqual_Permutation h (wf_msg d h) _
               (IsEqual_refl_wf d h) m p1 p2 mo1 mo2) by done.
    cbn [mbind result_bind negb].
    unfold upb_Message_GetUnknown. rewrite E1, E2. cbn [mbind result_bind].
    by rewrite bool_decide_eq_true_2.
  - intros d h m p1 p2 mo1 mo2 j f x y Hwf1 Hwf2 Hne Hm1 Hm2 Hf Hmode Hsub
      Hstr Hx Hdata Hbits Hset Hxy.
    cbn [upb_Message_IsEqual]. unfold IsEqual_body.
    rewrite bool_decide_eq_false_2 by done.
    rewrite (BaseFieldsAreEqual_scalar_field d h m p1 p2 mo1 mo2 j f x y)
      by done.
    by rewrite bool_decide_eq_false_2.
  - intros d h m f arr1 arr2 a1 a2 i x y Hwf1 Hwf2 Hne E1 E2 Hsub Hstr Hlen
      Hx Hy Hxy.
    eapply (Array_IsEqual_elem_differ d h m f arr1 arr2 a1 a2 i); try done.
    simpl. congruence.
Qed.

(** ** Arrays are compared position by position *)

Lemma all_equal_zip_true {A : Type} (g : A → A → result bool)
  (l1 l2 : list A) :
  length l1 = length l2 →
  all_equal (λ xy, g xy.1 xy.2) (zip l1 l2) = Ret true ↔
  ∀ (i : nat) x y, l1 !! i = Some x → l2 !! i = Some y → g x y = Ret true.
Proof.
  intros Hlen. rewrite all_equal_true, Forall_forall. split.
  - intros Hall i x y Hx Hy. apply (Hall (x, y)).
    apply list_elem_of_lookup. exists i. by apply lookup_zip_Some.
  - intros Hall [x y] (i & Hi)%list_elem_of_lookup.
    apply lookup_zip_Some in Hi as [Hx Hy]. by eapply Hall.
Qed.

(** C4. Array comparison answers true at once on identical handles, false
    when the sizes differ (a null handle having size 0), and otherwise
    compares the elements index by index: it answers true iff the elements
    at every index compare equal.  So two well-formed messages that differ
    only in one repeated field of scalars or strings, whose arrays hold the
    same elements in an order that differs at some index, are unequal under
    [upb_Message_IsEqual]. *)
Theorem Array_IsEqual_positional `{!Collaborators} :
  (∀ h IsEqual_rec arr m f,
     _upb_Array_IsEqual h IsEqual_rec arr arr m f = Ret true)
  ∧ (∀ h IsEqual_rec arr1 arr2 m f n1 n2,
       arr1 ≠ arr2 →
       handle_size upb_Array_Size h arr1 = Ret n1 →
       handle_size upb_Array_Size h arr2 = Ret n2 →
       n1 ≠ n2 →
       _upb_Array_IsEqual h IsEqual_rec arr1 arr2 m f = Ret false)
  ∧ (∀ h IsEqual_rec arr1 arr2 m f a1 a2,
       arr1 ≠ arr2 →
       load_array h arr1 = Ret a1 → load_array h arr2 = Ret a2 →
       length (arr_data a1) = length (arr_data a2) →
       _upb_Array_IsEqual h IsEqual_rec arr1 arr2 m f = Ret true ↔
       ∀ (i : nat) v1 v2,
         arr_data a1 !! i = Some v1 → arr_data a2 !! i = Some v2 →
         array_elem_eq IsEqual_rec m f (arr_elem_size_lg2 a1) v1 v2
         = Ret true)
  ∧ (∀ d h m p1 p2 mo1 mo2 (j : nat) f w1 w2 a1 a2,
       wf_msg (S d) h m p1 = true → wf_msg (S d) h m p2 = true →
       p1 ≠ p2 →
       h !! p1 = Some (ObjMessage mo1) → h !! p2 = Some (ObjMessage mo2) →
       mt_fields m !! j = Some f →
       field_mode f = kUpb_FieldMode_Array →
       upb_MiniTableField_IsSubMessage f = false →
       msg_data mo1 !! j = Some (Raw w1) →
       msg_data mo2 = <[j := Raw w2]> (msg_data mo1) →
       msg_hasbits mo2 = msg_hasbits mo1 →
       load_array h (low_bytes 8 w1) = Ret a1 →
       load_array h (low_bytes 8 w2) = Ret a2 →
       arr_data a2 ≡ₚ arr_data a1 →
       elem_repr (Z.shiftl 1 (arr_elem_size_lg2 a1)) <$> arr_data a1
       ≠ elem_repr (Z.shiftl 1 (arr_elem_size_lg2 a1)) <$> arr_data a2 →
       upb_Message_IsEqual (S d) h p1 p2 m = Ret false).
Proof.
  split; [intros; apply Array_IsEqual_same|].
  split; [intros; by eapply Array_IsEqual_sizes|].
  split.
  { intros h rec arr1 arr2 m f a1 a2 Hne E1 E2 Hlen.
    rewrite (Array_IsEqual_elems h _ arr1 arr2 m f a1 a2) by done.
    by apply (all_equal_zip_true
                (array_elem_eq rec m f (arr_elem_size_lg2 a1))). }
  intros d h m p1 p2 mo1 mo2 j f w1 w2 a1 a2 Hwf1 Hwf2 Hne Hm1 Hm2
    Hf Hmode Hsub Hx Hdata Hbits Ea1 Ea2 Hperm Hdiff.
  destruct (wf_msg_open d h m p1 mo1 Hwf1 Hm1) as [E1 Hslots1].
  destruct (wf_msg_open d h m p2 mo2 Hwf2 Hm2) as [E2 Hslots2].
  simpl in Hwf1, Hwf2.
  cbn [upb_Message_IsEqual]. unfold IsEqual_body.
  rewrite bool_decide_eq_false_2 by done.
  assert (Hj : (j < length (mt_fields m))%nat) by by eapply lookup_lt_Some.
  assert (Hy : msg_data mo2 !! j = Some (Raw w2)).
  { rewrite Hdata. apply list_lookup_insert_eq. by eapply lookup_lt_Some. }
  pose proof (proj1 (load_array_Ret _ _ _) Ea1) as [Hn1 _].
  pose proof (proj1 (load_array_Ret _ _ _) Ea2) as [Hn2 _].
  (* the slots hold well-formed arrays and the field has implicit presence *)
  destruct (Hslots1 j f Hf) as (v1 & Hv1 & Hslot1).
  rewrite Hx in Hv1. injection Hv1 as <-.
  destruct (Hslots2 j f Hf) as (v2 & Hv2 & Hslot2).
  rewrite Hy in Hv2. injection Hv2 as <-.
  unfold wf_slot in Hslot1, Hslot2. rewrite Hmode in Hslot1, Hslot2.
  apply andb_true_iff in Hslot1 as [Hk%bool_decide_eq_true Hwa1].
  apply andb_true_iff in Hslot2 as [_ Hwa2].
  rewrite bool_decide_eq_false_2 in Hwa1, Hwa2 by done.
  simpl in Hwa1, Hwa2.
  (* the two arrays differ at some index *)
  assert (Hlen : length (arr_data a1) = length (arr_data a2))
    by (by rewrite Hperm).
  destruct (list_neq_lookup
              (elem_repr (Z.shiftl 1 (arr_elem_size_lg2 a1)) <$> arr_data a1)
              (elem_repr (Z.shiftl 1 (arr_elem_size_lg2 a1)) <$> arr_data a2))
    as (i & r1 & r2 & Hr1 & Hr2 & Hr); [by rewrite !length_fmap|done|].
  rewrite list_lookup_fmap in Hr1, Hr2.
  destruct (arr_data a1 !! i) as [u1|] eqn:Hu1; [|done].
  destruct (arr_data a2 !! i) as [u2|] eqn:Hu2; [|done].
  simpl in Hr1, Hr2. injection Hr1 as <-. injection Hr2 as <-.
  assert (Hpos1 : (0 < length (arr_data a1))%nat)
    by (apply lookup_lt_Some in Hu1; lia).
  assert (Hptr : low_bytes 8 w1 ≠ low_bytes 8 w2).
  { intros Heq. rewrite Heq, Ea2 in Ea1. injection Ea1 as <-. done. }
  assert (Hcmp : field_value_eq h (upb_Message_IsEqual d h) m f
                   (upb_MiniTable_GetSubMessageTable m f) (Raw w1) (Raw w2)
                 = Ret false).
  { unfold field_value_eq, upb_MiniTableField_IsArray.
    rewrite bool_decide_eq_true_2 by done. simpl.
    by eapply (Array_IsEqual_elem_differ d h m f _ _ a1 a2 i u1 u2). }
  assert (Hpres : ∀ p w a,
            load_array h (low_bytes 8 w) = Ret a →
            (0 < length (arr_data a))%nat →
            spec_field_present h p f (Raw w) = Ret true).
  { intros p w a Ea Hpos.
    pose proof (proj1 (load_array_Ret _ _ _) Ea) as [Hn _].
    unfold spec_field_present, upb_MiniTableField_HasPresence,
      upb_MiniTableField_IsArray.
    rewrite Hk, bool_decide_eq_false_2 by (intros ?; done).
    rewrite bool_decide_eq_true_2 by done. simpl.
    unfold container_nonempty, upb_Array_Size.
    rewrite bool_decide_eq_false_2, Ea by done. simpl.
    destruct (Z.ltb_spec 0 (Z.of_nat (length (arr_data a)))); [done|lia]. }
  rewrite (BaseFieldsAreEqual_one_field h (wf_msg d h) _
             (IsEqual_refl_wf d h) m p1 p2 j Hwf1 Hwf2 Hj).
  - destruct (field_present_at_slot h p1 m mo1 j f _ E1 Hf Hx)
      as (Hget & Hd1 & Hpres1).
    destruct (field_present_at_slot h p2 m mo2 j f _ E2 Hf Hy)
      as (_ & Hd2 & Hpres2).
    cbn [lockstep]. rewrite Hpres1, Hpres2.
    rewrite (Hpres p1 w1 a1), (Hpres p2 w2 a2) by (try done; lia).
    cbn [mbind result_bind]. rewrite Hget, Hd1, Hd2.
    cbn [mbind result_bind]. rewrite Hcmp. done.
  - intros j' Hj' Hne'.
    apply (field_present_at_agree h m p1 p2 mo1 mo2 j' E1 E2).
    + rewrite Hdata. by rewrite list_lookup_insert_ne.
    + intros f' k' _ _. by rewrite Hbits.
Qed.

(** ** Maps and extensions are compared by lookup *)

Lemma map_value_eq_refl `{!Collaborators} d h m f v :
  wf_value (wf_msg d h)
    (upb_MiniTable_MapValue (upb_MiniTable_GetSubMessageTable m f))
    (upb_MiniTable_GetSubMessageTable (upb_MiniTable_GetSubMessageTable m f)
       (upb_MiniTable_MapValue (upb_MiniTable_GetSubMessageTable m f)))
    v = true →
  map_value_eq (upb_Message_IsEqual d h) m f v v = Ret true.
Proof.
  intros Hv. unfold map_value_eq. cbv zeta.
  destruct (upb_MiniTableField_IsSubMessage _) eqn:Hsub.
  - apply wf_value_message in Hv as (w & -> & _ & Hw); [|done].
    simpl. by apply IsEqual_refl_wf.
  - destruct (_upb_IsStringView _) eqn:Hstr.
    + apply wf_value_string in Hv as (s & ->); [|done].
      simpl. unfold upb_StringView_IsEqual. by rewrite bool_decide_eq_true_2.
    + apply wf_value_scalar in Hv as (w & ->); [|done..].
      unfold _upb_MiniTableField_DataEquals.
      destruct (_upb_MiniTableField_GetRep _) eqn:Hrep;
        try apply memcmp_eq_refl.
      unfold _upb_MiniTableField_GetRep, _upb_IsStringView,
        upb_MiniTableField_CType in *.
      destruct (field_mode _), (field_ctype _); simpl in *; done.
Qed.

Lemma map_lookup_NoDup key v entries :
  NoDup entries.*1 → (key, v) ∈ entries → map_lookup key entries = Some v.
Proof.
  intros Hnd Hin. unfold map_lookup.
  change (find _ entries) with (assoc_find fst (fst (key, v)) entries).
  by rewrite assoc_find_NoDup.
Qed.

(** C3. Map comparison answers true at once on identical handles and false
    when the sizes differ.  On two well-formed maps it returns, and it answers
    true iff the sizes agree and every key of the first map is found in the
    second with a value that compares equal; so it answers false when a key
    of the first map is absent from the second or maps to a value that
    compares unequal.  Two maps that hold the same entries in any two
    traversal orders compare equal. *)
Theorem Map_IsEqual_order_independent `{!Collaborators} :
  (∀ h IsEqual_rec map m f,
     _upb_Map_IsEqual h IsEqual_rec map map m f = Ret true)
  ∧ (∀ h IsEqual_rec map1 map2 m f n1 n2,
       map1 ≠ map2 →
       handle_size upb_Map_Size h map1 = Ret n1 →
       handle_size upb_Map_Size h map2 = Ret n2 →
       n1 ≠ n2 →
       _upb_Map_IsEqual h IsEqual_rec map1 map2 m f = Ret false)
  ∧ (∀ d h m f map1 map2 mp1 mp2,
       wf_map h (wf_msg d h) m f map1 = true →
       wf_map h (wf_msg d h) m f map2 = true →
       map1 ≠ map2 →
       load_map h map1 = Ret mp1 → load_map h map2 = Ret mp2 →
       ∃ b, _upb_Map_IsEqual h (upb_Message_IsEqual d h) map1 map2 m f = Ret b
         ∧ (b = true ↔
            length (map_entries mp1) = length (map_entries mp2)
            ∧ ∀ key val1, (key, val1) ∈ map_entries mp1 →
                ∃ val2, map_lookup key (map_entries mp2) = Some val2
                  ∧ map_value_eq (upb_Message_IsEqual d h) m f val1 val2
                    = Ret true))
  ∧ (∀ d h m f map1 map2 mp1 mp2,
       wf_map h (wf_msg d h) m f map1 = true →
       wf_map h (wf_msg d h) m f map2 = true →
       load_map h map1 = Ret mp1 → load_map h map2 = Ret mp2 →
       map_entries mp1 ≡ₚ map_entries mp2 →
       _upb_Map_IsEqual h (upb_Message_IsEqual d h) map1 map2 m f = Ret true).
Proof.
  split; [intros; apply Map_IsEqual_same|].
  split; [intros; by eapply Map_IsEqual_sizes|].
  split.
  - intros d h m f map1 map2 mp1 mp2 Hwf1 Hwf2 Hne E1 E2.
    destruct (Map_IsEqual_total h (wf_msg d h) (upb_Message_IsEqual d h)
                (λ sub q1 q2, IsEqual_total d h sub q1 q2) m f map1 map2
                Hwf1 Hwf2) as [b Hb].
    exists b. split; [done|].
    apply wf_map_inv in Hwf1 as (mp1' & E1' & Hsz1 & _).
    rewrite E1 in E1'. injection E1' as <-.
    pose proof (proj1 (load_map_Ret _ _ _) E1) as [Hp1 _].
    pose proof (proj1 (load_map_Ret _ _ _) E2) as [Hp2 _].
    destruct (decide (length (map_entries mp1) = length (map_entries mp2)))
      as [Hlen|Hlen].
    + rewrite (Map_IsEqual_entries h _ map1 map2 m f mp1 mp2) in Hb by done.
      split.
      * intros ->. split; [done|]. intros key val1 Hin.
        apply all_equal_true in Hb.
        apply (proj1 (Forall_forall _ _) Hb) in Hin. simpl in Hin.
        destruct (map_lookup key (map_entries mp2)) as [val2|]; [eauto|done].
      * intros [_ Hall]. destruct b; [done|].
        enough (Ret false = Ret true :> result bool) by done.
        rewrite <- Hb. apply all_equal_true, Forall_forall.
        intros [key val1] Hin. simpl.
        destruct (Hall key val1 Hin) as (val2 & -> & Hv). done.
    + rewrite (Map_IsEqual_sizes h _ map1 map2 m f
                 (Z.of_nat (length (map_entries mp1)))
                 (Z.of_nat (length (map_entries mp2)))) in Hb; try done.
      * injection Hb as <-. split; [done|]. intros [? _]. done.
      * unfold handle_size, upb_Map_Size.
        rewrite bool_decide_eq_true_2, E1 by done. done.
      * unfold handle_size, upb_Map_Size.
        rewrite bool_decide_eq_true_2, E2 by done. done.
      * lia.
  - intros d h m f map1 map2 mp1 mp2 Hwf1 Hwf2 E1 E2 Hperm.
    destruct (decide (map1 = map2)) as [->|Hne]; [apply Map_IsEqual_same|].
    apply wf_map_inv in Hwf1 as (mp1' & E1' & Hsz1 & Hnd1 & Hall1).
    apply wf_map_inv in Hwf2 as (mp2' & E2' & Hsz2 & Hnd2 & Hall2).
    rewrite E1 in E1'. injection E1' as <-.
    rewrite E2 in E2'. injection E2' as <-.
    rewrite (Map_IsEqual_entries h _ map1 map2 m f mp1 mp2);
      [|done|done|done|by apply Permutation_length|done].
    apply all_equal_true, Forall_forall. intros [key val1] Hin. simpl.
    rewrite (map_lookup_NoDup key val1) by (by rewrite <- ?Hperm).
    apply map_value_eq_refl.
    apply (proj1 (Forall_forall _ _) Hall1 _ Hin).
Qed.

(** The comparison of extensions, in terms of the dispatch of the code
    ([field_value_eq], which compares the elements of a repeated extension
    and the entries of a map extension under the descriptor looked up in the
    extended message).  On two well-formed messages it returns, and it
    answers true iff the extension counts agree and every extension of the
    first message has, in the second, an extension of the identical
    descriptor whose value compares equal under that dispatch.  So two
    messages that carry the same extensions in two different storage orders,
    and agree otherwise, compare equal; and two messages of which the first
    carries an extension whose descriptor the second does not carry compare
    unequal, also when the counts agree. *)
Lemma ExtensionsAreEqual_order_independent `{!Collaborators} :
  (∀ d h m p1 p2 mo1 mo2,
     wf_msg (S d) h m p1 = true → wf_msg (S d) h m p2 = true →
     load_msg h p1 = Ret mo1 → load_msg h p2 = Ret mo2 →
     ∃ b, _upb_Message_ExtensionsAreEqual h (upb_Message_IsEqual d h) p1 p2 m
          = Ret b
       ∧ (b = true ↔
          length (msg_exts mo1) = length (msg_exts mo2)
          ∧ ∀ x1, x1 ∈ msg_exts mo1 →
              ∃ x2, ext_lookup (ext x1) (msg_exts mo2) = Some x2
                ∧ field_value_eq h (upb_Message_IsEqual d h) m
                    (ext_field (ext x1)) (ext_sub (ext x1))
                    (data x1) (data x2) = Ret true))
  ∧ (∀ d h m p1 p2 mo1 mo2,
       wf_msg (S d) h m p1 = true → wf_msg (S d) h m p2 = true →
       load_msg h p1 = Ret mo1 → load_msg h p2 = Ret mo2 →
       msg_exts mo1 ≡ₚ msg_exts mo2 →
       msg_data mo2 = msg_data mo1 →
       msg_hasbits mo2 = msg_hasbits mo1 →
       msg_unknown mo2 = msg_unknown mo1 →
       _upb_Message_UnknownFieldsAreEqual (msg_unknown mo1) (msg_unknown mo1)
         100 = kUpb_UnknownCompareResult_Equal →
       upb_Message_IsEqual (S d) h p1 p2 m = Ret true)
  ∧ (∀ d h m p1 p2 mo1 mo2 x1,
       wf_msg (S d) h m p1 = true → wf_msg (S d) h m p2 = true →
       p1 ≠ p2 →
       load_msg h p1 = Ret mo1 → load_msg h p2 = Ret mo2 →
       x1 ∈ msg_exts mo1 → ext x1 ∉ ext <$> msg_exts mo2 →
       _upb_Message_ExtensionsAreEqual h (upb_Message_IsEqual d h) p1 p2 m
       = Ret false
       ∧ upb_Message_IsEqual (S d) h p1 p2 m = Ret false).
Proof.
  assert (Hiff : ∀ d h m p1 p2 mo1 mo2,
     wf_msg (S d) h m p1 = true → wf_msg (S d) h m p2 = true →
     load_msg h p1 = Ret mo1 → load_msg h p2 = Ret mo2 →
     ∃ b, _upb_Message_ExtensionsAreEqual h (upb_Message_IsEqual d h) p1 p2 m
          = Ret b
       ∧ (b = true ↔
          length (msg_exts mo1) = length (msg_exts mo2)
          ∧ ∀ x1, x1 ∈ msg_exts mo1 →
              ∃ x2, ext_lookup (ext x1) (msg_exts mo2) = Some x2
                ∧ field_value_eq h (upb_Message_IsEqual d h) m
                    (ext_field (ext x1)) (ext_sub (ext x1))
                    (data x1) (data x2) = Ret true)).
  { intros d h m p1 p2 mo1 mo2 Hwf1 Hwf2 E1 E2. simpl in Hwf1, Hwf2.
    destruct (ExtensionsAreEqual_total h (wf_msg d h)
                (upb_Message_IsEqual d h)
                (λ sub q1 q2, IsEqual_total d h sub q1 q2) m p1 p2
                Hwf1 Hwf2) as [b Hb].
    exists b. split; [done|].
    apply wf_message_inv in Hwf1 as (mo1' & E1' & _ & _ & Hsz1 & _).
    rewrite E1 in E1'. injection E1' as <-.
    destruct (decide (length (msg_exts mo1) = length (msg_exts mo2)))
      as [Hlen|Hlen].
    - rewrite (ExtensionsAreEqual_exts h _ p1 p2 m mo1 mo2) in Hb by done.
      split.
      + intros ->. split; [done|]. intros x1 Hin.
        apply all_equal_true in Hb.
        apply (proj1 (Forall_forall _ _) Hb) in Hin.
        destruct (ext_lookup (ext x1) (msg_exts mo2)) as [x2|]; [eauto|done].
      + intros [_ Hall]. destruct b; [done|].
        enough (Ret false = Ret true :> result bool) by done.
        rewrite <- Hb. apply all_equal_true, Forall_forall. intros x1 Hin.
        destruct (Hall x1 Hin) as (x2 & -> & Hv). done.
    - rewrite (ExtensionsAreEqual_counts h _ p1 p2 m mo1 mo2) in Hb by done.
      injection Hb as <-. split; [done|]. intros [? _]. done. }
  split; [exact Hiff|]. split.
  - intros d h m p1 p2 mo1 mo2 Hwf1 Hwf2 E1 E2 Hperm Hdata Hbits Hunk Hcmp.
    destruct (decide (p1 = p2)) as [->|Hne]; [apply IsEqual_same|].
    simpl in Hwf1, Hwf2.
    cbn [upb_Message_IsEqual]. unfold IsEqual_body.
    rewrite bool_decide_eq_false_2 by done.
    rewrite (BaseFieldsAreEqual_agree h (wf_msg d h) _
               (IsEqual_refl_wf d h) m p1 p2 Hwf1 Hwf2).
    + cbn [mbind result_bind negb].
      rewrite (ExtensionsAreEqual_Permutation h (wf_msg d h) _
                 (IsEqual_refl_wf d h) m p1 p2 mo1 mo2) by done.
      cbn [mbind result_bind negb].
      unfold upb_Message_GetUnknown. rewrite E1, E2. simpl.
      rewrite Hunk, Hcmp. by rewrite bool_decide_eq_true_2.
    + intros j' Hj'.
      destruct (field_present_at_agree h m p1 p2 mo1 mo2 j' E1 E2)
        as [Hp Hd].
      * by rewrite Hdata.
      * intros f' k' _ _. by rewrite Hbits.
      * split; [done|by intros _].
  - intros d h m p1 p2 mo1 mo2 x1 Hwf1 Hwf2 Hne E1 E2 Hin Hnot.
    assert (Hexts : _upb_Message_ExtensionsAreEqual h
                      (upb_Message_IsEqual d h) p1 p2 m = Ret false).
    { destruct (Hiff d h m p1 p2 mo1 mo2 Hwf1 Hwf2 E1 E2)
        as ([] & Hb & Hchar); [|done].
      destruct (proj1 Hchar eq_refl) as [_ Hall].
      destruct (Hall x1 Hin) as (x2 & Hl & _).
      apply ext_lookup_Some in Hl as [Hin2 Hext].
      destruct Hnot. rewrite <- Hext. by apply list_elem_of_fmap_2. }
    split; [done|]. simpl in Hwf1, Hwf2.
    cbn [upb_Message_IsEqual]. unfold IsEqual_body.
    rewrite bool_decide_eq_false_2 by done.
    destruct (BaseFieldsAreEqual_total h (wf_msg d h)
                (upb_Message_IsEqual d h)
                (λ sub q1 q2, IsEqual_total d h sub q1 q2) m p1 p2
                Hwf1 Hwf2) as [b ->].
    cbn [mbind result_bind]. destruct b; [|done]. cbn [negb].
    rewrite Hexts. done.
Qed.

(** ** Symmetry of the canonical-form comparison *)

Lemma IsExactlyEqual_sym `{!Collaborators} (h : heap) (msg1 msg2 : ptr)
  (m : upb_MiniTable) (s : allocator) :
  upb_Message_IsExactlyEqual h msg1 msg2 m s
  = upb_Message_IsExactlyEqual h msg2 msg1 m s.
Proof.
  unfold upb_Message_IsExactlyEqual.
  destruct (decide (msg1 = msg2)) as [->|Hne]; [done|].
  rewrite !bool_decide_eq_false_2 by done. simpl.
  set (opts := Z.lor _ _).
  destruct (upb_Encode h msg1 m opts (fresh s)) as [st1 d1].
  destruct (upb_Encode h msg2 m opts (fresh s)) as [st2 d2].
  rewrite (orb_comm (bool_decide (st2 ≠ _))).
  destruct (_ || _); [done|]. f_equal.
  destruct (decide (length d1 = length d2)) as [Hlen|Hlen].
  - rewrite (bool_decide_eq_true_2 (length d1 = length d2)) by done.
    rewrite (bool_decide_eq_true_2 (length d2 = length d1)) by done.
    rewrite (take_ge d1 (length d1)), (take_ge d2 (length d2)) by lia.
    rewrite (take_ge d2 (length d1)), (take_ge d1 (length d2)) by lia.
    simpl. apply bool_decide_ext. split; done.
  - rewrite (bool_decide_eq_false_2 (length d1 = length d2)) by done.
    rewrite (bool_decide_eq_false_2 (length d2 = length d1)) by congruence.
    done.
Qed.

(** * The claims on the example heap *)

Section Witnesses.
Import Example.
Local Existing Instance collaborators.

Lemma IsExactlyEqual_encode_failure_witness :
  live (upb_Message_IsExactlyEqual example_heap 16 999 m_example
          example_allocator).2 = [1; 2]
  ∧ (upb_Message_IsExactlyEqual example_heap 16 999 m_example
       example_allocator).1 = false.
Proof.
  destruct (IsExactlyEqual_encode_failure example_heap 16 999 m_example
              example_allocator) as [Hlive Hfalse].
  - vm_compute. intros Hin. repeat (apply elem_of_cons in Hin as [Hin|Hin];
      [discriminate|]). by apply elem_of_nil in Hin.
  - split; [exact Hlive|]. apply Hfalse; [discriminate|].
    right. vm_compute. discriminate.
Defined.

Lemma IsEmpty_spec_witness :
  upb_Message_IsEmpty
    (<[32 := ObjMessage (set_unknown [Byte.x0a; Byte.x01] msg_B)]> example_heap)
    32 m_example = Ret true.
Proof.
  destruct (IsEmpty_spec example_heap 32 m_example) as [Hiff Hunknown].
  refine (eq_trans (Hunknown msg_B [Byte.x0a; Byte.x01] eq_refl) _).
  apply Hiff. split; reflexivity.
Defined.

Lemma Array_IsEqual_null_first_scalar_witness :
  _upb_Array_IsEqual example_heap (upb_Message_IsEqual 0 example_heap)
    NULL 128 m_example f_tags = Fault NullDeref
  ∧ _upb_Array_IsEqual example_heap (upb_Message_IsEqual 0 example_heap)
      128 NULL m_example f_tags = Ret true.
Proof.
  apply (Array_IsEqual_null_first_scalar example_heap _ 128
           {| arr_elem_size_lg2 := 2; arr_data := [] |} m_example f_tags);
    reflexivity.
Defined.

Lemma NextBaseField_presence_witness :
  upb_Message_NextBaseField example_heap 16 m_example kUpb_BaseField_Begin
  = Ret (Some (f_id, Raw 0, 0))
  ∧ upb_Message_NextBaseField example_heap 32 m_example kUpb_BaseField_Begin
    = Ret None
  ∧ upb_Message_IsEqual 1 example_heap 16 32 m_example = Ret false
  ∧ upb_Message_IsEqual 1 example_heap 16 48 m_example = Ret true.
Proof.
  destruct NextBaseField_presence as (Hyield & Hnone & Hexplicit & Himplicit).
  split; [|split; [|split]].
  - apply Hyield; [reflexivity|].
    split; [change (size_t_incr kUpb_BaseField_Begin) with 0;
            change (upb_MiniTable_FieldCount m_example) with 4; lia|].
    repeat split; try reflexivity.
    intros j Hj. change (size_t_incr kUpb_BaseField_Begin) with 0 in Hj. lia.
  - apply Hnone; [reflexivity|]. intros j [Hlo Hhi].
    change (size_t_incr kUpb_BaseField_Begin) with 0 in Hlo.
    change (upb_MiniTable_FieldCount m_example) with 4 in Hhi.
    assert (j = 0 ∨ j = 1 ∨ j = 2 ∨ j = 3) as [->|[->|[->| ->]]] by lia;
      reflexivity.
  - apply (Hexplicit 0%nat example_heap m_example 16 32 msg_A msg_B 0%nat
             f_id 0%nat); try reflexivity. discriminate.
  - apply (Himplicit 0%nat example_heap m_example 16 48 msg_A msg_A 1%nat
             f_ratio (Raw 0) (Raw 0)); reflexivity.
Defined.

Lemma scalar_bit_pattern_equality_witness :
  _upb_MiniTableField_DataEquals f_ratio (Raw float_nan)
    (Raw float_nan_payload) = Ret false
  ∧ upb_Message_IsEqual 1 example_heap 160 272 m_example = Ret true
  ∧ upb_Message_IsEqual 1 example_heap 160 176 m_example = Ret false
  ∧ upb_Message_IsEqual 1 example_heap 16 56 m_example = Ret false
  ∧ _upb_Array_IsEqual example_heap (upb_Message_IsEqual 0 example_heap)
      64 104 m_example f_tags = Ret true
  ∧ _upb_Array_IsEqual example_heap (upb_Message_IsEqual 0 example_heap)
      64 72 m_example f_tags = Ret false.
Proof.
  destruct scalar_bit_pattern_equality
    as (Hbits & Hequal & Hfield & Hwords & Harray).
  split; [|split; [|split; [|split; [|split]]]].
  - rewrite Hbits by discriminate. reflexivity.
  - rewrite (Hequal 0%nat example_heap m_example 160 272 msg_D msg_W 1%nat
               f_ratio float_nan (float_nan + 2 ^ 32));
      try reflexivity; try discriminate.
  - apply (Hfield 0%nat example_heap m_example 160 176 msg_D msg_E 1%nat
             f_ratio float_nan float_nan_payload); try reflexivity;
      try discriminate.
  - apply (Hfield 0%nat example_heap m_example 16 56 msg_A msg_Z 1%nat
             f_ratio 0 float_neg_zero); try reflexivity; try discriminate.
  - rewrite (Hwords example_heap (upb_Message_IsEqual 0 example_heap)
               m_example f_tags 64 104
               {| arr_elem_size_lg2 := 2; arr_data := [Raw 1; Raw 2] |}
               {| arr_elem_size_lg2 := 2;
                  arr_data := [Raw (1 + 2 ^ 32); Raw 2] |}
               [1; 2] [1 + 2 ^ 32; 2]);
      try reflexivity; try discriminate.
  - apply (Harray 0%nat example_heap m_example f_tags 64 72
             {| arr_elem_size_lg2 := 2; arr_data := [Raw 1; Raw 2] |}
             {| arr_elem_size_lg2 := 2; arr_data := [Raw 2; Raw 1] |}
             0%nat 1 2); try reflexivity; try discriminate.
Defined.

Lemma Array_IsEqual_positional_witness :
  _upb_Array_IsEqual example_heap (upb_Message_IsEqual 0 example_heap)
    64 128 m_example f_tags = Ret false
  ∧ _upb_Array_IsEqual example_heap (upb_Message_IsEqual 0 example_heap)
      64 72 m_example f_tags ≠ Ret true
  ∧ upb_Message_IsEqual 1 example_heap 160 192 m_example = Ret false.
Proof.
  destruct Array_IsEqual_positional as (Hsame & Hsizes & Helems & Hreorder).
  split; [|split].
  - apply (Hsizes example_heap _ 64 128 m_example f_tags 2 0);
      try reflexivity; discriminate.
  - assert (Hne : (64 : ptr) ≠ 72) by discriminate.
    destruct (Helems example_heap (upb_Message_IsEqual 0 example_heap) 64 72
                m_example f_tags
                {| arr_elem_size_lg2 := 2; arr_data := [Raw 1; Raw 2] |}
                {| arr_elem_size_lg2 := 2; arr_data := [Raw 2; Raw 1] |}
                Hne eq_refl eq_refl eq_refl) as [Hall _].
    intros Htrue.
    specialize (Hall Htrue 0%nat (Raw 1) (Raw 2) eq_refl eq_refl).
    vm_compute in Hall. discriminate.
  - apply (Hreorder 0%nat example_heap m_example 160 192 msg_D msg_F 2%nat
             f_tags 64 72
             {| arr_elem_size_lg2 := 2; arr_data := [Raw 1; Raw 2] |}
             {| arr_elem_size_lg2 := 2; arr_data := [Raw 2; Raw 1] |});
      try reflexivity; try discriminate.
    apply Permutation_swap.
Defined.

Lemma Map_IsEqual_order_independent_witness :
  _upb_Map_IsEqual example_heap (upb_Message_IsEqual 0 example_heap)
    80 88 m_example f_attrs = Ret true
  ∧ (∀ key val1, (key, val1) ∈ [(Raw 1, Raw 10); (Raw 2, Raw 20)] →
       ∃ val2, map_lookup key [(Raw 2, Raw 20); (Raw 1, Raw 10)] = Some val2
         ∧ map_value_eq (upb_Message_IsEqual 0 example_heap) m_example f_attrs
             val1 val2 = Ret true)
  ∧ _upb_Map_IsEqual example_heap (upb_Message_IsEqual 0 example_heap)
      80 96 m_example f_attrs = Ret false.
Proof.
  destruct Map_IsEqual_order_independent as (Hsame & Hsizes & Hiff & Hperm).
  assert (Htrue : _upb_Map_IsEqual example_heap
                    (upb_Message_IsEqual 0 example_heap) 80 88 m_example
                    f_attrs = Ret true).
  { apply (Hperm 0%nat example_heap m_example f_attrs 80 88
             {| map_entries := [(Raw 1, Raw 10); (Raw 2, Raw 20)] |}
             {| map_entries := [(Raw 2, Raw 20); (Raw 1, Raw 10)] |});
      try reflexivity.
    apply Permutation_swap. }
  split; [exact Htrue|split].
  - destruct (Hiff 0%nat example_heap m_example f_attrs 80 88
                {| map_entries := [(Raw 1, Raw 10); (Raw 2, Raw 20)] |}
                {| map_entries := [(Raw 2, Raw 20); (Raw 1, Raw 10)] |})
      as (b & Hb & Hchar); try reflexivity; try discriminate.
    rewrite Htrue in Hb. injection Hb as <-.
    exact (proj2 (proj1 Hchar eq_refl)).
  - apply (Hsizes example_heap _ 80 96 m_example f_attrs 2 1);
      try reflexivity; discriminate.
Defined.

(** C9. Symmetry of [upb_Message_IsEqual] fails on two messages that carry
    the same repeated scalar extension, as a null array in the one and as an
    empty array in the other: with the null array first the comparison of
    arrays reads the element width through the null handle, with the empty
    array first it answers true. *)
Theorem IsEqual_null_extension_array_asymmetric (fuel : nat) :
  upb_Message_IsEqual (S fuel) example_heap 240 256 m_example
  = Fault NullDeref
  ∧ upb_Message_IsEqual (S fuel) example_heap 256 240 m_example = Ret true.
Proof. split; reflexivity. Qed.
End Witnesses.

(** * Further properties of the comparison core *)

(** ** What the iterators enumerate *)

Lemma collect_unfold {A : Type} n (next : Z → result (option (A * Z))) iter :
  collect (S n) next iter
  = (r ← next iter;
     match r with
     | None => Ret []
     | Some (a, iter') => l ← collect n next iter'; Ret (a :: l)
     end).
Proof. reflexivity. Qed.

Lemma collect_drop {A : Type} (l : list A)
  (next : Z → result (option (A * Z))) :
  Z.of_nat (length l) < size_t_modulus →
  (∀ iter, next iter = Ret (list_cursor l iter)) →
  ∀ (n : nat) (iter : Z),
    (length l - Z.to_nat (size_t_incr iter) < n)%nat →
    collect n next iter = Ret (drop (Z.to_nat (size_t_incr iter)) l).
Proof.
  intros Hlen Hnext n. induction n as [|n IH]; intros iter Hn; [lia|].
  rewrite collect_unfold, Hnext. cbn [mbind result_bind]. unfold list_cursor.
  pose proof (size_t_incr_range iter) as Hr.
  set (i := size_t_incr iter) in *.
  destruct (Z.ltb_spec i (Z.of_nat (length l))) as [Hlt|Hge].
  - destruct (l !! Z.to_nat i) as [a|] eqn:Ea.
    2:{ apply lookup_ge_None in Ea. lia. }
    rewrite (drop_S _ _ _ Ea), IH.
    + rewrite size_t_incr_small by lia. cbn [mbind result_bind].
      do 3 f_equal. lia.
    + rewrite size_t_incr_small by lia. lia.
  - rewrite drop_ge by lia. done.
Qed.

Lemma present_field_true h msg m (j : nat) f v :
  field_present_at h msg m (Z.of_nat j) = Ret true →
  upb_MiniTable_GetFieldByIndex m (Z.of_nat j) = Ret f →
  _upb_Message_DataPtr h msg (Z.of_nat j) = Ret v →
  present_field h msg m j = Some (f, v, Z.of_nat j).
Proof. intros Hp Hf Hv. unfold present_field. by rewrite Hp, Hf, Hv. Qed.

Lemma present_field_false h msg m (j : nat) :
  field_present_at h msg m (Z.of_nat j) = Ret false →
  present_field h msg m j = None.
Proof. intros Hp. unfold present_field. by rewrite Hp. Qed.

Lemma base_field_walk_from h msg m :
  in_size_t (length (mt_fields m)) = true →
  readable h msg m →
  ∀ (k n : nat) (iter : Z),
    (Z.to_nat (size_t_incr iter) + k = length (mt_fields m))%nat →
    (k < n)%nat →
    collect n
      (λ iter,
         r ← upb_Message_NextBaseField h msg m iter;
         Ret (match r with
              | Some (f, v, iter') => Some ((f, v, iter'), iter')
              | None => None
              end)) iter
    = Ret (omap (present_field h msg m) (seq (Z.to_nat (size_t_incr iter)) k)).
Proof.
  intros Hsz Hr k. pose proof (proj1 (in_size_t_spec _) Hsz) as Hsz'.
  induction k as [|k IH]; intros n iter Hk Hn.
  - destruct n as [|n]; [lia|]. rewrite collect_unfold.
    rewrite NextBaseField_first_present by done.
    replace (length (mt_fields m) - Z.to_nat (size_t_incr iter))%nat
      with 0%nat by lia. done.
  - destruct n as [|n]; [lia|]. rewrite collect_unfold.
    rewrite NextBaseField_first_present by done.
    pose proof (size_t_incr_range iter) as Hrange.
    set (s := Z.to_nat (size_t_incr iter)) in *.
    replace (length (mt_fields m) - s)%nat with (S k) by lia.
    cbn [seq first_present omap list_omap].
    destruct (Hr s) as [b E]; [lia|]. rewrite E. cbn [mbind result_bind].
    assert (Hnext : size_t_incr (Z.of_nat s) = Z.of_nat (S s)).
    { rewrite size_t_incr_small by lia. lia. }
    destruct b.
    + destruct (field_present_at_Ret _ _ _ _ _ E) as (f & v & Ef & Ev & _).
      rewrite Ef, Ev. cbn [mbind result_bind].
      rewrite (present_field_true h msg m s f v) by done.
      rewrite (IH n (Z.of_nat s)).
      * rewrite Hnext, Nat2Z.id. done.
      * rewrite Hnext, Nat2Z.id. lia.
      * lia.
    + rewrite (present_field_false h msg m s) by done.
      transitivity
        (collect (S n)
           (λ iter,
              r ← upb_Message_NextBaseField h msg m iter;
              Ret (match r with
                   | Some (f, v, iter') => Some ((f, v, iter'), iter')
                   | None => None
                   end)) (Z.of_nat s)).
      * rewrite collect_unfold.
        rewrite NextBaseField_first_present by done.
        rewrite Hnext, Nat2Z.id.
        replace (length (mt_fields m) - S s)%nat with k by lia. done.
      * rewrite (IH (S n) (Z.of_nat s)).
        -- rewrite Hnext, Nat2Z.id. done.
        -- rewrite Hnext, Nat2Z.id. lia.
        -- lia.
Qed.

Lemma elem_of_present_fields h msg m f v i :
  (f, v, i) ∈ present_fields h msg m ↔
  0 ≤ i < upb_MiniTable_FieldCount m
  ∧ upb_MiniTable_GetFieldByIndex m i = Ret f
  ∧ _upb_Message_DataPtr h msg i = Ret v
  ∧ spec_field_present h msg f v = Ret true.
Proof.
  unfold present_fields, upb_MiniTable_FieldCount.
  rewrite list_elem_of_omap. split.
  - intros (j & Hj%elem_of_seq & Hpf). unfold present_field in Hpf.
    destruct (field_present_at h msg m (Z.of_nat j)) as [[]| |] eqn:Ep;
      try discriminate.
    destruct (field_present_at_Ret _ _ _ _ _ Ep) as (f' & v' & Ef & Ev & Hp).
    rewrite Ef, Ev in Hpf. injection Hpf as <- <- <-.
    repeat split; try done; lia.
  - intros (Hi & Hf & Hv & Hp). exists (Z.to_nat i). split.
    + apply elem_of_seq. lia.
    + unfold present_field, field_present_at.
      rewrite Z2Nat.id by lia. rewrite Hf, Hv. cbn [mbind result_bind].
      by rewrite Hp.
Qed.

Lemma present_field_index h msg m (j : nat) f v i :
  present_field h msg m j = Some (f, v, i) → i = Z.of_nat j.
Proof.
  unfold present_field.
  destruct (field_present_at _ _ _ _) as [[]| |]; try discriminate.
  destruct (upb_MiniTable_GetFieldByIndex _ _) as [?| |]; try discriminate.
  destruct (_upb_Message_DataPtr _ _ _) as [?| |]; try discriminate.
  by intros [= _ _ <-].
Qed.

Lemma present_fields_ascending h msg m (s k : nat) :
  let l := omap (present_field h msg m) (seq s k) in
  (∀ x, x ∈ l → Z.of_nat s ≤ x.2)
  ∧ ∀ (a b : nat) x y, l !! a = Some x → l !! b = Some y → (a < b)%nat →
      x.2 < y.2.
Proof.
  revert s. induction k as [|k IH]; intros s; cbn [seq omap list_omap].
  - split; [intros x Hx; by apply elem_of_nil in Hx|intros a b x y Hx; done].
  - destruct (IH (S s)) as [Hlo Hasc].
    destruct (present_field h msg m s) as [[[f v] i]|] eqn:Hpf.
    + apply present_field_index in Hpf as ->. split.
      * intros x [->|Hx%Hlo]%elem_of_cons; simpl; lia.
      * intros [|a] [|b] x y Hx Hy Hab; simplify_eq/=; try lia.
        -- apply list_elem_of_lookup_2, Hlo in Hy. lia.
        -- apply (Hasc a b); [done|done|lia].
    + split; [|exact Hasc]. intros x Hx%Hlo. lia.
Qed.

(** X1. Driving [upb_Message_NextBaseField] from [kUpb_BaseField_Begin] until
    it answers false visits exactly the present fields of the message, each
    once, by ascending field index: the walk returns [present_fields], whose
    indices are strictly increasing and whose members are the fields for
    which the presence test holds. *)
Theorem base_field_walk_enumerates (h : heap) (msg : ptr) (m : upb_MiniTable) :
  in_size_t (length (mt_fields m)) = true →
  readable h msg m →
  base_field_walk h msg m = Ret (present_fields h msg m)
  ∧ (∀ (a b : nat) x y,
       present_fields h msg m !! a = Some x →
       present_fields h msg m !! b = Some y → (a < b)%nat → x.2 < y.2)
  ∧ ∀ f v i, (f, v, i) ∈ present_fields h msg m ↔
      0 ≤ i < upb_MiniTable_FieldCount m
      ∧ upb_MiniTable_GetFieldByIndex m i = Ret f
      ∧ _upb_Message_DataPtr h msg i = Ret v
      ∧ spec_field_present h msg f v = Ret true.
Proof.
  intros Hsz Hr. split; [|split].
  - unfold base_field_walk, present_fields.
    rewrite (base_field_walk_from h msg m Hsz Hr (length (mt_fields m)));
      [done|done|lia].
  - apply (present_fields_ascending h msg m 0).
  - apply elem_of_present_fields.
Qed.

(** X2. One call of [upb_Message_NextExtension] with cursor [iter] yields
    the stored extension of index [iter + 1] (the increment wrapping around
    at the width of [size_t], so that [kUpb_Extension_Begin] leads to index
    0) with that index as the new cursor, and nothing when that index is not
    below the extension count.  Driving it from [kUpb_Extension_Begin] until
    it answers false visits every stored extension of the message once, in
    storage order, whatever the descriptor argument. *)
Theorem extension_walk_enumerates (h : heap) (msg : ptr) (m : upb_MiniTable)
  (mo : upb_Message) :
  load_msg h msg = Ret mo →
  in_size_t (length (msg_exts mo)) = true →
  (∀ iter,
     upb_Message_NextExtension h msg m iter
     = Ret (match list_cursor (msg_exts mo) iter with
            | Some (x, i) => Some (ext x, data x, i)
            | None => None
            end))
  ∧ extension_walk h msg m = Ret ((λ x, (ext x, data x)) <$> msg_exts mo).
Proof.
  intros E Hsz%in_size_t_spec. split.
  - intros iter.
    unfold upb_Message_NextExtension, _upb_Message_Getexts, list_cursor.
    rewrite E. cbn [mbind result_bind].
    destruct (_ <? _) eqn:Hlt; [|done].
    destruct (msg_exts mo !! _) as [x|] eqn:El; [done|].
    apply lookup_ge_None in El. apply Z.ltb_lt in Hlt.
    pose proof (size_t_incr_range iter). lia.
  - unfold extension_walk.
    unfold upb_Message_ExtensionCount, _upb_Message_Getexts. rewrite E.
    cbn [mbind result_bind]. rewrite Nat2Z.id.
    rewrite (collect_drop ((λ x, (ext x, data x)) <$> msg_exts mo)).
    + done.
    + by rewrite length_fmap.
    + intros iter. by apply NextExtension_cursor.
    + rewrite length_fmap. lia.
Qed.

(** ** The comparison of base fields, field by field *)

Section FieldByField.
Context `{!Collaborators}.
Variable h : heap.
Variable IsEqual_rec : ptr → ptr → upb_MiniTable → result bool.

Lemma lockstep_true p1 p2 m js :
  lockstep h IsEqual_rec p1 p2 m js = Ret true ↔
  Forall (field_agrees h IsEqual_rec p1 p2 m) js.
Proof.
  induction js as [|j js IH]; cbn [lockstep]; [split; auto|].
  rewrite Forall_cons, <- IH. unfold field_agrees.
  destruct (field_present_at h p1 m (Z.of_nat j)) as [b1| |];
    cbn [mbind result_bind].
  2,3: split; [done|intros [[[? _]|[? _]] _]; done].
  destruct (field_present_at h p2 m (Z.of_nat j)) as [b2| |];
    cbn [mbind result_bind].
  2,3: split; [destruct b1; done|intros [[[_ ?]|(_ & ? & _)] _]; done].
  destruct b1, b2.
  - destruct (upb_MiniTable_GetFieldByIndex m (Z.of_nat j)) as [f| |];
      cbn [mbind result_bind].
    2,3: split; [done|intros [[[? _]|(_ & _ & ? & ? & ? & ? & _)] _]; done].
    destruct (_upb_Message_DataPtr h p1 (Z.of_nat j)) as [v1| |];
      cbn [mbind result_bind].
    2,3: split; [done|intros [[[? _]|(_ & _ & ? & ? & ? & _ & ? & _)] _]; done].
    destruct (_upb_Message_DataPtr h p2 (Z.of_nat j)) as [v2| |];
      cbn [mbind result_bind].
    2,3: split;
      [done|intros [[[? _]|(_ & _ & ? & ? & ? & _ & _ & ? & _)] _]; done].
    destruct (field_value_eq h IsEqual_rec m f _ v1 v2) as [[]| |] eqn:E;
      cbn [mbind result_bind].
    + split; [intros Hl; split; [right; eauto 10|done]|intros [_ Hl]; done].
    + split; [done|].
      intros [[[? _]|(_ & _ & f' & v1' & v2' & [= <-] & [= <-] & [= <-] & E')] _];
        [done|congruence].
    + split; [done|].
      intros [[[? _]|(_ & _ & f' & v1' & v2' & [= <-] & [= <-] & [= <-] & E')] _];
        [done|congruence].
    + split; [done|].
      intros [[[? _]|(_ & _ & f' & v1' & v2' & [= <-] & [= <-] & [= <-] & E')] _];
        [done|congruence].
  - split; [done|intros [[[? _]|(_ & ? & _)] _]; done].
  - split; [done|intros [[[_ ?]|(? & _)] _]; done].
  - split; [intros Hl; split; [by left|done]|intros [_ Hl]; done].
Qed.

Lemma BaseFieldsAreEqual_true p1 p2 m :
  in_size_t (length (mt_fields m)) = true →
  readable h p1 m → readable h p2 m →
  _upb_Message_BaseFieldsAreEqual h IsEqual_rec p1 p2 m = Ret true ↔
  ∀ j : nat, (j < length (mt_fields m))%nat →
    field_agrees h IsEqual_rec p1 p2 m j.
Proof.
  intros Hsz Hr1 Hr2. rewrite BaseFieldsAreEqual_lockstep by done.
  rewrite lockstep_true, Forall_forall. split.
  - intros Hall j Hj. apply Hall, elem_of_seq. lia.
  - intros Hall j Hj%elem_of_seq. apply Hall. lia.
Qed.
End FieldByField.

(** ** What a comparison that answers true has established *)

Section TrueInversion.
Context `{!Collaborators}.
Variable h : heap.
Variable wf_sub : upb_MiniTable → ptr → bool.
Variable IsEqual_rec : ptr → ptr → upb_MiniTable → result bool.

Lemma Array_IsEqual_true m f a1 a2 arr1 arr2 :
  a1 ≠ a2 →
  load_array h a1 = Ret arr1 → load_array h a2 = Ret arr2 →
  _upb_Array_IsEqual h IsEqual_rec a1 a2 m f = Ret true ↔
  length (arr_data arr1) = length (arr_data arr2)
  ∧ ∀ (i : nat) x y, arr_data arr1 !! i = Some x → arr_data arr2 !! i = Some y →
      array_elem_eq IsEqual_rec m f (arr_elem_size_lg2 arr1) x y = Ret true.
Proof.
  intros Hne E1 E2.
  pose proof (proj1 (load_array_Ret _ _ _) E1) as [Hp1 _].
  pose proof (proj1 (load_array_Ret _ _ _) E2) as [Hp2 _].
  destruct (decide (length (arr_data arr1) = length (arr_data arr2)))
    as [Hlen|Hlen].
  - rewrite (Array_IsEqual_elems h _ a1 a2 m f arr1 arr2) by done.
    rewrite (all_equal_zip_true
               (array_elem_eq IsEqual_rec m f (arr_elem_size_lg2 arr1)))
      by done.
    split; [by split|by intros [_ ?]].
  - rewrite (Array_IsEqual_sizes h _ a1 a2 m f
               (Z.of_nat (length (arr_data arr1)))
               (Z.of_nat (length (arr_data arr2)))); try done.
    + split; [done|intros [? _]; done].
    + unfold handle_size, upb_Array_Size.
      rewrite bool_decide_eq_true_2, E1 by done. done.
    + unfold handle_size, upb_Array_Size.
      rewrite bool_decide_eq_true_2, E2 by done. done.
    + lia.
Qed.

Lemma all_equal_lookup_true {A B : Type} (look : A → option B)
  (E : A → B → result bool) (l : list A) :
  all_equal (λ x, match look x with
                  | None => Ret false
                  | Some y => E x y
                  end) l = Ret true ↔
  ∀ x, x ∈ l → ∃ y, look x = Some y ∧ E x y = Ret true.
Proof.
  rewrite all_equal_true, Forall_forall. split.
  - intros Hall x Hx. specialize (Hall x Hx).
    destruct (look x) as [y|]; [eauto|done].
  - intros Hall x Hx. destruct (Hall x Hx) as (y & -> & Hy). done.
Qed.

Lemma Map_IsEqual_true m f p1 p2 mp1 mp2 :
  p1 ≠ p2 →
  load_map h p1 = Ret mp1 → load_map h p2 = Ret mp2 →
  in_size_t (length (map_entries mp1)) = true →
  _upb_Map_IsEqual h IsEqual_rec p1 p2 m f = Ret true ↔
  length (map_entries mp1) = length (map_entries mp2)
  ∧ ∀ kv, kv ∈ map_entries mp1 →
      ∃ val2, map_lookup kv.1 (map_entries mp2) = Some val2
              ∧ map_value_eq IsEqual_rec m f kv.2 val2 = Ret true.
Proof.
  intros Hne E1 E2 Hsz.
  pose proof (proj1 (load_map_Ret _ _ _) E1) as [Hp1 _].
  pose proof (proj1 (load_map_Ret _ _ _) E2) as [Hp2 _].
  destruct (decide (length (map_entries mp1) = length (map_entries mp2)))
    as [Hlen|Hlen].
  - rewrite (Map_IsEqual_entries h _ p1 p2 m f mp1 mp2) by done.
    rewrite (all_equal_lookup_true
               (λ kv, map_lookup kv.1 (map_entries mp2))
               (λ kv val2, map_value_eq IsEqual_rec m f kv.2 val2)).
    split; [by split|by intros [_ ?]].
  - rewrite (Map_IsEqual_sizes h _ p1 p2 m f
               (Z.of_nat (length (map_entries mp1)))
               (Z.of_nat (length (map_entries mp2)))); try done.
    + split; [done|intros [? _]; done].
    + unfold handle_size, upb_Map_Size.
      rewrite bool_decide_eq_true_2, E1 by done. done.
    + unfold handle_size, upb_Map_Size.
      rewrite bool_decide_eq_true_2, E2 by done. done.
    + lia.
Qed.

Lemma ExtensionsAreEqual_true m p1 p2 mo1 mo2 :
  load_msg h p1 = Ret mo1 → load_msg h p2 = Ret mo2 →
  in_size_t (length (msg_exts mo1)) = true →
  _upb_Message_ExtensionsAreEqual h IsEqual_rec p1 p2 m = Ret true ↔
  length (msg_exts mo1) = length (msg_exts mo2)
  ∧ ∀ x1, x1 ∈ msg_exts mo1 →
      ∃ x2, ext_lookup (ext x1) (msg_exts mo2) = Some x2
            ∧ field_value_eq h IsEqual_rec m (ext_field (ext x1))
                (ext_sub (ext x1)) (data x1) (data x2) = Ret true.
Proof.
  intros E1 E2 Hsz.
  destruct (decide (length (msg_exts mo1) = length (msg_exts mo2)))
    as [Hlen|Hlen].
  - rewrite (ExtensionsAreEqual_exts h _ p1 p2 m mo1 mo2) by done.
    rewrite (all_equal_lookup_true
               (λ x1, ext_lookup (ext x1) (msg_exts mo2))
               (λ x1 x2, field_value_eq h IsEqual_rec m (ext_field (ext x1))
                           (ext_sub (ext x1)) (data x1) (data x2))).
    split; [by split|by intros [_ ?]].
  - rewrite (ExtensionsAreEqual_counts h _ p1 p2 m mo1 mo2) by done.
    split; [done|intros [? _]; done].
Qed.
End TrueInversion.

(** ** Transitivity on well-formed heaps *)

Lemma memcmp_eq_trans len a b c :
  memcmp_eq len a b = Ret true → memcmp_eq len b c = Ret true →
  memcmp_eq len a c = Ret true.
Proof.
  destruct a, b, c; simpl; try done.
  intros [= ->%Z.eqb_eq] [= ->%Z.eqb_eq]. by rewrite Z.eqb_refl.
Qed.

Lemma DataEquals_trans f a b c :
  _upb_MiniTableField_DataEquals f a b = Ret true →
  _upb_MiniTableField_DataEquals f b c = Ret true →
  _upb_MiniTableField_DataEquals f a c = Ret true.
Proof.
  unfold _upb_MiniTableField_DataEquals.
  destruct (_upb_MiniTableField_GetRep f); try apply memcmp_eq_trans.
  destruct a, b, c; simpl; try done. unfold upb_StringView_IsEqual.
  intros [= ->%bool_decide_eq_true] [= ->%bool_decide_eq_true].
  by rewrite bool_decide_eq_true_2.
Qed.

Section Transitivity.
Context `{!Collaborators}.
Variable h : heap.
Variable wf_sub : upb_MiniTable → ptr → bool.
Variable IsEqual_rec : ptr → ptr → upb_MiniTable → result bool.
Hypothesis Htrans : ∀ sub p1 p2 p3,
  wf_sub sub p1 = true → wf_sub sub p2 = true → wf_sub sub p3 = true →
  IsEqual_rec p1 p2 sub = Ret true → IsEqual_rec p2 p3 sub = Ret true →
  IsEqual_rec p1 p3 sub = Ret true.

Lemma array_elem_eq_trans m f lg2 v1 v2 v3 :
  wf_value wf_sub f (upb_MiniTable_GetSubMessageTable m f) v1 = true →
  wf_value wf_sub f (upb_MiniTable_GetSubMessageTable m f) v2 = true →
  wf_value wf_sub f (upb_MiniTable_GetSubMessageTable m f) v3 = true →
  array_elem_eq IsEqual_rec m f lg2 v1 v2 = Ret true →
  array_elem_eq IsEqual_rec m f lg2 v2 v3 = Ret true →
  array_elem_eq IsEqual_rec m f lg2 v1 v3 = Ret true.
Proof.
  intros H1 H2 H3. unfold array_elem_eq.
  destruct (upb_MiniTableField_IsSubMessage f) eqn:Hsub.
  - apply wf_value_message in H1 as (w1 & -> & _ & Hw1); [|done].
    apply wf_value_message in H2 as (w2 & -> & _ & Hw2); [|done].
    apply wf_value_message in H3 as (w3 & -> & _ & Hw3); [|done].
    simpl. by apply Htrans.
  - destruct (_upb_IsStringView f) eqn:Hstr.
    + apply wf_value_string in H1 as (s1 & ->); [|done].
      apply wf_value_string in H2 as (s2 & ->); [|done].
      apply wf_value_string in H3 as (s3 & ->); [|done].
      simpl. unfold upb_StringView_IsEqual.
      intros [= ->%bool_decide_eq_true] [= ->%bool_decide_eq_true].
      by rewrite bool_decide_eq_true_2.
    + apply memcmp_eq_trans.
Qed.

Lemma map_value_eq_trans m f v1 v2 v3 :
  let m2 := upb_MiniTable_GetSubMessageTable m f in
  let f2 := upb_MiniTable_MapValue m2 in
  let m3 := upb_MiniTable_GetSubMessageTable m2 f2 in
  wf_value wf_sub f2 m3 v1 = true → wf_value wf_sub f2 m3 v2 = true →
  wf_value wf_sub f2 m3 v3 = true →
  map_value_eq IsEqual_rec m f v1 v2 = Ret true →
  map_value_eq IsEqual_rec m f v2 v3 = Ret true →
  map_value_eq IsEqual_rec m f v1 v3 = Ret true.
Proof.
  intros m2 f2 m3 H1 H2 H3. unfold map_value_eq. fold m2 f2 m3.
  destruct (upb_MiniTableField_IsSubMessage f2) eqn:Hsub.
  - apply wf_value_message in H1 as (w1 & -> & _ & Hw1); [|done].
    apply wf_value_message in H2 as (w2 & -> & _ & Hw2); [|done].
    apply wf_value_message in H3 as (w3 & -> & _ & Hw3); [|done].
    simpl. by apply Htrans.
  - destruct (_upb_IsStringView f2) eqn:Hstr.
    + apply wf_value_string in H1 as (s1 & ->); [|done].
      apply wf_value_string in H2 as (s2 & ->); [|done].
      apply wf_value_string in H3 as (s3 & ->); [|done].
      simpl. unfold upb_StringView_IsEqual.
      intros [= ->%bool_decide_eq_true] [= ->%bool_decide_eq_true].
      by rewrite bool_decide_eq_true_2.
    + apply DataEquals_trans.
Qed.

Lemma Array_IsEqual_trans m f a1 a2 a3 :
  wf_array h wf_sub m f a1 = true → wf_array h wf_sub m f a2 = true →
  wf_array h wf_sub m f a3 = true →
  _upb_Array_IsEqual h IsEqual_rec a1 a2 m f = Ret true →
  _upb_Array_IsEqual h IsEqual_rec a2 a3 m f = Ret true →
  _upb_Array_IsEqual h IsEqual_rec a1 a3 m f = Ret true.
Proof.
  intros (arr1 & E1 & Hsz1 & Hlg1 & Hall1)%wf_array_inv
         (arr2 & E2 & Hsz2 & Hlg2 & Hall2)%wf_array_inv
         (arr3 & E3 & Hsz3 & Hlg3 & Hall3)%wf_array_inv.
  destruct (decide (a1 = a3)) as [->|H13]; [intros; apply Array_IsEqual_same|].
  destruct (decide (a1 = a2)) as [->|H12]; [done|].
  destruct (decide (a2 = a3)) as [->|H23]; [done|].
  rewrite (Array_IsEqual_true h _ m f a1 a2 arr1 arr2) by done.
  rewrite (Array_IsEqual_true h _ m f a2 a3 arr2 arr3) by done.
  rewrite (Array_IsEqual_true h _ m f a1 a3 arr1 arr3) by done.
  rewrite Hlg1, Hlg2. intros [Hl12 He12] [Hl23 He23].
  split; [congruence|]. intros i x z Hx Hz.
  destruct (arr_data arr2 !! i) as [y|] eqn:Hy.
  2:{ apply lookup_ge_None in Hy. apply lookup_lt_Some in Hx. lia. }
  apply (array_elem_eq_trans m f _ x y z).
  - eapply (proj1 (Forall_forall _ _) Hall1), list_elem_of_lookup_2, Hx.
  - eapply (proj1 (Forall_forall _ _) Hall2), list_elem_of_lookup_2, Hy.
  - eapply (proj1 (Forall_forall _ _) Hall3), list_elem_of_lookup_2, Hz.
  - by eapply He12.
  - by eapply He23.
Qed.

Lemma Map_IsEqual_trans m f p1 p2 p3 :
  wf_map h wf_sub m f p1 = true → wf_map h wf_sub m f p2 = true →
  wf_map h wf_sub m f p3 = true →
  _upb_Map_IsEqual h IsEqual_rec p1 p2 m f = Ret true →
  _upb_Map_IsEqual h IsEqual_rec p2 p3 m f = Ret true →
  _upb_Map_IsEqual h IsEqual_rec p1 p3 m f = Ret true.
Proof.
  intros (mp1 & E1 & Hsz1 & Hnd1 & Hall1)%wf_map_inv
         (mp2 & E2 & Hsz2 & Hnd2 & Hall2)%wf_map_inv
         (mp3 & E3 & Hsz3 & Hnd3 & Hall3)%wf_map_inv.
  destruct (decide (p1 = p3)) as [->|H13]; [intros; apply Map_IsEqual_same|].
  destruct (decide (p1 = p2)) as [->|H12]; [done|].
  destruct (decide (p2 = p3)) as [->|H23]; [done|].
  rewrite (Map_IsEqual_true h _ m f p1 p2 mp1 mp2) by done.
  rewrite (Map_IsEqual_true h _ m f p2 p3 mp2 mp3) by done.
  rewrite (Map_IsEqual_true h _ m f p1 p3 mp1 mp3) by done.
  intros [Hl12 He12] [Hl23 He23].
  split; [congruence|]. intros [k v1] Hin1.
  destruct (He12 _ Hin1) as (v2 & Hk2 & Hv12). simpl in Hk2, Hv12.
  pose proof (map_lookup_Some _ _ _ Hk2) as Hin2.
  destruct (He23 _ Hin2) as (v3 & Hk3 & Hv23). simpl in Hk3, Hv23.
  pose proof (map_lookup_Some _ _ _ Hk3) as Hin3.
  exists v3. split; [done|]. simpl.
  apply (map_value_eq_trans m f v1 v2 v3); try done.
  - apply (proj1 (Forall_forall _ _) Hall1 _ Hin1).
  - apply (proj1 (Forall_forall _ _) Hall2 _ Hin2).
  - apply (proj1 (Forall_forall _ _) Hall3 _ Hin3).
Qed.

Lemma field_value_eq_trans m f sub v1 v2 v3 :
  wf_compared h wf_sub m f sub v1 = true →
  wf_compared h wf_sub m f sub v2 = true →
  wf_compared h wf_sub m f sub v3 = true →
  field_value_eq h IsEqual_rec m f sub v1 v2 = Ret true →
  field_value_eq h IsEqual_rec m f sub v2 v3 = Ret true →
  field_value_eq h IsEqual_rec m f sub v1 v3 = Ret true.
Proof.
  unfold wf_compared, field_value_eq.
  unfold upb_MiniTableField_IsArray, upb_MiniTableField_IsMap.
  destruct (field_mode f) eqn:Hmode.
  - rewrite bool_decide_eq_false_2 by done.
    rewrite bool_decide_eq_true_2 by done.
    destruct v1 as [w1|], v2 as [w2|], v3 as [w3|]; try done. simpl.
    apply Map_IsEqual_trans.
  - rewrite bool_decide_eq_true_2 by done.
    destruct v1 as [w1|], v2 as [w2|], v3 as [w3|]; try done. simpl.
    apply Array_IsEqual_trans.
  - rewrite !bool_decide_eq_false_2 by done. intros H1 H2 H3.
    destruct (upb_MiniTableField_IsSubMessage f) eqn:Hsub.
    + apply wf_value_message in H1 as (w1 & -> & _ & Hw1); [|done].
      apply wf_value_message in H2 as (w2 & -> & _ & Hw2); [|done].
      apply wf_value_message in H3 as (w3 & -> & _ & Hw3); [|done].
      simpl. by apply Htrans.
    + apply DataEquals_trans.
Qed.

Lemma field_agrees_trans m p1 p2 p3 (j : nat) :
  wf_message h wf_sub m p1 = true → wf_message h wf_sub m p2 = true →
  wf_message h wf_sub m p3 = true →
  field_agrees h IsEqual_rec p1 p2 m j →
  field_agrees h IsEqual_rec p2 p3 m j →
  field_agrees h IsEqual_rec p1 p3 m j.
Proof.
  intros Hwf1 Hwf2 Hwf3.
  intros [[Ha1 Ha2]|(Ha1 & Ha2 & f & v1 & v2 & Hf & Hv1 & Hv2 & H12)]
         [[Hb2 Hb3]|(Hb2 & Hb3 & f' & v2' & v3 & Hf' & Hv2' & Hv3 & H23)];
    try congruence.
  - by left.
  - right. split; [done|]. split; [done|].
    rewrite Hf in Hf'. injection Hf' as <-.
    rewrite Hv2 in Hv2'. injection Hv2' as <-.
    exists f, v1, v3. repeat split; try done.
    destruct (wf_message_present h wf_sub m p1 j Hwf1 Ha1)
      as (f1 & u1 & Hf1 & Hu1 & Hc1).
    destruct (wf_message_present h wf_sub m p2 j Hwf2 Ha2)
      as (f2 & u2 & Hf2 & Hu2 & Hc2).
    destruct (wf_message_present h wf_sub m p3 j Hwf3 Hb3)
      as (f3 & u3 & Hf3 & Hu3 & Hc3).
    rewrite Hf in Hf1, Hf2, Hf3. rewrite Hv1 in Hu1. rewrite Hv2 in Hu2.
    rewrite Hv3 in Hu3. simplify_eq.
    eapply field_value_eq_trans; eauto.
Qed.

Lemma BaseFieldsAreEqual_trans m p1 p2 p3 :
  wf_message h wf_sub m p1 = true → wf_message h wf_sub m p2 = true →
  wf_message h wf_sub m p3 = true →
  _upb_Message_BaseFieldsAreEqual h IsEqual_rec p1 p2 m = Ret true →
  _upb_Message_BaseFieldsAreEqual h IsEqual_rec p2 p3 m = Ret true →
  _upb_Message_BaseFieldsAreEqual h IsEqual_rec p1 p3 m = Ret true.
Proof.
  intros Hwf1 Hwf2 Hwf3.
  pose proof (wf_message_inv h wf_sub m p1 Hwf1) as (mo & _ & Hsz & _).
  pose proof (wf_message_readable h wf_sub m p1 Hwf1) as Hr1.
  pose proof (wf_message_readable h wf_sub m p2 Hwf2) as Hr2.
  pose proof (wf_message_readable h wf_sub m p3 Hwf3) as Hr3.
  rewrite !BaseFieldsAreEqual_true by done.
  intros H12 H23 j Hj. apply (field_agrees_trans m p1 p2 p3); auto.
Qed.

Lemma ExtensionsAreEqual_trans m p1 p2 p3 :
  wf_message h wf_sub m p1 = true → wf_message h wf_sub m p2 = true →
  wf_message h wf_sub m p3 = true →
  _upb_Message_ExtensionsAreEqual h IsEqual_rec p1 p2 m = Ret true →
  _upb_Message_ExtensionsAreEqual h IsEqual_rec p2 p3 m = Ret true →
  _upb_Message_ExtensionsAreEqual h IsEqual_rec p1 p3 m = Ret true.
Proof.
  intros (mo1 & E1 & _ & _ & Hsz1 & Hnd1 & Hall1)%wf_message_inv
         (mo2 & E2 & _ & _ & Hsz2 & Hnd2 & Hall2)%wf_message_inv
         (mo3 & E3 & _ & _ & Hsz3 & Hnd3 & Hall3)%wf_message_inv.
  rewrite (ExtensionsAreEqual_true h _ m p1 p2 mo1 mo2) by done.
  rewrite (ExtensionsAreEqual_true h _ m p2 p3 mo2 mo3) by done.
  rewrite (ExtensionsAreEqual_true h _ m p1 p3 mo1 mo3) by done.
  intros [Hl12 He12] [Hl23 He23].
  split; [congruence|]. intros x1 Hin1.
  destruct (He12 _ Hin1) as (x2 & Hk2 & Hv12).
  apply ext_lookup_Some in Hk2 as [Hin2 Hext2].
  destruct (He23 _ Hin2) as (x3 & Hk3 & Hv23).
  rewrite Hext2 in Hk3, Hv23.
  exists x3. split; [done|].
  apply ext_lookup_Some in Hk3 as [Hin3 Hext3].
  apply (field_value_eq_trans m _ _ (data x1) (data x2) (data x3));
    try done.
  - apply (proj1 (Forall_forall _ _) Hall1 _ Hin1).
  - pose proof (proj1 (Forall_forall _ _) Hall2 _ Hin2) as Hx2.
    unfold wf_extension in Hx2. by rewrite Hext2 in Hx2.
  - pose proof (proj1 (Forall_forall _ _) Hall3 _ Hin3) as Hx3.
    unfold wf_extension in Hx3. by rewrite Hext3 in Hx3.
Qed.

Hypothesis Hcmp : ∀ u1 u2 u3,
  _upb_Message_UnknownFieldsAreEqual u1 u2 100
    = kUpb_UnknownCompareResult_Equal →
  _upb_Message_UnknownFieldsAreEqual u2 u3 100
    = kUpb_UnknownCompareResult_Equal →
  _upb_Message_UnknownFieldsAreEqual u1 u3 100
    = kUpb_UnknownCompareResult_Equal.

Lemma IsEqual_body_true m p1 p2 mo1 mo2 :
  p1 ≠ p2 → load_msg h p1 = Ret mo1 → load_msg h p2 = Ret mo2 →
  IsEqual_body h IsEqual_rec p1 p2 m = Ret true ↔
  _upb_Message_BaseFieldsAreEqual h IsEqual_rec p1 p2 m = Ret true
  ∧ _upb_Message_ExtensionsAreEqual h IsEqual_rec p1 p2 m = Ret true
  ∧ _upb_Message_UnknownFieldsAreEqual (msg_unknown mo1) (msg_unknown mo2) 100
    = kUpb_UnknownCompareResult_Equal.
Proof.
  intros Hne E1 E2. unfold IsEqual_body.
  rewrite bool_decide_eq_false_2 by done.
  destruct (_upb_Message_BaseFieldsAreEqual h IsEqual_rec p1 p2 m)
    as [[]| |]; simpl; try (split; [done|intros [? _]; done]).
  destruct (_upb_Message_ExtensionsAreEqual h IsEqual_rec p1 p2 m)
    as [[]| |]; simpl; try (split; [done|intros (_ & ? & _); done]).
  unfold upb_Message_GetUnknown. rewrite E1, E2. simpl. split.
  - intros [= Hu]. apply bool_decide_eq_true in Hu. done.
  - intros (_ & _ & Hu). by rewrite bool_decide_eq_true_2.
Qed.

Lemma IsEqual_body_trans m p1 p2 p3 :
  wf_message h wf_sub m p1 = true → wf_message h wf_sub m p2 = true →
  wf_message h wf_sub m p3 = true →
  IsEqual_body h IsEqual_rec p1 p2 m = Ret true →
  IsEqual_body h IsEqual_rec p2 p3 m = Ret true →
  IsEqual_body h IsEqual_rec p1 p3 m = Ret true.
Proof.
  intros Hwf1 Hwf2 Hwf3.
  destruct (decide (p1 = p3)) as [->|H13].
  { intros _ _. unfold IsEqual_body. by rewrite bool_decide_eq_true_2. }
  destruct (decide (p1 = p2)) as [->|H12]; [done|].
  destruct (decide (p2 = p3)) as [->|H23]; [done|].
  pose proof (wf_message_inv h wf_sub m p1 Hwf1) as (mo1 & E1 & _).
  pose proof (wf_message_inv h wf_sub m p2 Hwf2) as (mo2 & E2 & _).
  pose proof (wf_message_inv h wf_sub m p3 Hwf3) as (mo3 & E3 & _).
  rewrite (IsEqual_body_true m p1 p2 mo1 mo2) by done.
  rewrite (IsEqual_body_true m p2 p3 mo2 mo3) by done.
  rewrite (IsEqual_body_true m p1 p3 mo1 mo3) by done.
  intros (Hb12 & He12 & Hu12) (Hb23 & He23 & Hu23). split; [|split].
  - by apply (BaseFieldsAreEqual_trans m p1 p2 p3).
  - by apply (ExtensionsAreEqual_trans m p1 p2 p3).
  - by apply (Hcmp _ (msg_unknown mo2)).
Qed.
End Transitivity.

Lemma IsEqual_trans_depth `{!Collaborators} (d : nat) (h : heap)
  (m : upb_MiniTable) (p1 p2 p3 : ptr) :
  (∀ u1 u2 u3,
     _upb_Message_UnknownFieldsAreEqual u1 u2 100
       = kUpb_UnknownCompareResult_Equal →
     _upb_Message_UnknownFieldsAreEqual u2 u3 100
       = kUpb_UnknownCompareResult_Equal →
     _upb_Message_UnknownFieldsAreEqual u1 u3 100
       = kUpb_UnknownCompareResult_Equal) →
  wf_msg d h m p1 = true → wf_msg d h m p2 = true → wf_msg d h m p3 = true →
  upb_Message_IsEqual d h p1 p2 m = Ret true →
  upb_Message_IsEqual d h p2 p3 m = Ret true →
  upb_Message_IsEqual d h p1 p3 m = Ret true.
Proof.
  intros Hcmp. revert m p1 p2 p3.
  induction d as [|d IH]; intros m p1 p2 p3; simpl; [done|].
  apply IsEqual_body_trans with (wf_sub := wf_msg d h); [exact IH|exact Hcmp].
Qed.

(** X3. [upb_Message_IsEqual] is transitive on well-formed messages, given a
    comparator of unknown data whose answer "equal" is transitive: if it
    answers true on [(p1, p2)] and on [(p2, p3)], it answers true on
    [(p1, p3)]. *)
Theorem IsEqual_transitive `{!Collaborators} (d fuel : nat) (h : heap)
  (m : upb_MiniTable) (p1 p2 p3 : ptr) :
  (∀ u1 u2 u3,
     _upb_Message_UnknownFieldsAreEqual u1 u2 100
       = kUpb_UnknownCompareResult_Equal →
     _upb_Message_UnknownFieldsAreEqual u2 u3 100
       = kUpb_UnknownCompareResult_Equal →
     _upb_Message_UnknownFieldsAreEqual u1 u3 100
       = kUpb_UnknownCompareResult_Equal) →
  wf_msg d h m p1 = true → wf_msg d h m p2 = true → wf_msg d h m p3 = true →
  (d ≤ fuel)%nat →
  upb_Message_IsEqual fuel h p1 p2 m = Ret true →
  upb_Message_IsEqual fuel h p2 p3 m = Ret true →
  upb_Message_IsEqual fuel h p1 p3 m = Ret true.
Proof.
  intros Hcmp Hwf1 Hwf2 Hwf3 Hle H12 H23.
  destruct (IsEqual_enough_fuel d fuel h m p1 p2 Hwf1 Hwf2 Hle)
    as (b12 & F12 & D12).
  destruct (IsEqual_enough_fuel d fuel h m p2 p3 Hwf2 Hwf3 Hle)
    as (b23 & F23 & D23).
  destruct (IsEqual_enough_fuel d fuel h m p1 p3 Hwf1 Hwf3 Hle)
    as (b13 & F13 & D13).
  rewrite F13, <- D13.
  apply (IsEqual_trans_depth d h m p1 p2 p3); try done; congruence.
Qed.

(** ** Well-formed messages are compared without a fault *)

Lemma NextBaseField_returns h msg m iter :
  in_size_t (length (mt_fields m)) = true → readable h msg m →
  ∃ r, upb_Message_NextBaseField h msg m iter = Ret r.
Proof.
  intros Hsz Hr. rewrite NextBaseField_first_present by done.
  set (s := Z.to_nat (size_t_incr iter)).
  destruct (decide (s ≤ length (mt_fields m))%nat) as [Hle|Hgt].
  - destruct (first_present_readable h msg m s (length (mt_fields m) - s) Hr)
      as [->|(f & v & j & -> & _)]; [lia|eauto..].
  - replace (length (mt_fields m) - s)%nat with 0%nat by lia. simpl. eauto.
Qed.

Lemma NextExtension_returns h msg mo m iter :
  load_msg h msg = Ret mo →
  ∃ r, upb_Message_NextExtension h msg m iter = Ret r.
Proof.
  intros E. unfold upb_Message_NextExtension, _upb_Message_Getexts.
  rewrite E. cbn [mbind result_bind].
  destruct (_ <? _) eqn:Hlt; [|eauto].
  destruct (msg_exts mo !! _) as [x|] eqn:El; [eauto|].
  apply lookup_ge_None in El. apply Z.ltb_lt in Hlt.
  pose proof (size_t_incr_range iter). lia.
Qed.

(** ** Symmetry *)

Lemma IsEqual_sym_depth `{!Collaborators} (d : nat) (h : heap)
  (m : upb_MiniTable) (p1 p2 : ptr) :
  (∀ u1 u2,
     _upb_Message_UnknownFieldsAreEqual u1 u2 100
       = kUpb_UnknownCompareResult_Equal →
     _upb_Message_UnknownFieldsAreEqual u2 u1 100
       = kUpb_UnknownCompareResult_Equal) →
  wf_msg d h m p1 = true → wf_msg d h m p2 = true →
  upb_Message_IsEqual d h p1 p2 m = upb_Message_IsEqual d h p2 p1 m.
Proof.
  intros Hcmp. revert m p1 p2.
  induction d as [|d IH]; intros m p1 p2 Hwf1 Hwf2; [done|].
  cbn [upb_Message_IsEqual]. simpl in Hwf1, Hwf2. unfold IsEqual_body.
  destruct (decide (p1 = p2)) as [->|Hne]; [done|].
  rewrite !bool_decide_eq_false_2 by done.
  assert (Htot : ∀ sub q1 q2,
             wf_msg d h sub q1 = true → wf_msg d h sub q2 = true →
             ∃ b, upb_Message_IsEqual d h q1 q2 sub = Ret b)
    by (intros sub q1 q2; apply IsEqual_total).
  rewrite (BaseFieldsAreEqual_sym h (wf_msg d h) _ Htot IH m p1 p2 Hwf1 Hwf2).
  destruct (_upb_Message_BaseFieldsAreEqual h _ p2 p1 m)
    as [[]| |]; simpl; try done.
  rewrite (ExtensionsAreEqual_sym h (wf_msg d h) _ Htot IH m p1 p2 Hwf1 Hwf2).
  destruct (_upb_Message_ExtensionsAreEqual h _ p2 p1 m)
    as [[]| |]; simpl; try done.
  apply wf_message_inv in Hwf1 as (mo1 & E1 & _).
  apply wf_message_inv in Hwf2 as (mo2 & E2 & _).
  unfold upb_Message_GetUnknown. rewrite E1, E2. simpl.
  f_equal. apply bool_decide_ext. split; apply Hcmp.
Qed.

(** ** The base fields, field by field *)

(** X6. On two well-formed messages the comparison of base fields returns,
    and it answers true iff the messages agree on every declared field: the
    field is absent from both, or present in both with values that compare
    equal.  The two cursors never drift apart on equal messages. *)
Theorem BaseFieldsAreEqual_field_by_field `{!Collaborators} (d : nat)
  (h : heap) (m : upb_MiniTable) (p1 p2 : ptr) :
  wf_msg (S d) h m p1 = true → wf_msg (S d) h m p2 = true →
  ∃ b, _upb_Message_BaseFieldsAreEqual h (upb_Message_IsEqual d h) p1 p2 m
       = Ret b
     ∧ (b = true ↔
        ∀ j : nat, (j < length (mt_fields m))%nat →
          field_agrees h (upb_Message_IsEqual d h) p1 p2 m j).
Proof.
  intros Hwf1 Hwf2. simpl in Hwf1, Hwf2.
  assert (Htot : ∀ sub q1 q2,
             wf_msg d h sub q1 = true → wf_msg d h sub q2 = true →
             ∃ b, upb_Message_IsEqual d h q1 q2 sub = Ret b)
    by (intros sub q1 q2; apply IsEqual_total).
  destruct (BaseFieldsAreEqual_total h (wf_msg d h) _ Htot m p1 p2 Hwf1 Hwf2)
    as [b Hb].
  exists b. split; [done|].
  pose proof (wf_message_readable h _ m p1 Hwf1) as Hr1.
  pose proof (wf_message_readable h _ m p2 Hwf2) as Hr2.
  apply wf_message_inv in Hwf1 as (mo & _ & Hsz & _).
  rewrite <- (BaseFieldsAreEqual_true h _ p1 p2 m Hsz Hr1 Hr2), Hb.
  split; congruence.
Qed.

(** ** The canonical-form comparison *)

(** X7. [upb_Message_IsExactlyEqual] answers true exactly when the two
    pointers are the same, or both messages are encoded successfully, under
    the options skip-unknown and deterministic, into payloads of the same
    bytes; and it is symmetric in its two messages, as an answer and in the
    state of the allocator it leaves. *)
Theorem IsExactlyEqual_payloads `{!Collaborators} (h : heap)
  (msg1 msg2 : ptr) (m : upb_MiniTable) (s : allocator) :
  let opts := Z.lor kUpb_EncodeOption_SkipUnknown
                kUpb_EncodeOption_Deterministic in
  let e1 := upb_Encode h msg1 m opts (fresh s) in
  let e2 := upb_Encode h msg2 m opts (fresh s) in
  ((upb_Message_IsExactlyEqual h msg1 msg2 m s).1 = true ↔
     msg1 = msg2
     ∨ (e1.1 = kUpb_EncodeStatus_Ok ∧ e2.1 = kUpb_EncodeStatus_Ok
        ∧ e1.2 = e2.2))
  ∧ upb_Message_IsExactlyEqual h msg1 msg2 m s
    = upb_Message_IsExactlyEqual h msg2 msg1 m s.
Proof.
  intros opts e1 e2. split; [|apply IsExactlyEqual_sym].
  unfold upb_Message_IsExactlyEqual.
  destruct (decide (msg1 = msg2)) as [->|Hne].
  { rewrite bool_decide_eq_true_2 by done. simpl. split; auto. }
  rewrite bool_decide_eq_false_2 by done. simpl.
  fold opts. fold e1 e2. destruct e1 as [st1 d1], e2 as [st2 d2]. simpl.
  destruct (decide (st1 = kUpb_EncodeStatus_Ok)) as [->|H1].
  2:{ rewrite (bool_decide_eq_true_2 (st1 ≠ _)) by done. simpl.
      split; [done|]. intros [?|(? & _)]; done. }
  rewrite (bool_decide_eq_false_2 (kUpb_EncodeStatus_Ok ≠ _))
    by (intros ?; done).
  destruct (decide (st2 = kUpb_EncodeStatus_Ok)) as [->|H2].
  2:{ rewrite (bool_decide_eq_true_2 (st2 ≠ _)) by done. simpl.
      split; [done|]. intros [?|(_ & ? & _)]; done. }
  rewrite (bool_decide_eq_false_2 (kUpb_EncodeStatus_Ok ≠ _))
    by (intros ?; done).
  simpl. rewrite andb_true_iff, !bool_decide_eq_true. split.
  - intros [Hlen Htake]. right.
    rewrite !take_ge in Htake by lia. done.
  - intros [?|(_ & _ & ->)]; [done|]. done.
Qed.

(** ** Emptiness and equality *)

Lemma IsEmpty_true_inv h msg m :
  upb_Message_IsEmpty h msg m = Ret true →
  ∃ mo, load_msg h msg = Ret mo ∧ msg_exts mo = []
        ∧ upb_Message_NextBaseField h msg m kUpb_BaseField_Begin = Ret None.
Proof.
  unfold upb_Message_IsEmpty, upb_Message_ExtensionCount, _upb_Message_Getexts.
  destruct (load_msg h msg) as [mo| |]; cbn [mbind result_bind]; try done.
  destruct (Z.eqb_spec (Z.of_nat (length (msg_exts mo))) 0) as [Hz|Hz];
    cbn [negb]; [|done].
  destruct (upb_Message_NextBaseField h msg m kUpb_BaseField_Begin)
    as [[r|]| |]; cbn [mbind result_bind]; try done.
  intros _. exists mo. repeat split; try done.
  destruct (msg_exts mo); [done|simpl in Hz; lia].
Qed.

Lemma IsEmpty_false_inv h msg m :
  upb_Message_IsEmpty h msg m = Ret false →
  ∃ mo, load_msg h msg = Ret mo
        ∧ (msg_exts mo ≠ []
           ∨ ∃ r, upb_Message_NextBaseField h msg m kUpb_BaseField_Begin
                  = Ret (Some r)).
Proof.
  unfold upb_Message_IsEmpty, upb_Message_ExtensionCount, _upb_Message_Getexts.
  destruct (load_msg h msg) as [mo| |]; cbn [mbind result_bind]; try done.
  destruct (Z.eqb_spec (Z.of_nat (length (msg_exts mo))) 0) as [Hz|Hz];
    cbn [negb].
  - destruct (upb_Message_NextBaseField h msg m kUpb_BaseField_Begin)
      as [[r|]| |]; cbn [mbind result_bind]; try done.
    intros _. exists mo. split; [done|]. right. eauto.
  - intros _. exists mo. split; [done|]. left. intros Hnil.
    rewrite Hnil in Hz. done.
Qed.

Section EmptyMessages.
Context `{!Collaborators}.
Variable h : heap.
Variable IsEqual_rec : ptr → ptr → upb_MiniTable → result bool.

Lemma BaseFieldsAreEqual_first m p1 p2 :
  _upb_Message_BaseFieldsAreEqual h IsEqual_rec p1 p2 m
  = (got1 ← upb_Message_NextBaseField h p1 m kUpb_BaseField_Begin;
     got2 ← upb_Message_NextBaseField h p2 m kUpb_BaseField_Begin;
     match got1, got2 with
     | None, None => Ret true
     | Some (f1, val1, iter1'), Some (f2, val2, iter2') =>
         if negb (iter1' =? iter2') then Ret false else
         eq ← field_value_eq h IsEqual_rec m f1
                (upb_MiniTable_GetSubMessageTable m f1) val1 val2;
         if eq : bool
         then BaseFieldsAreEqual_loop h IsEqual_rec (length (mt_fields m))
                p1 p2 m iter1' iter2'
         else Ret false
     | _, _ => Ret false
     end).
Proof. apply BaseFieldsAreEqual_loop_unfold. Qed.

Lemma ExtensionsAreEqual_nil m p1 p2 mo1 mo2 :
  load_msg h p1 = Ret mo1 → load_msg h p2 = Ret mo2 →
  msg_exts mo1 = [] →
  _upb_Message_ExtensionsAreEqual h IsEqual_rec p1 p2 m
  = Ret (bool_decide (msg_exts mo2 = [])).
Proof.
  intros E1 E2 Hnil.
  destruct (decide (msg_exts mo2 = [])) as [Hnil2|Hne].
  - rewrite bool_decide_eq_true_2 by done.
    rewrite (ExtensionsAreEqual_exts h _ p1 p2 m mo1 mo2);
      rewrite ?Hnil, ?Hnil2; done.
  - rewrite bool_decide_eq_false_2 by done.
    apply (ExtensionsAreEqual_counts h _ p1 p2 m mo1 mo2); try done.
    rewrite Hnil. destruct (msg_exts mo2); done.
Qed.

Lemma ExtensionsAreEqual_nil_r m p1 p2 mo1 mo2 :
  load_msg h p1 = Ret mo1 → load_msg h p2 = Ret mo2 →
  msg_exts mo1 ≠ [] → msg_exts mo2 = [] →
  _upb_Message_ExtensionsAreEqual h IsEqual_rec p1 p2 m = Ret false.
Proof.
  intros E1 E2 Hne Hnil.
  apply (ExtensionsAreEqual_counts h _ p1 p2 m mo1 mo2); try done.
  rewrite Hnil. destruct (msg_exts mo1); done.
Qed.
End EmptyMessages.

(** X18. [upb_Message_IsEmpty] answers true exactly when the message stores
    no extension and none of its declared fields is present: for the first
    call of the base-field iterator to yield nothing, every field must fail
    the presence test. *)
Theorem IsEmpty_no_field_no_extension (h : heap) (msg : ptr)
  (m : upb_MiniTable) :
  in_size_t (length (mt_fields m)) = true →
  upb_Message_IsEmpty h msg m = Ret true ↔
  ∃ mo, load_msg h msg = Ret mo ∧ msg_exts mo = []
        ∧ ∀ j, 0 ≤ j < upb_MiniTable_FieldCount m →
               field_present_at h msg m j = Ret false.
Proof.
  intros Hsz. split.
  - intros (mo & E & Hnil & Hnone)%IsEmpty_true_inv.
    exists mo. repeat split; try done.
    intros j Hj. apply (proj1 (NextBaseField_exhausted h msg m _ Hsz) Hnone).
    change (size_t_incr kUpb_BaseField_Begin) with 0. done.
  - intros (mo & E & Hnil & Habsent).
    unfold upb_Message_IsEmpty, upb_Message_ExtensionCount,
      _upb_Message_Getexts.
    rewrite E. cbn [mbind result_bind]. rewrite Hnil. cbn [length negb Z.eqb].
    change (Z.of_nat 0 =? 0) with true. cbn [negb].
    rewrite (proj2 (NextBaseField_exhausted h msg m kUpb_BaseField_Begin Hsz)).
    + done.
    + intros j Hj. apply Habsent.
      change (size_t_incr kUpb_BaseField_Begin) with 0 in Hj. done.
Qed.

(** X8. Equal messages are empty together: whenever [upb_Message_IsEqual]
    answers true, [upb_Message_IsEmpty] gives the same result on the two
    messages. *)
Theorem IsEqual_IsEmpty_agree `{!Collaborators} (fuel : nat) (h : heap)
  (msg1 msg2 : ptr) (m : upb_MiniTable) :
  upb_Message_IsEqual fuel h msg1 msg2 m = Ret true →
  upb_Message_IsEmpty h msg1 m = upb_Message_IsEmpty h msg2 m.
Proof.
  destruct fuel as [|fuel]; [done|]. cbn [upb_Message_IsEqual].
  unfold IsEqual_body.
  destruct (decide (msg1 = msg2)) as [->|Hne]; [done|].
  rewrite bool_decide_eq_false_2 by done.
  rewrite BaseFieldsAreEqual_first.
  destruct (upb_Message_NextBaseField h msg1 m kUpb_BaseField_Begin)
    as [got1| |] eqn:E1; cbn [mbind result_bind]; try done.
  destruct (upb_Message_NextBaseField h msg2 m kUpb_BaseField_Begin)
    as [got2| |] eqn:E2; cbn [mbind result_bind]; try done.
  intros Heq.
  assert (Hgot : is_Some got1 ↔ is_Some got2).
  { destruct got1 as [[[f1 v1] i1]|], got2 as [[[f2 v2] i2]|];
      first [done|split; eauto]. }
  assert (Hexts : ∃ c1 c2, upb_Message_ExtensionCount h msg1 = Ret c1
                    ∧ upb_Message_ExtensionCount h msg2 = Ret c2 ∧ c1 = c2).
  { destruct (match got1 with Some _ => _ | None => _ end) as [[]| |];
      cbn [mbind result_bind negb] in Heq; try done.
    unfold _upb_Message_ExtensionsAreEqual in Heq.
    destruct (upb_Message_ExtensionCount h msg1) as [c1| |];
      cbn [mbind result_bind] in Heq; try done.
    destruct (upb_Message_ExtensionCount h msg2) as [c2| |];
      cbn [mbind result_bind] in Heq; try done.
    exists c1, c2. repeat split.
    destruct (Z.eqb_spec c1 c2); [done|]. simpl in Heq. done. }
  destruct Hexts as (c1 & c2 & Hc1 & Hc2 & <-).
  unfold upb_Message_IsEmpty. rewrite Hc1, Hc2, E1, E2.
  cbn [mbind result_bind]. destruct (negb _); [done|].
  do 2 f_equal. apply bool_decide_ext. done.
Qed.

(** X9. An empty message against a well-formed message: if the other
    is not empty the two are unequal under [upb_Message_IsEqual], in either
    order; if the other is empty too, the answer is that of the comparator of
    unknown data, which [upb_Message_IsEmpty] leaves out of account. *)
Theorem IsEqual_of_empty `{!Collaborators} (d : nat) (h : heap)
  (msg1 msg2 : ptr) (m : upb_MiniTable) (mo1 mo2 : upb_Message) :
  wf_msg (S d) h m msg2 = true →
  msg1 ≠ msg2 →
  load_msg h msg1 = Ret mo1 → load_msg h msg2 = Ret mo2 →
  upb_Message_IsEmpty h msg1 m = Ret true →
  (upb_Message_IsEmpty h msg2 m = Ret false →
     upb_Message_IsEqual (S d) h msg1 msg2 m = Ret false
     ∧ upb_Message_IsEqual (S d) h msg2 msg1 m = Ret false)
  ∧ (upb_Message_IsEmpty h msg2 m = Ret true →
       upb_Message_IsEqual (S d) h msg1 msg2 m
       = Ret (bool_decide
                (_upb_Message_UnknownFieldsAreEqual (msg_unknown mo1)
                   (msg_unknown mo2) 100 = kUpb_UnknownCompareResult_Equal))).
Proof.
  intros Hwf2 Hne E1 E2 Hempty1. simpl in Hwf2.
  apply IsEmpty_true_inv in Hempty1 as (mo1' & E1' & Hnil1 & Hnone1).
  rewrite E1 in E1'. injection E1' as <-.
  pose proof (wf_message_readable h _ m msg2 Hwf2) as Hr2.
  pose proof (wf_message_inv h _ m msg2 Hwf2) as (_ & _ & Hsz & _).
  destruct (NextBaseField_returns h msg2 m kUpb_BaseField_Begin Hsz Hr2)
    as [got2 Hgot2].
  cbn [upb_Message_IsEqual]. unfold IsEqual_body.
  rewrite !bool_decide_eq_false_2 by congruence.
  rewrite !BaseFieldsAreEqual_first, Hnone1, Hgot2. cbn [mbind result_bind].
  split.
  - intros (mo2' & E2' & Hcase)%IsEmpty_false_inv.
    rewrite E2 in E2'. injection E2' as <-.
    destruct got2 as [[[f2 v2] i2]|]; [done|]. cbn [mbind result_bind negb].
    destruct Hcase as [Hexts|[r Hr]]; [|congruence].
    rewrite (ExtensionsAreEqual_nil h _ m msg1 msg2 mo1 mo2) by done.
    rewrite (ExtensionsAreEqual_nil_r h _ m msg2 msg1 mo2 mo1) by done.
    rewrite bool_decide_eq_false_2 by done. done.
  - intros (mo2' & E2' & Hnil2 & Hnone2)%IsEmpty_true_inv.
    rewrite E2 in E2'. injection E2' as <-.
    rewrite Hgot2 in Hnone2. injection Hnone2 as ->.
    cbn [mbind result_bind negb].
    rewrite (ExtensionsAreEqual_nil h _ m msg1 msg2 mo1 mo2) by done.
    rewrite bool_decide_eq_true_2 by done. cbn [mbind result_bind negb].
    unfold upb_Message_GetUnknown. rewrite E1, E2. done.
Qed.

(** ** Messages that hold the same known fields *)

(** X10. Two well-formed messages with the same has-bits of their
    explicit-presence fields, the same extensions in any order, and slots that are the same or belong to a field
    that is absent from both (a stale value under a clear has-bit; a null
    against an empty container) are equal under [upb_Message_IsEqual] exactly
    when the comparator of unknown data answers "equal" at depth limit 100:
    any other answer of the comparator, a failure too, reads as unequal. *)
Theorem IsEqual_same_known_fields `{!Collaborators} (d : nat) (h : heap)
  (m : upb_MiniTable) (p1 p2 : ptr) (mo1 mo2 : upb_Message) :
  wf_msg (S d) h m p1 = true → wf_msg (S d) h m p2 = true →
  p1 ≠ p2 →
  h !! p1 = Some (ObjMessage mo1) → h !! p2 = Some (ObjMessage mo2) →
  (∀ (j : nat) f k, mt_fields m !! j = Some f → field_presence f = Some k →
     msg_hasbits mo1 !! k = msg_hasbits mo2 !! k) →
  msg_exts mo1 ≡ₚ msg_exts mo2 →
  (∀ j : nat, (j < length (mt_fields m))%nat →
     msg_data mo1 !! j = msg_data mo2 !! j
     ∨ (field_present_at h p1 m (Z.of_nat j) = Ret false
        ∧ field_present_at h p2 m (Z.of_nat j) = Ret false)) →
  upb_Message_IsEqual (S d) h p1 p2 m
  = Ret (bool_decide
           (_upb_Message_UnknownFieldsAreEqual (msg_unknown mo1)
              (msg_unknown mo2) 100 = kUpb_UnknownCompareResult_Equal)).
Proof.
  intros Hwf1 Hwf2 Hne Hm1 Hm2 Hbits Hexts Hslots.
  destruct (wf_msg_open d h m p1 mo1 Hwf1 Hm1) as [E1 _].
  destruct (wf_msg_open d h m p2 mo2 Hwf2 Hm2) as [E2 _].
  simpl in Hwf1, Hwf2.
  cbn [upb_Message_IsEqual]. unfold IsEqual_body.
  rewrite bool_decide_eq_false_2 by done.
  rewrite (BaseFieldsAreEqual_agree h (wf_msg d h) _
             (IsEqual_refl_wf d h) m p1 p2 Hwf1 Hwf2).
  - cbn [mbind result_bind negb].
    rewrite (ExtensionsAreEqual_Permutation h (wf_msg d h) _
               (IsEqual_refl_wf d h) m p1 p2 mo1 mo2) by done.
    cbn [mbind result_bind negb].
    unfold upb_Message_GetUnknown. rewrite E1, E2. done.
  - intros j Hj. destruct (Hslots j Hj) as [Hsame|[Ha1 Ha2]].
    + destruct (field_present_at_agree h m p1 p2 mo1 mo2 j E1 E2 Hsame)
        as [Hp Hd].
      * intros f k Hf Hk. by apply (Hbits j f k).
      * split; [done|by intros _].
    + rewrite Ha1, Ha2. split; [done|]. intros ?; done.
Qed.

(** X11. Two well-formed messages that hold the same known fields but for
    one field, present in both, with unknown bytes the comparator accepts,
    compare as the two values of that field compare under the dispatch by
    kind: a repeated field as its arrays, a map field as its maps, a
    sub-message as the recursive comparison under the sub-descriptor of the
    field, a scalar or string by its bytes. *)
Theorem IsEqual_one_field `{!Collaborators} (d : nat) (h : heap)
  (m : upb_MiniTable) (p1 p2 : ptr) (mo1 mo2 : upb_Message) (j : nat)
  (f : upb_MiniTableField) (val1 val2 : upb_MessageValue) :
  wf_msg (S d) h m p1 = true → wf_msg (S d) h m p2 = true →
  p1 ≠ p2 →
  h !! p1 = Some (ObjMessage mo1) → h !! p2 = Some (ObjMessage mo2) →
  mt_fields m !! j = Some f →
  msg_data mo1 !! j = Some val1 →
  msg_data mo2 = <[j := val2]> (msg_data mo1) →
  msg_hasbits mo1 = msg_hasbits mo2 →
  msg_exts mo1 ≡ₚ msg_exts mo2 →
  _upb_Message_UnknownFieldsAreEqual (msg_unknown mo1) (msg_unknown mo2) 100
    = kUpb_UnknownCompareResult_Equal →
  field_present_at h p1 m (Z.of_nat j) = Ret true →
  field_present_at h p2 m (Z.of_nat j) = Ret true →
  upb_Message_IsEqual (S d) h p1 p2 m
  = field_value_eq h (upb_Message_IsEqual d h) m f
      (upb_MiniTable_GetSubMessageTable m f) val1 val2.
Proof.
  intros Hwf1 Hwf2 Hne Hm1 Hm2 Hf Hv1 Hdata Hbits Hexts Hunk Hp1 Hp2.
  destruct (wf_msg_open d h m p1 mo1 Hwf1 Hm1) as [E1 _].
  destruct (wf_msg_open d h m p2 mo2 Hwf2 Hm2) as [E2 _].
  simpl in Hwf1, Hwf2.
  assert (Hj : (j < length (mt_fields m))%nat) by by eapply lookup_lt_Some.
  assert (Hv2 : msg_data mo2 !! j = Some val2).
  { rewrite Hdata. apply list_lookup_insert_eq. by eapply lookup_lt_Some. }
  destruct (field_present_at_slot h p1 m mo1 j f val1 E1 Hf Hv1)
    as (Hf1 & Hd1 & _).
  destruct (field_present_at_slot h p2 m mo2 j f val2 E2 Hf Hv2)
    as (_ & Hd2 & _).
  destruct (wf_message_present h _ m p1 j Hwf1 Hp1)
    as (f1 & u1 & Hf1' & Hu1 & Hc1).
  destruct (wf_message_present h _ m p2 j Hwf2 Hp2)
    as (f2 & u2 & Hf2' & Hu2 & Hc2).
  rewrite Hf1 in Hf1', Hf2'. rewrite Hd1 in Hu1. rewrite Hd2 in Hu2.
  injection Hf1' as <-. injection Hf2' as <-.
  injection Hu1 as <-. injection Hu2 as <-.
  assert (Htot : ∀ sub q1 q2,
             wf_msg d h sub q1 = true → wf_msg d h sub q2 = true →
             ∃ b, upb_Message_IsEqual d h q1 q2 sub = Ret b)
    by (intros sub q1 q2; apply IsEqual_total).
  destruct (field_value_eq_total h (wf_msg d h) _ Htot m f _ val1 val2 Hc1 Hc2)
    as [b Hb].
  cbn [upb_Message_IsEqual]. unfold IsEqual_body.
  rewrite bool_decide_eq_false_2 by done.
  rewrite (BaseFieldsAreEqual_one_field h (wf_msg d h) _
             (IsEqual_refl_wf d h) m p1 p2 j Hwf1 Hwf2 Hj).
  - cbn [lockstep]. rewrite Hp1, Hp2, Hf1, Hd1, Hd2.
    cbn [mbind result_bind]. rewrite Hb. cbn [mbind result_bind].
    destruct b; [|done]. cbn [mbind result_bind negb].
    rewrite (ExtensionsAreEqual_Permutation h (wf_msg d h) _
               (IsEqual_refl_wf d h) m p1 p2 mo1 mo2) by done.
    cbn [mbind result_bind negb].
    unfold upb_Message_GetUnknown. rewrite E1, E2. cbn [mbind result_bind].
    by rewrite bool_decide_eq_true_2.
  - intros j' Hj' Hne'.
    apply (field_present_at_agree h m p1 p2 mo1 mo2 j' E1 E2).
    + rewrite Hdata. by rewrite list_lookup_insert_ne.
    + intros f' k _ _. by rewrite Hbits.
Qed.

(** ** Null container handles *)

(** X12. Map comparison with one null handle.  Against a map that holds an
    entry the sizes differ and the answer is false, in either order.  Against
    an empty map the two sizes are 0: with the empty map first no entry is
    traversed and the answer is true; with the null handle first the
    traversal of the first map reads through the null handle. *)
Theorem Map_IsEqual_null_handle `{!Collaborators} (h : heap)
  (IsEqual_rec : ptr → ptr → upb_MiniTable → result bool) (map : ptr)
  (mp : upb_Map) (m : upb_MiniTable) (f : upb_MiniTableField) :
  load_map h map = Ret mp →
  (map_entries mp ≠ [] →
     _upb_Map_IsEqual h IsEqual_rec NULL map m f = Ret false
     ∧ _upb_Map_IsEqual h IsEqual_rec map NULL m f = Ret false)
  ∧ (map_entries mp = [] →
       _upb_Map_IsEqual h IsEqual_rec map NULL m f = Ret true
       ∧ _upb_Map_IsEqual h IsEqual_rec NULL map m f = Fault NullDeref).
Proof.
  intros E. pose proof (proj1 (load_map_Ret _ _ _) E) as [Hp _].
  assert (Hs : handle_size upb_Map_Size h map
               = Ret (Z.of_nat (length (map_entries mp)))).
  { unfold handle_size, upb_Map_Size.
    rewrite bool_decide_eq_true_2, E by done. done. }
  assert (Hn : handle_size upb_Map_Size h NULL = Ret 0).
  { unfold handle_size. by rewrite bool_decide_eq_false_2 by (intros ?; done). }
  split.
  - intros Hne.
    assert (Z.of_nat (length (map_entries mp)) ≠ 0).
    { destruct (map_entries mp); [done|simpl; lia]. }
    split.
    + by apply (Map_IsEqual_sizes h _ NULL map m f 0
                  (Z.of_nat (length (map_entries mp)))).
    + by apply (Map_IsEqual_sizes h _ map NULL m f
                  (Z.of_nat (length (map_entries mp))) 0).
  - intros Hnil.
    assert (Hsz : upb_Map_Size h map = Ret 0).
    { unfold upb_Map_Size. rewrite E. cbn [mbind result_bind].
      by rewrite Hnil. }
    assert (Hnext : upb_Map_Next h map kUpb_Map_Begin = Ret None).
    { unfold upb_Map_Next. rewrite E. cbn [mbind result_bind].
      by rewrite Hnil. }
    assert (Hnull : upb_Map_Next h NULL kUpb_Map_Begin = Fault NullDeref)
      by done.
    split; unfold _upb_Map_IsEqual.
    + rewrite bool_decide_eq_false_2 by done.
      rewrite (bool_decide_eq_true_2 (map ≠ NULL)) by done.
      rewrite (bool_decide_eq_false_2 (NULL ≠ NULL)) by (intros ?; done).
      rewrite Hsz. cbn [mbind result_bind Z.eqb negb Z.to_nat while_next].
      rewrite Hnext. cbn [mbind result_bind].
      destruct (upb_MiniTableField_IsSubMessage _);
        [|destruct (_upb_IsStringView _)]; done.
    + rewrite bool_decide_eq_false_2 by done.
      rewrite (bool_decide_eq_true_2 (map ≠ NULL)) by done.
      rewrite (bool_decide_eq_false_2 (NULL ≠ NULL)) by (intros ?; done).
      rewrite Hsz. cbn [mbind result_bind Z.eqb negb Z.to_nat while_next].
      rewrite Hnull. cbn [mbind result_bind].
      destruct (upb_MiniTableField_IsSubMessage _);
        [|destruct (_upb_IsStringView _)]; done.
Qed.

(** X13. Array comparison with a null handle.  Two null handles are equal.
    A null handle against an array that holds an element: the sizes differ
    and the answer is false, in either order.  A null handle against an empty
    array: with the empty array first the answer is true; with the null
    handle first it is true for arrays of sub-messages and of strings, whose
    loops run over no element. *)
Theorem Array_IsEqual_null_handle `{!Collaborators} (h : heap)
  (IsEqual_rec : ptr → ptr → upb_MiniTable → result bool) (arr : ptr)
  (a : upb_Array) (m : upb_MiniTable) (f : upb_MiniTableField) :
  load_array h arr = Ret a →
  _upb_Array_IsEqual h IsEqual_rec NULL NULL m f = Ret true
  ∧ (arr_data a ≠ [] →
       _upb_Array_IsEqual h IsEqual_rec NULL arr m f = Ret false
       ∧ _upb_Array_IsEqual h IsEqual_rec arr NULL m f = Ret false)
  ∧ (arr_data a = [] →
       _upb_Array_IsEqual h IsEqual_rec arr NULL m f = Ret true
       ∧ (upb_MiniTableField_IsSubMessage f || _upb_IsStringView f = true →
          _upb_Array_IsEqual h IsEqual_rec NULL arr m f = Ret true)).
Proof.
  intros E. pose proof (proj1 (load_array_Ret _ _ _) E) as [Hp _].
  assert (Hs : handle_size upb_Array_Size h arr
               = Ret (Z.of_nat (length (arr_data a)))).
  { unfold handle_size, upb_Array_Size.
    rewrite bool_decide_eq_true_2, E by done. done. }
  assert (Hn : handle_size upb_Array_Size h NULL = Ret 0).
  { unfold handle_size. by rewrite bool_decide_eq_false_2 by (intros ?; done). }
  split; [apply Array_IsEqual_same|]. split.
  - intros Hne.
    assert (Z.of_nat (length (arr_data a)) ≠ 0).
    { destruct (arr_data a); [done|simpl; lia]. }
    split.
    + by apply (Array_IsEqual_sizes h _ NULL arr m f 0
                  (Z.of_nat (length (arr_data a)))).
    + by apply (Array_IsEqual_sizes h _ arr NULL m f
                  (Z.of_nat (length (arr_data a))) 0).
  - intros Hnil. split.
    + by apply (Array_IsEqual_empty_null h _ arr m f a).
    + intros Hkind.
      rewrite (Array_IsEqual_null_empty h _ arr m f a) by done.
      by rewrite Hkind.
Qed.

(** ** A null message *)

Lemma NextBaseField_null_msg h m :
  mt_fields m ≠ [] → in_size_t (length (mt_fields m)) = true →
  upb_Message_NextBaseField h NULL m kUpb_BaseField_Begin = Fault NullDeref.
Proof.
  intros Hne Hsz. unfold upb_Message_NextBaseField.
  destruct (mt_fields m) as [|f fs] eqn:Hm; [done|].
  cbn [length NextBaseField_loop].
  change (size_t_incr kUpb_BaseField_Begin) with 0.
  unfold upb_MiniTable_FieldCount. rewrite Hm. cbn [length].
  destruct (Z.ltb_spec 0 (Z.of_nat (S (length fs)))) as [_|?]; [|lia].
  unfold upb_MiniTable_GetFieldByIndex. rewrite Hm. done.
Qed.

Lemma NextBaseField_no_fields h msg m :
  mt_fields m = [] →
  upb_Message_NextBaseField h msg m kUpb_BaseField_Begin = Ret None.
Proof.
  intros Hnil. unfold upb_Message_NextBaseField. rewrite Hnil.
  cbn [length NextBaseField_loop]. unfold upb_MiniTable_FieldCount.
  by rewrite Hnil.
Qed.

(** X15. A null message is no empty message: against a well-formed message
    [upb_Message_IsEqual] reads through the null pointer, whichever operand
    it is, and so does [upb_Message_IsEmpty]; only two null pointers compare
    equal, by the identity test. *)
Theorem IsEqual_null_message `{!Collaborators} (d fuel : nat) (h : heap)
  (m : upb_MiniTable) (msg : ptr) :
  wf_msg (S d) h m msg = true →
  upb_Message_IsEqual (S fuel) h NULL msg m = Fault NullDeref
  ∧ upb_Message_IsEqual (S fuel) h msg NULL m = Fault NullDeref
  ∧ upb_Message_IsEmpty h NULL m = Fault NullDeref
  ∧ upb_Message_IsEqual (S fuel) h NULL NULL m = Ret true.
Proof.
  intros Hwf. simpl in Hwf.
  pose proof (wf_message_readable h _ m msg Hwf) as Hr.
  apply wf_message_inv in Hwf as (mo & E & Hsz & _).
  pose proof (proj1 (load_msg_Ret _ _ _) E) as [Hp _].
  destruct (NextBaseField_returns h msg m kUpb_BaseField_Begin Hsz Hr)
    as [got Hgot].
  assert (Hcount : upb_Message_ExtensionCount h NULL = Fault NullDeref) by done.
  assert (Hcount' : ∃ c, upb_Message_ExtensionCount h msg = Ret c).
  { unfold upb_Message_ExtensionCount, _upb_Message_Getexts. rewrite E.
    simpl. eauto. }
  destruct Hcount' as [c Hc].
  split; [|split; [|split]].
  - cbn [upb_Message_IsEqual]. unfold IsEqual_body.
    rewrite bool_decide_eq_false_2 by done.
    rewrite BaseFieldsAreEqual_first.
    destruct (decide (mt_fields m = [])) as [Hnil|Hne].
    + rewrite !NextBaseField_no_fields by done. cbn [negb mbind result_bind].
      unfold _upb_Message_ExtensionsAreEqual. rewrite Hcount. done.
    + by rewrite NextBaseField_null_msg.
  - cbn [upb_Message_IsEqual]. unfold IsEqual_body.
    rewrite bool_decide_eq_false_2 by done.
    rewrite BaseFieldsAreEqual_first.
    destruct (decide (mt_fields m = [])) as [Hnil|Hne].
    + rewrite !NextBaseField_no_fields by done. cbn [negb mbind result_bind].
      unfold _upb_Message_ExtensionsAreEqual. rewrite Hc, Hcount. done.
    + rewrite Hgot. cbn [mbind result_bind].
      by rewrite NextBaseField_null_msg.
  - unfold upb_Message_IsEmpty. by rewrite Hcount.
  - apply IsEqual_same.
Qed.

(** ** Container comparisons on well-formed containers *)

(** X17. On the well-formed arrays and on the well-formed maps of a field,
    [_upb_Array_IsEqual] and [_upb_Map_IsEqual] are symmetric and
    transitive, given a comparator of unknown data whose answer "equal" is
    symmetric and transitive (it is reached through sub-message elements):
    the map comparison walks the first map only and looks its keys up in the
    second, yet equal sizes and unique keys make that enough. *)
Theorem containers_symmetric_transitive `{!Collaborators} (d : nat)
  (h : heap) (m : upb_MiniTable) (f : upb_MiniTableField) :
  (∀ u1 u2,
     _upb_Message_UnknownFieldsAreEqual u1 u2 100
       = kUpb_UnknownCompareResult_Equal →
     _upb_Message_UnknownFieldsAreEqual u2 u1 100
       = kUpb_UnknownCompareResult_Equal) →
  (∀ u1 u2 u3,
     _upb_Message_UnknownFieldsAreEqual u1 u2 100
       = kUpb_UnknownCompareResult_Equal →
     _upb_Message_UnknownFieldsAreEqual u2 u3 100
       = kUpb_UnknownCompareResult_Equal →
     _upb_Message_UnknownFieldsAreEqual u1 u3 100
       = kUpb_UnknownCompareResult_Equal) →
  let rec := upb_Message_IsEqual d h in
  (∀ a1 a2,
     wf_array h (wf_msg d h) m f a1 = true →
     wf_array h (wf_msg d h) m f a2 = true →
     _upb_Array_IsEqual h rec a1 a2 m f = _upb_Array_IsEqual h rec a2 a1 m f)
  ∧ (∀ a1 a2 a3,
       wf_array h (wf_msg d h) m f a1 = true →
       wf_array h (wf_msg d h) m f a2 = true →
       wf_array h (wf_msg d h) m f a3 = true →
       _upb_Array_IsEqual h rec a1 a2 m f = Ret true →
       _upb_Array_IsEqual h rec a2 a3 m f = Ret true →
       _upb_Array_IsEqual h rec a1 a3 m f = Ret true)
  ∧ (∀ p1 p2,
       wf_map h (wf_msg d h) m f p1 = true →
       wf_map h (wf_msg d h) m f p2 = true →
       _upb_Map_IsEqual h rec p1 p2 m f = _upb_Map_IsEqual h rec p2 p1 m f)
  ∧ (∀ p1 p2 p3,
       wf_map h (wf_msg d h) m f p1 = true →
       wf_map h (wf_msg d h) m f p2 = true →
       wf_map h (wf_msg d h) m f p3 = true →
       _upb_Map_IsEqual h rec p1 p2 m f = Ret true →
       _upb_Map_IsEqual h rec p2 p3 m f = Ret true →
       _upb_Map_IsEqual h rec p1 p3 m f = Ret true).
Proof.
  intros Hsym Htrans rec.
  assert (Htot : ∀ sub q1 q2,
             wf_msg d h sub q1 = true → wf_msg d h sub q2 = true →
             ∃ b, rec q1 q2 sub = Ret b)
    by (intros sub q1 q2; apply IsEqual_total).
  assert (Hs : ∀ sub q1 q2,
             wf_msg d h sub q1 = true → wf_msg d h sub q2 = true →
             rec q1 q2 sub = rec q2 q1 sub)
    by (intros sub q1 q2; by apply IsEqual_sym_depth).
  assert (Ht : ∀ sub q1 q2 q3,
             wf_msg d h sub q1 = true → wf_msg d h sub q2 = true →
             wf_msg d h sub q3 = true →
             rec q1 q2 sub = Ret true → rec q2 q3 sub = Ret true →
             rec q1 q3 sub = Ret true)
    by (intros sub q1 q2 q3; by apply IsEqual_trans_depth).
  split; [|split; [|split]].
  - intros a1 a2. by apply (Array_IsEqual_sym h (wf_msg d h) rec).
  - intros a1 a2 a3. by apply (Array_IsEqual_trans h (wf_msg d h) rec).
  - intros p1 p2. by apply (Map_IsEqual_sym h (wf_msg d h) rec).
  - intros p1 p2 p3. by apply (Map_IsEqual_trans h (wf_msg d h) rec).
Qed.

(** * The further properties on the nested heap *)

Section NestedWitnesses.
Import Nested.
Local Existing Instance schema.

Lemma base_field_walk_enumerates_witness :
  base_field_walk nested_heap 376 m_outer
  = Ret [(g_items, Raw 104, 1); (g_index, Raw 168, 4)].
Proof.
  destruct (base_field_walk_enumerates nested_heap 376 m_outer)
    as (Hwalk & _).
  - reflexivity.
  - apply (wf_message_readable nested_heap (wf_msg 1 nested_heap)).
    reflexivity.
  - exact Hwalk.
Defined.

Lemma extension_walk_enumerates_witness :
  upb_Message_NextExtension Example.example_heap 160 Example.m_example 0
  = Ret (Some (Example.e_vals, Raw 64, 1))
  ∧ upb_Message_NextExtension Example.example_heap 160 Example.m_example 1
    = Ret None
  ∧ extension_walk Example.example_heap 160 Example.m_example
    = Ret [(Example.e_flag, Raw 1); (Example.e_vals, Raw 64)].
Proof.
  destruct (extension_walk_enumerates Example.example_heap 160
              Example.m_example Example.msg_D) as [Hnext Hwalk];
    [reflexivity|reflexivity|].
  split; [|split].
  - rewrite Hnext. reflexivity.
  - rewrite Hnext. reflexivity.
  - exact Hwalk.
Defined.

Lemma IsEqual_transitive_witness :
  upb_Message_IsEqual 3 nested_heap 200 232 m_outer = Ret true.
Proof.
  apply (IsEqual_transitive 2 3 nested_heap m_outer 200 216 232).
  - intros u1 u2 u3. simpl. repeat case_bool_decide; congruence.
  - reflexivity.
  - reflexivity.
  - reflexivity.
  - lia.
  - reflexivity.
  - reflexivity.
Defined.

Lemma BaseFieldsAreEqual_field_by_field_witness :
  ∃ b, _upb_Message_BaseFieldsAreEqual nested_heap
         (upb_Message_IsEqual 1 nested_heap) 200 216 m_outer = Ret b
     ∧ (b = true ↔
        ∀ j : nat, (j < length (mt_fields m_outer))%nat →
          field_agrees nested_heap (upb_Message_IsEqual 1 nested_heap)
            200 216 m_outer j).
Proof.
  apply (BaseFieldsAreEqual_field_by_field 1 nested_heap m_outer 200 216);
    reflexivity.
Defined.

Lemma IsExactlyEqual_payloads_witness :
  (upb_Message_IsExactlyEqual nested_heap 200 216 m_outer
     Example.example_allocator).1 = true.
Proof.
  destruct (IsExactlyEqual_payloads nested_heap 200 216 m_outer
              Example.example_allocator) as [Hiff _].
  apply Hiff. right. repeat split; reflexivity.
Defined.

Lemma IsEmpty_no_field_no_extension_witness :
  upb_Message_IsEmpty nested_heap 296 m_outer = Ret true.
Proof.
  apply (IsEmpty_no_field_no_extension nested_heap 296 m_outer);
    [reflexivity|].
  exists blank_stale. repeat split.
  intros j Hj. change (upb_MiniTable_FieldCount m_outer) with 5 in Hj.
  assert (j = 0 ∨ j = 1 ∨ j = 2 ∨ j = 3 ∨ j = 4)
    as [->|[->|[->|[->| ->]]]] by lia; reflexivity.
Defined.

Lemma IsEqual_IsEmpty_agree_witness :
  upb_Message_IsEmpty nested_heap 264 m_outer
  = upb_Message_IsEmpty nested_heap 296 m_outer.
Proof.
  apply (IsEqual_IsEmpty_agree 2 nested_heap 264 296 m_outer). reflexivity.
Defined.

Lemma IsEqual_of_empty_witness :
  (upb_Message_IsEqual 2 nested_heap 264 200 m_outer = Ret false
   ∧ upb_Message_IsEqual 2 nested_heap 200 264 m_outer = Ret false)
  ∧ upb_Message_IsEqual 2 nested_heap 264 280 m_outer = Ret false.
Proof.
  split.
  - destruct (IsEqual_of_empty 1 nested_heap 264 200 m_outer
                (blank [Byte.x01]) (outer 8 104 136 168)) as [Hfalse _].
    + reflexivity.
    + discriminate.
    + reflexivity.
    + reflexivity.
    + reflexivity.
    + apply Hfalse. reflexivity.
  - destruct (IsEqual_of_empty 1 nested_heap 264 280 m_outer
                (blank [Byte.x01]) (blank [Byte.x02])) as [_ Hunknown].
    + reflexivity.
    + discriminate.
    + reflexivity.
    + reflexivity.
    + reflexivity.
    + rewrite Hunknown by reflexivity. reflexivity.
Defined.

Lemma IsEqual_same_known_fields_witness :
  upb_Message_IsEqual 2 nested_heap 264 296 m_outer = Ret true.
Proof.
  rewrite (IsEqual_same_known_fields 1 nested_heap m_outer 264 296
             (blank [Byte.x01]) blank_stale); try reflexivity.
  - discriminate.
  - intros j Hj.
    destruct j as [|[|[|[|[|j]]]]];
      [right; split; reflexivity|right; split; reflexivity|left; reflexivity
      |left; reflexivity|right; split; reflexivity|simpl in Hj; lia].
Defined.

Lemma IsEqual_one_field_witness :
  upb_Message_IsEqual 2 nested_heap 200 248 m_outer
  = upb_Message_IsEqual 1 nested_heap 8 40 m_inner
  ∧ upb_Message_IsEqual 2 nested_heap 200 248 m_outer = Ret false.
Proof.
  assert (H : upb_Message_IsEqual 2 nested_heap 200 248 m_outer
              = field_value_eq nested_heap (upb_Message_IsEqual 1 nested_heap)
                  m_outer g_child
                  (upb_MiniTable_GetSubMessageTable m_outer g_child)
                  (Raw 8) (Raw 40)).
  { apply (IsEqual_one_field 1 nested_heap m_outer 200 248
             (outer 8 104 136 168) (outer 40 104 136 168) 0%nat g_child
             (Raw 8) (Raw 40)); try reflexivity. discriminate. }
  split; rewrite H; reflexivity.
Defined.

Lemma Map_IsEqual_null_handle_witness :
  (_upb_Map_IsEqual nested_heap (upb_Message_IsEqual 1 nested_heap)
     NULL 168 m_outer g_index = Ret false
   ∧ _upb_Map_IsEqual nested_heap (upb_Message_IsEqual 1 nested_heap)
       168 NULL m_outer g_index = Ret false)
  ∧ (_upb_Map_IsEqual nested_heap (upb_Message_IsEqual 1 nested_heap)
       192 NULL m_outer g_index = Ret true
     ∧ _upb_Map_IsEqual nested_heap (upb_Message_IsEqual 1 nested_heap)
         NULL 192 m_outer g_index = Fault NullDeref).
Proof.
  split.
  - destruct (Map_IsEqual_null_handle nested_heap
                (upb_Message_IsEqual 1 nested_heap) 168
                {| map_entries := [(Raw 1, Raw 8); (Raw 2, Raw 40)] |}
                m_outer g_index eq_refl) as [Hfull _].
    apply Hfull. discriminate.
  - destruct (Map_IsEqual_null_handle nested_heap
                (upb_Message_IsEqual 1 nested_heap) 192
                {| map_entries := [] |} m_outer g_index eq_refl)
      as [_ Hempty].
    apply Hempty. reflexivity.
Defined.

Lemma Array_IsEqual_null_handle_witness :
  (_upb_Array_IsEqual nested_heap (upb_Message_IsEqual 1 nested_heap)
     NULL 104 m_outer g_items = Ret false
   ∧ _upb_Array_IsEqual nested_heap (upb_Message_IsEqual 1 nested_heap)
       104 NULL m_outer g_items = Ret false)
  ∧ (_upb_Array_IsEqual nested_heap (upb_Message_IsEqual 1 nested_heap)
       152 NULL m_outer g_items = Ret true
     ∧ _upb_Array_IsEqual nested_heap (upb_Message_IsEqual 1 nested_heap)
         NULL 152 m_outer g_items = Ret true).
Proof.
  split.
  - destruct (Array_IsEqual_null_handle nested_heap
                (upb_Message_IsEqual 1 nested_heap) 104
                {| arr_elem_size_lg2 := 3; arr_data := [Raw 8; Raw 40] |}
                m_outer g_items eq_refl) as (_ & Hfull & _).
    apply Hfull. discriminate.
  - destruct (Array_IsEqual_null_handle nested_heap
                (upb_Message_IsEqual 1 nested_heap) 152
                {| arr_elem_size_lg2 := 3; arr_data := [] |}
                m_outer g_items eq_refl) as (_ & _ & Hempty).
    destruct (Hempty eq_refl) as [Hright Hleft].
    split; [exact Hright|]. apply Hleft. reflexivity.
Defined.

Lemma containers_symmetric_transitive_witness :
  (_upb_Map_IsEqual nested_heap (upb_Message_IsEqual 1 nested_heap)
     168 176 m_outer g_index
   = _upb_Map_IsEqual nested_heap (upb_Message_IsEqual 1 nested_heap)
       176 168 m_outer g_index
   ∧ _upb_Map_IsEqual nested_heap (upb_Message_IsEqual 1 nested_heap)
       168 184 m_outer g_index = Ret true)
  ∧ (_upb_Array_IsEqual nested_heap (upb_Message_IsEqual 1 nested_heap)
       104 112 m_outer g_items
     = _upb_Array_IsEqual nested_heap (upb_Message_IsEqual 1 nested_heap)
         112 104 m_outer g_items
     ∧ _upb_Array_IsEqual nested_heap (upb_Message_IsEqual 1 nested_heap)
         104 120 m_outer g_items = Ret true).
Proof.
  assert (Hsym : ∀ u1 u2,
            _upb_Message_UnknownFieldsAreEqual u1 u2 100
              = kUpb_UnknownCompareResult_Equal →
            _upb_Message_UnknownFieldsAreEqual u2 u1 100
              = kUpb_UnknownCompareResult_Equal).
  { intros u1 u2. simpl. repeat case_bool_decide; congruence. }
  assert (Htrans : ∀ u1 u2 u3,
            _upb_Message_UnknownFieldsAreEqual u1 u2 100
              = kUpb_UnknownCompareResult_Equal →
            _upb_Message_UnknownFieldsAreEqual u2 u3 100
              = kUpb_UnknownCompareResult_Equal →
            _upb_Message_UnknownFieldsAreEqual u1 u3 100
              = kUpb_UnknownCompareResult_Equal).
  { intros u1 u2 u3. simpl. repeat case_bool_decide; congruence. }
  split.
  - destruct (containers_symmetric_transitive 1 nested_heap m_outer g_index
                Hsym Htrans) as (_ & _ & Hmsym & Hmtrans).
    split.
    + apply Hmsym; reflexivity.
    + apply (Hmtrans 168 176 184); reflexivity.
  - destruct (containers_symmetric_transitive 1 nested_heap m_outer g_items
                Hsym Htrans) as (Hasym & Hatrans & _).
    split.
    + apply Hasym; reflexivity.
    + apply (Hatrans 104 112 120); reflexivity.
Defined.

Lemma IsEqual_null_message_witness :
  upb_Message_IsEqual 1 nested_heap NULL 200 m_outer = Fault NullDeref
  ∧ upb_Message_IsEqual 1 nested_heap 200 NULL m_outer = Fault NullDeref
  ∧ upb_Message_IsEmpty nested_heap NULL m_outer = Fault NullDeref
  ∧ upb_Message_IsEqual 1 nested_heap NULL NULL m_outer = Ret true.
Proof.
  apply (IsEqual_null_message 1 0 nested_heap m_outer 200). reflexivity.
Defined.
End NestedWitnesses.

(** ** Extensions typed by their own descriptors *)

Lemma forallb_impl {A : Type} (f g : A → bool) (l : list A) :
  (∀ x, f x = true → g x = true) → forallb f l = true → forallb g l = true.
Proof.
  intros Hfg. rewrite !forallb_Forall. intros Hall.
  eapply Forall_impl; [exact Hall|]. exact Hfg.
Qed.

Lemma wf_value_sub_irrelevant (w : upb_MiniTable → ptr → bool) f sub sub' v :
  upb_MiniTableField_IsSubMessage f = false →
  wf_value w f sub v = wf_value w f sub' v.
Proof. intros Hsub. unfold wf_value. by rewrite Hsub. Qed.

Section TypedFacts.
Context `{!Collaborators}.
Variable h : heap.
Variables w1 w2 : upb_MiniTable → ptr → bool.
Hypothesis Hmono : ∀ sub q, w1 sub q = true → w2 sub q = true.

Lemma wf_value_mono f sub v :
  wf_value w1 f sub v = true → wf_value w2 f sub v = true.
Proof.
  unfold wf_value. destruct v as [w|s]; [|done].
  destruct (upb_MiniTableField_IsSubMessage f); [|done].
  intros [Hn Hw]%andb_true_iff. apply andb_true_iff.
  split; [done|by apply Hmono].
Qed.

Lemma wf_array_of_mono f sub a :
  wf_array_of h w1 f sub a = true → wf_array_of h w2 f sub a = true.
Proof.
  unfold wf_array_of. destruct (bool_decide (a ≠ NULL)); [|done]. simpl.
  destruct (h !! a) as [[arr| |]|]; try done.
  rewrite !andb_true_iff. intros [Hhd Hall]. split; [done|].
  revert Hall. apply forallb_impl. intros v. apply wf_value_mono.
Qed.

Lemma wf_map_of_mono entry p :
  wf_map_of h w1 entry p = true → wf_map_of h w2 entry p = true.
Proof.
  unfold wf_map_of. cbv zeta.
  destruct (bool_decide (p ≠ NULL)); [|done]. simpl.
  destruct (h !! p) as [[|mp|]|]; try done.
  rewrite !andb_true_iff. intros [Hhd Hall]. split; [done|].
  revert Hall. apply forallb_impl. intros kv. apply wf_value_mono.
Qed.

Lemma wf_slot_mono m mo f v :
  wf_slot h w1 m mo f v = true → wf_slot h w2 m mo f v = true.
Proof.
  unfold wf_slot. destruct (field_mode f).
  - intros [Hk Hv]%andb_true_iff. apply andb_true_iff. split; [done|].
    destruct v as [w|s]; [|done].
    apply orb_true_iff in Hv as [Hv|Hv]; apply orb_true_iff; [by left|].
    right. by apply (wf_map_of_mono (upb_MiniTable_GetSubMessageTable m f)).
  - intros [Hk Hv]%andb_true_iff. apply andb_true_iff. split; [done|].
    destruct v as [w|s]; [|done].
    apply orb_true_iff in Hv as [Hv|Hv]; apply orb_true_iff; [by left|].
    right.
    by apply (wf_array_of_mono f (upb_MiniTable_GetSubMessageTable m f)).
  - intros [Hk Hv]%andb_true_iff. apply andb_true_iff. split; [done|].
    destruct (upb_MiniTableField_IsSubMessage f).
    + destruct v as [w|s]; [|done].
      destruct (bool_decide (low_bytes 8 w = NULL)); [done|].
      by apply Hmono.
    + by apply wf_value_mono.
Qed.

(** An extension that is typed by its own descriptor, and for which the
    lookup of the code agrees with it, is typed as the code reads it. *)
Lemma wf_extension_typed m x :
  wf_extension_own h w1 x = true → sub_lookup_agrees m x = true →
  wf_extension h w2 m x = true.
Proof.
  unfold wf_extension_own, sub_lookup_agrees, wf_extension, wf_compared.
  unfold upb_MiniTableField_IsArray, upb_MiniTableField_IsMap,
    upb_MiniTableExtension_GetSubMessage.
  cbv zeta. destruct (field_mode (ext_field (ext x))) eqn:Hmode.
  - rewrite (bool_decide_eq_true_2
               (kUpb_FieldMode_Map = kUpb_FieldMode_Map)) by done.
    rewrite orb_true_r. intros Hown Hag%bool_decide_eq_true.
    destruct (data x) as [w|s]; [|done].
    change (wf_map_of h w2
              (upb_MiniTable_GetSubMessageTable m (ext_field (ext x)))
              (low_bytes 8 w) = true).
    rewrite Hag. by apply wf_map_of_mono.
  - rewrite (bool_decide_eq_true_2
               (kUpb_FieldMode_Array = kUpb_FieldMode_Array)) by done.
    rewrite (bool_decide_eq_false_2
               (kUpb_FieldMode_Array = kUpb_FieldMode_Map)) by done.
    rewrite orb_false_r, andb_true_l. intros Hown Hag.
    destruct (data x) as [w|s]; [|done].
    change (wf_array_of h w2 (ext_field (ext x))
              (upb_MiniTable_GetSubMessageTable m (ext_field (ext x)))
              (low_bytes 8 w) = true).
    destruct (upb_MiniTableField_IsSubMessage (ext_field (ext x)))
      eqn:Hsub.
    + apply bool_decide_eq_true in Hag. rewrite Hag.
      by apply wf_array_of_mono.
    + apply wf_array_of_mono in Hown. revert Hown. unfold wf_array_of.
      destruct (bool_decide (_ ≠ NULL)); [|done]. simpl.
      destruct (h !! _) as [[arr| |]|]; try done.
      rewrite !andb_true_iff. intros [Hhd Hall]. split; [done|].
      revert Hall. apply forallb_impl. intros v.
      by rewrite (wf_value_sub_irrelevant w2 _ (ext_sub (ext x))
                    (upb_MiniTable_GetSubMessageTable m (ext_field (ext x)))).
  - intros Hown _. by apply wf_value_mono.
Qed.

Lemma wf_message_typed_wf m p :
  wf_message_typed h w1 m p = true → wf_message h w2 m p = true.
Proof.
  unfold wf_message_typed, wf_message.
  destruct (bool_decide (p ≠ NULL)); [|done]. simpl.
  destruct (h !! p) as [[| |mo]|]; try done.
  rewrite !andb_true_iff.
  intros [[[[[[Hsz Hlen] Hslots] Hxsz] Hnd] Hown] Hag].
  repeat split; try done.
  - revert Hslots. apply forallb_impl. intros [f v]. apply wf_slot_mono.
  - apply forallb_Forall. apply forallb_Forall in Hown, Hag.
    apply Forall_forall. intros x Hx. apply wf_extension_typed.
    + by apply (proj1 (Forall_forall _ _) Hown).
    + by apply (proj1 (Forall_forall _ _) Hag).
Qed.

Lemma wf_message_typed_inv m p :
  wf_message_typed h w1 m p = true →
  ∃ mo, load_msg h p = Ret mo
    ∧ in_size_t (length (msg_exts mo)) = true
    ∧ Forall (λ x, wf_extension_own h w1 x = true) (msg_exts mo)
    ∧ Forall (λ x, sub_lookup_agrees m x = true) (msg_exts mo).
Proof.
  unfold wf_message_typed. intros [Hn Hw]%andb_true_iff.
  apply bool_decide_eq_true in Hn.
  destruct (h !! p) as [[| |mo]|] eqn:Ha; try done.
  revert Hw. rewrite !andb_true_iff.
  intros [[[[[[Hsz Hlen] Hslots] Hxsz] Hnd] Hown] Hag].
  exists mo. rewrite load_msg_Ret.
  apply forallb_Forall in Hown, Hag. done.
Qed.
End TypedFacts.

Lemma wf_typed_wf_msg `{!Collaborators} (d : nat) (h : heap)
  (m : upb_MiniTable) (p : ptr) :
  wf_typed d h m p = true → wf_msg d h m p = true.
Proof.
  revert m p. induction d as [|d IH]; intros m p; [done|]. simpl.
  apply wf_message_typed_wf. exact IH.
Qed.

(** ** The dispatch of the code against that of the specification *)

Section SpecAgreement.
Context `{!Collaborators}.
Variable h : heap.
Variable wf_sub : upb_MiniTable → ptr → bool.
Variable IsEqual_rec : ptr → ptr → upb_MiniTable → result bool.

Lemma wf_array_of_load f sub a :
  wf_array_of h wf_sub f sub a = true → ∃ arr, load_array h a = Ret arr.
Proof.
  unfold wf_array_of. intros [Hn Hw]%andb_true_iff.
  apply bool_decide_eq_true in Hn.
  destruct (h !! a) as [[arr| |]|] eqn:Ha; try done.
  exists arr. by rewrite load_array_Ret.
Qed.

Lemma wf_map_of_load entry p :
  wf_map_of h wf_sub entry p = true →
  ∃ mp, load_map h p = Ret mp
        ∧ in_size_t (length (map_entries mp)) = true.
Proof.
  unfold wf_map_of. cbv zeta. intros [Hn Hw]%andb_true_iff.
  apply bool_decide_eq_true in Hn.
  destruct (h !! p) as [[|mp|]|] eqn:Ha; try done.
  apply andb_true_iff in Hw as [[Hsz _]%andb_true_iff _].
  exists mp. by rewrite load_map_Ret.
Qed.

(** On two valid arrays the code compares as the specification says,
    provided the descriptor it looks up for sub-message elements is that
    of the field. *)
Lemma Array_IsEqual_spec m f sub a1 a2 :
  wf_array_of h wf_sub f sub a1 = true →
  wf_array_of h wf_sub f sub a2 = true →
  (upb_MiniTableField_IsSubMessage f = true →
   upb_MiniTable_GetSubMessageTable m f = sub) →
  _upb_Array_IsEqual h IsEqual_rec a1 a2 m f
  = spec_array_equal h IsEqual_rec f sub a1 a2.
Proof.
  intros [arr1 E1]%wf_array_of_load [arr2 E2]%wf_array_of_load Hag.
  pose proof (proj1 (load_array_Ret _ _ _) E1) as [Hp1 _].
  pose proof (proj1 (load_array_Ret _ _ _) E2) as [Hp2 _].
  unfold spec_array_equal.
  destruct (decide (a1 = a2)) as [->|Hne].
  { by rewrite Array_IsEqual_same, bool_decide_eq_true_2. }
  rewrite bool_decide_eq_false_2 by done.
  assert (Hs1 : handle_size upb_Array_Size h a1
                = Ret (Z.of_nat (length (arr_data arr1)))).
  { unfold handle_size, upb_Array_Size.
    by rewrite bool_decide_eq_true_2, E1. }
  assert (Hs2 : handle_size upb_Array_Size h a2
                = Ret (Z.of_nat (length (arr_data arr2)))).
  { unfold handle_size, upb_Array_Size.
    by rewrite bool_decide_eq_true_2, E2. }
  rewrite Hs1, Hs2. cbn [mbind result_bind].
  destruct (decide (length (arr_data arr1) = length (arr_data arr2)))
    as [Hlen|Hlen].
  - rewrite (Array_IsEqual_elems h _ a1 a2 m f arr1 arr2) by done.
    rewrite Hlen, Z.eqb_refl. cbn [negb]. rewrite <- Hlen.
    destruct (Z.eqb_spec (Z.of_nat (length (arr_data arr1))) 0) as [H0|H0].
    + destruct (arr_data arr1); [done|simpl in H0; lia].
    + rewrite E1, E2. cbn [mbind result_bind].
      apply all_equal_ext, Forall_forall. intros [v1 v2] _. simpl.
      unfold array_elem_eq, spec_elem_equal.
      destruct (upb_MiniTableField_IsSubMessage f) eqn:Hsub; [|done].
      by rewrite Hag.
  - rewrite (Array_IsEqual_sizes h _ a1 a2 m f _ _ Hne Hs1 Hs2) by lia.
    destruct (Z.eqb_spec (Z.of_nat (length (arr_data arr1)))
                (Z.of_nat (length (arr_data arr2)))); [lia|done].
Qed.

Lemma Map_IsEqual_spec m f p1 p2 :
  wf_map_of h wf_sub (upb_MiniTable_GetSubMessageTable m f) p1 = true →
  wf_map_of h wf_sub (upb_MiniTable_GetSubMessageTable m f) p2 = true →
  _upb_Map_IsEqual h IsEqual_rec p1 p2 m f
  = spec_map_equal h IsEqual_rec (upb_MiniTable_GetSubMessageTable m f)
      p1 p2.
Proof.
  intros (mp1 & E1 & Hsz1)%wf_map_of_load (mp2 & E2 & Hsz2)%wf_map_of_load.
  pose proof (proj1 (load_map_Ret _ _ _) E1) as [Hp1 _].
  pose proof (proj1 (load_map_Ret _ _ _) E2) as [Hp2 _].
  unfold spec_map_equal.
  destruct (decide (p1 = p2)) as [->|Hne].
  { by rewrite Map_IsEqual_same, bool_decide_eq_true_2. }
  rewrite bool_decide_eq_false_2 by done.
  assert (Hs1 : handle_size upb_Map_Size h p1
                = Ret (Z.of_nat (length (map_entries mp1)))).
  { unfold handle_size, upb_Map_Size.
    by rewrite bool_decide_eq_true_2, E1. }
  assert (Hs2 : handle_size upb_Map_Size h p2
                = Ret (Z.of_nat (length (map_entries mp2)))).
  { unfold handle_size, upb_Map_Size.
    by rewrite bool_decide_eq_true_2, E2. }
  rewrite Hs1, Hs2. cbn [mbind result_bind].
  destruct (decide (length (map_entries mp1) = length (map_entries mp2)))
    as [Hlen|Hlen].
  - rewrite (Map_IsEqual_entries h _ p1 p2 m f mp1 mp2) by done.
    rewrite Hlen, Z.eqb_refl. cbn [negb]. rewrite <- Hlen.
    destruct (Z.eqb_spec (Z.of_nat (length (map_entries mp1))) 0)
      as [H0|H0].
    + destruct (map_entries mp1); [done|simpl in H0; lia].
    + rewrite E1, E2. done.
  - rewrite (Map_IsEqual_sizes h _ p1 p2 m f _ _ Hne Hs1 Hs2) by lia.
    destruct (Z.eqb_spec (Z.of_nat (length (map_entries mp1)))
                (Z.of_nat (length (map_entries mp2)))); [lia|done].
Qed.

(** The values of one extension, held by two messages. *)
Lemma field_value_eq_spec m x1 x2 :
  ext x2 = ext x1 →
  wf_extension_own h wf_sub x1 = true →
  wf_extension_own h wf_sub x2 = true →
  sub_lookup_agrees m x1 = true →
  field_value_eq h IsEqual_rec m (ext_field (ext x1)) (ext_sub (ext x1))
    (data x1) (data x2)
  = spec_value_equal h IsEqual_rec (ext_field (ext x1))
      (upb_MiniTableExtension_GetSubMessage (ext x1)) (data x1) (data x2).
Proof.
  intros He. unfold wf_extension_own, sub_lookup_agrees. rewrite He.
  unfold field_value_eq, spec_value_equal.
  unfold upb_MiniTableField_IsArray, upb_MiniTableField_IsMap,
    upb_MiniTableExtension_GetSubMessage.
  cbv zeta. destruct (field_mode (ext_field (ext x1))) eqn:Hmode.
  - rewrite (bool_decide_eq_false_2
               (kUpb_FieldMode_Map = kUpb_FieldMode_Array)) by done.
    rewrite (bool_decide_eq_true_2
               (kUpb_FieldMode_Map = kUpb_FieldMode_Map)) by done.
    rewrite orb_true_r. intros W1 W2 Hag%bool_decide_eq_true.
    destruct (data x1) as [u1|]; [|done].
    destruct (data x2) as [u2|]; [|done].
    cbn [map_val ptr_val mbind result_bind].
    rewrite <- Hag in W1, W2 |- *. by apply Map_IsEqual_spec.
  - rewrite (bool_decide_eq_true_2
               (kUpb_FieldMode_Array = kUpb_FieldMode_Array)) by done.
    rewrite (bool_decide_eq_false_2
               (kUpb_FieldMode_Array = kUpb_FieldMode_Map)) by done.
    rewrite orb_false_r, andb_true_l. intros W1 W2 Hag.
    destruct (data x1) as [u1|]; [|done].
    destruct (data x2) as [u2|]; [|done].
    cbn [array_val ptr_val mbind result_bind].
    apply Array_IsEqual_spec; try done.
    intros Hsub. rewrite Hsub in Hag. by apply bool_decide_eq_true in Hag.
  - rewrite !(bool_decide_eq_false_2 (kUpb_FieldMode_Scalar = _)) by done.
    done.
Qed.

(** On two messages whose extensions are typed by their own descriptors
    and looked up consistently, the comparison of extensions is the one
    of the specification. *)
Lemma ExtensionsAreEqual_spec m p1 p2 :
  wf_message_typed h wf_sub m p1 = true →
  wf_message_typed h wf_sub m p2 = true →
  _upb_Message_ExtensionsAreEqual h IsEqual_rec p1 p2 m
  = spec_extensions_equal h IsEqual_rec p1 p2.
Proof.
  intros (mo1 & E1 & Hsz1 & Hown1 & Hag1)%wf_message_typed_inv
         (mo2 & E2 & Hsz2 & Hown2 & Hag2)%wf_message_typed_inv.
  unfold spec_extensions_equal. rewrite E1, E2. cbn [mbind result_bind].
  destruct (decide (length (msg_exts mo1) = length (msg_exts mo2)))
    as [Hlen|Hlen].
  - rewrite bool_decide_eq_true_2 by done. cbn [negb].
    rewrite (ExtensionsAreEqual_exts h _ p1 p2 m mo1 mo2) by done.
    apply all_equal_ext, Forall_forall. intros x1 Hx1.
    destruct (ext_lookup (ext x1) (msg_exts mo2)) as [x2|] eqn:El; [|done].
    apply ext_lookup_Some in El as [Hx2 He].
    apply field_value_eq_spec; try done.
    + by apply (proj1 (Forall_forall _ _) Hown1).
    + by apply (proj1 (Forall_forall _ _) Hown2).
    + by apply (proj1 (Forall_forall _ _) Hag1).
  - rewrite bool_decide_eq_false_2 by done. cbn [negb].
    by apply (ExtensionsAreEqual_counts h _ p1 p2 m mo1 mo2).
Qed.
End SpecAgreement.

(** ** Messages whose extensions are looked up consistently *)

(** X4. On well-formed messages whose extensions are typed by their own
    descriptors, and in which the sub-descriptor that the code looks up for
    a repeated sub-message extension or a map extension is that of the
    extension, every entry point returns an answer: no read goes through a
    null or dangling pointer, out of bounds or to the wrong member of a
    value, and the recursion of [upb_Message_IsEqual] through sub-messages
    ends.  The answer of [upb_Message_IsEqual] is the same for any fuel from
    the depth of the messages on. *)
Theorem wf_typed_no_fault `{!Collaborators} (d fuel : nat) (h : heap)
  (m : upb_MiniTable) (p1 p2 : ptr) :
  wf_typed d h m p1 = true → wf_typed d h m p2 = true → (d ≤ fuel)%nat →
  (∃ b, upb_Message_IsEqual fuel h p1 p2 m = Ret b
        ∧ upb_Message_IsEqual d h p1 p2 m = Ret b)
  ∧ (∃ e, upb_Message_IsEmpty h p1 m = Ret e)
  ∧ (∀ iter, ∃ r, upb_Message_NextBaseField h p1 m iter = Ret r)
  ∧ (∀ iter, ∃ r, upb_Message_NextExtension h p1 m iter = Ret r).
Proof.
  intros Hwf1%wf_typed_wf_msg Hwf2%wf_typed_wf_msg Hle.
  split; [by apply IsEqual_enough_fuel|].
  destruct d as [|d]; [done|]. simpl in Hwf1.
  pose proof (wf_message_readable h _ m p1 Hwf1) as Hr.
  apply wf_message_inv in Hwf1 as (mo & E & Hsz & _).
  split; [|split].
  - unfold upb_Message_IsEmpty, upb_Message_ExtensionCount,
      _upb_Message_Getexts.
    rewrite E. cbn [mbind result_bind].
    destruct (negb _); [eauto|].
    destruct (NextBaseField_returns h p1 m kUpb_BaseField_Begin Hsz Hr)
      as [r ->].
    cbn [mbind result_bind]. eauto.
  - intros iter. by apply NextBaseField_returns.
  - intros iter. by apply (NextExtension_returns h p1 mo).
Qed.

(** X5. [upb_Message_IsEqual] is symmetric on well-formed messages whose
    extensions are typed by their own descriptors and looked up
    consistently, given a comparator of unknown data whose answer "equal" is
    symmetric: the maps and the extensions of the second message are
    searched for those of the first only, yet with the operands exchanged
    the answer is the same. *)
Theorem IsEqual_symmetric `{!Collaborators} (d fuel : nat) (h : heap)
  (m : upb_MiniTable) (p1 p2 : ptr) :
  (∀ u1 u2,
     _upb_Message_UnknownFieldsAreEqual u1 u2 100
       = kUpb_UnknownCompareResult_Equal →
     _upb_Message_UnknownFieldsAreEqual u2 u1 100
       = kUpb_UnknownCompareResult_Equal) →
  wf_typed d h m p1 = true → wf_typed d h m p2 = true → (d ≤ fuel)%nat →
  upb_Message_IsEqual fuel h p1 p2 m = upb_Message_IsEqual fuel h p2 p1 m.
Proof.
  intros Hcmp Hwf1%wf_typed_wf_msg Hwf2%wf_typed_wf_msg Hle.
  destruct (IsEqual_enough_fuel d fuel h m p1 p2 Hwf1 Hwf2 Hle)
    as (b12 & F12 & D12).
  destruct (IsEqual_enough_fuel d fuel h m p2 p1 Hwf2 Hwf1 Hle)
    as (b21 & F21 & D21).
  rewrite F12, F21, <- D12, <- D21. by apply IsEqual_sym_depth.
Qed.

(** X16. On two well-formed messages whose extensions are typed by their
    own descriptors and looked up consistently, [upb_Message_IsEqual]
    returns, and it answers true exactly when the two pointers are the same
    or the messages agree on every declared field, hold the same number of
    extensions, every extension of the first is found in the second by the
    identity of its descriptor with a value that compares equal under the
    dispatch by kind of the specification, with the sub-descriptor of the
    extension, and the comparator of unknown data, called with depth limit
    100, answers "equal". *)
Theorem IsEqual_characterisation `{!Collaborators} (d : nat) (h : heap)
  (m : upb_MiniTable) (p1 p2 : ptr) (mo1 mo2 : upb_Message) :
  wf_typed (S d) h m p1 = true → wf_typed (S d) h m p2 = true →
  load_msg h p1 = Ret mo1 → load_msg h p2 = Ret mo2 →
  ∃ b, upb_Message_IsEqual (S d) h p1 p2 m = Ret b
     ∧ (b = true ↔
        p1 = p2
        ∨ ((∀ j : nat, (j < length (mt_fields m))%nat →
              field_agrees h (upb_Message_IsEqual d h) p1 p2 m j)
           ∧ length (msg_exts mo1) = length (msg_exts mo2)
           ∧ (∀ x1, x1 ∈ msg_exts mo1 →
                ∃ x2, ext_lookup (ext x1) (msg_exts mo2) = Some x2
                      ∧ spec_value_equal h (upb_Message_IsEqual d h)
                          (ext_field (ext x1))
                          (upb_MiniTableExtension_GetSubMessage (ext x1))
                          (data x1) (data x2) = Ret true)
           ∧ _upb_Message_UnknownFieldsAreEqual (msg_unknown mo1)
               (msg_unknown mo2) 100 = kUpb_UnknownCompareResult_Equal)).
Proof.
  intros Ht1 Ht2 E1 E2.
  pose proof (wf_typed_wf_msg _ _ _ _ Ht1) as Hwf1.
  pose proof (wf_typed_wf_msg _ _ _ _ Ht2) as Hwf2.
  destruct (IsEqual_total (S d) h m p1 p2 Hwf1 Hwf2) as [b Hb].
  exists b. split; [done|].
  destruct (decide (p1 = p2)) as [->|Hne].
  { rewrite IsEqual_same in Hb. injection Hb as <-. split; auto. }
  cbn [upb_Message_IsEqual] in Hb. simpl in Hwf1, Hwf2, Ht1, Ht2.
  pose proof (wf_message_readable h _ m p1 Hwf1) as Hr1.
  pose proof (wf_message_readable h _ m p2 Hwf2) as Hr2.
  apply wf_message_inv in Hwf1 as (mo1' & E1' & Hsz & _ & Hxsz & _).
  rewrite E1 in E1'. injection E1' as <-.
  apply wf_message_typed_inv in Ht1 as (mo1' & E1' & _ & Hown1 & Hag1).
  rewrite E1 in E1'. injection E1' as <-.
  apply wf_message_typed_inv in Ht2 as (mo2' & E2' & _ & Hown2 & _).
  rewrite E2 in E2'. injection E2' as <-.
  assert (Hconv : ∀ x1 x2,
            x1 ∈ msg_exts mo1 →
            ext_lookup (ext x1) (msg_exts mo2) = Some x2 →
            field_value_eq h (upb_Message_IsEqual d h) m
              (ext_field (ext x1)) (ext_sub (ext x1)) (data x1) (data x2)
            = spec_value_equal h (upb_Message_IsEqual d h)
                (ext_field (ext x1))
                (upb_MiniTableExtension_GetSubMessage (ext x1))
                (data x1) (data x2)).
  { intros x1 x2 Hx1 [Hx2 He]%ext_lookup_Some.
    apply (field_value_eq_spec h (wf_typed d h)); try done.
    - by apply (proj1 (Forall_forall _ _) Hown1).
    - by apply (proj1 (Forall_forall _ _) Hown2).
    - by apply (proj1 (Forall_forall _ _) Hag1). }
  pose proof (BaseFieldsAreEqual_true h (upb_Message_IsEqual d h) p1 p2 m
                Hsz Hr1 Hr2) as Hbase.
  pose proof (ExtensionsAreEqual_true h (upb_Message_IsEqual d h) m p1 p2
                mo1 mo2 E1 E2 Hxsz) as Hexts.
  pose proof (IsEqual_body_true h (upb_Message_IsEqual d h) m p1 p2 mo1 mo2
                Hne E1 E2) as Hbody.
  rewrite Hb in Hbody. split.
  - intros ->. right.
    destruct (proj1 Hbody eq_refl) as (Hb1 & Hb2 & Hb3).
    destruct (proj1 Hexts Hb2) as [Hlen Hall].
    split; [by apply Hbase|]. split; [done|]. split; [|done].
    intros x1 Hx1. destruct (Hall x1 Hx1) as (x2 & Hl & Hv).
    exists x2. split; [done|]. by rewrite <- (Hconv x1 x2 Hx1 Hl).
  - intros [?|(Hf & Hlen & Hall & Hunk)]; [done|].
    assert (Ret b = Ret true) as [= ->]; [|done].
    apply Hbody. split; [by apply Hbase|]. split; [|done].
    apply Hexts. split; [done|].
    intros x1 Hx1. destruct (Hall x1 Hx1) as (x2 & Hl & Hv).
    exists x2. split; [done|]. by rewrite (Hconv x1 x2 Hx1 Hl).
Qed.

Section NestedExtensions.
Import Nested.
Local Existing Instance schema.

Lemma wf_typed_no_fault_witness :
  (∃ b, upb_Message_IsEqual 5 nested_heap 312 328 m_outer = Ret b
        ∧ upb_Message_IsEqual 3 nested_heap 312 328 m_outer = Ret b)
  ∧ (∃ e, upb_Message_IsEmpty nested_heap 312 m_outer = Ret e)
  ∧ (∀ iter, ∃ r, upb_Message_NextBaseField nested_heap 312 m_outer iter
                  = Ret r)
  ∧ (∀ iter, ∃ r, upb_Message_NextExtension nested_heap 312 m_outer iter
                  = Ret r).
Proof.
  apply (wf_typed_no_fault 3 5 nested_heap m_outer 312 328);
    [reflexivity|reflexivity|lia].
Defined.

Lemma IsEqual_symmetric_witness :
  upb_Message_IsEqual 3 nested_heap 200 216 m_outer
  = upb_Message_IsEqual 3 nested_heap 216 200 m_outer
  ∧ upb_Message_IsEqual 3 nested_heap 312 328 m_outer
    = upb_Message_IsEqual 3 nested_heap 328 312 m_outer
  ∧ upb_Message_IsEqual 3 nested_heap 344 360 m_outer
    = upb_Message_IsEqual 3 nested_heap 360 344 m_outer.
Proof.
  split; [|split].
  - apply (IsEqual_symmetric 2 3 nested_heap m_outer 200 216).
    + intros u1 u2. simpl. repeat case_bool_decide; congruence.
    + reflexivity.
    + reflexivity.
    + lia.
  - apply (IsEqual_symmetric 2 3 nested_heap m_outer 312 328).
    + intros u1 u2. simpl. repeat case_bool_decide; congruence.
    + reflexivity.
    + reflexivity.
    + lia.
  - apply (IsEqual_symmetric 2 3 nested_heap m_outer 344 360).
    + intros u1 u2. simpl. repeat case_bool_decide; congruence.
    + reflexivity.
    + reflexivity.
    + lia.
Defined.

Lemma IsEqual_characterisation_witness :
  ∃ b, upb_Message_IsEqual 2 nested_heap 312 328 m_outer = Ret b
     ∧ (b = true ↔
        (312 : ptr) = 328
        ∨ ((∀ j : nat, (j < length (mt_fields m_outer))%nat →
              field_agrees nested_heap (upb_Message_IsEqual 1 nested_heap)
                312 328 m_outer j)
           ∧ length (msg_exts (extended {| ext := e_more; data := Raw 104 |}))
             = length (msg_exts
                         (extended {| ext := e_more; data := Raw 112 |}))
           ∧ (∀ x1,
                x1 ∈ msg_exts (extended {| ext := e_more; data := Raw 104 |}) →
                ∃ x2, ext_lookup (ext x1)
                        (msg_exts
                           (extended {| ext := e_more; data := Raw 112 |}))
                      = Some x2
                      ∧ spec_value_equal nested_heap
                          (upb_Message_IsEqual 1 nested_heap)
                          (ext_field (ext x1))
                          (upb_MiniTableExtension_GetSubMessage (ext x1))
                          (data x1) (data x2) = Ret true)
           ∧ _upb_Message_UnknownFieldsAreEqual
               (msg_unknown (extended {| ext := e_more; data := Raw 104 |}))
               (msg_unknown (extended {| ext := e_more; data := Raw 112 |}))
               100
             = kUpb_UnknownCompareResult_Equal)).
Proof.
  apply (IsEqual_characterisation 1 nested_heap m_outer 312 328
           (extended {| ext := e_more; data := Raw 104 |})
           (extended {| ext := e_more; data := Raw 112 |})); reflexivity.
Defined.
End NestedExtensions.

(** ** A repeated sub-message extension *)

Section HolderExample.
Import Holder.
Local Existing Instance schema.

(** C2. The comparison of extensions does not compare the value of a
    repeated sub-message extension under the dispatch by kind of the
    specification: the elements are compared under the descriptor that
    [upb_MiniTable_GetSubMessageTable] gives for the descriptor of the
    extended message (compare.c:250 into line 110), not under the
    sub-descriptor of the extension, which the singular case uses
    (compare.c:254).  On the heap [holder_heap] the values of the extension
    [items], well typed by the extension, hold one [Inner] each, of two
    different labels: they compare unequal under the dispatch of the
    specification, and [upb_Message_IsEqual] answers true on the two
    messages that hold them.  The values of the extension [pages] hold one
    [Inner] each, of the same content: they compare equal under the
    dispatch of the specification, and [upb_Message_IsEqual] reads a string
    as a pointer. *)
Theorem ExtensionsAreEqual_repeated_sub_message (fuel : nat) :
  wf_extension_own holder_heap (wf_typed 1 holder_heap)
    {| ext := e_items; data := Raw 64 |} = true
  ∧ wf_extension_own holder_heap (wf_typed 1 holder_heap)
      {| ext := e_items; data := Raw 72 |} = true
  ∧ spec_value_equal holder_heap (upb_Message_IsEqual (S fuel) holder_heap)
      (ext_field e_items) (upb_MiniTableExtension_GetSubMessage e_items)
      (Raw 64) (Raw 72) = Ret false
  ∧ spec_extensions_equal holder_heap
      (upb_Message_IsEqual (S fuel) holder_heap) 128 144 = Ret false
  ∧ _upb_Message_ExtensionsAreEqual holder_heap
      (upb_Message_IsEqual (S fuel) holder_heap) 128 144 m_holder = Ret true
  ∧ upb_Message_IsEqual (S (S fuel)) holder_heap 128 144 m_holder = Ret true
  ∧ wf_extension_own holder_heap (wf_typed 1 holder_heap)
      {| ext := e_pages; data := Raw 80 |} = true
  ∧ spec_extensions_equal holder_heap
      (upb_Message_IsEqual (S fuel) holder_heap) 160 176 = Ret true
  ∧ _upb_Message_ExtensionsAreEqual holder_heap
      (upb_Message_IsEqual (S fuel) holder_heap) 160 176 m_book
    = Fault InvalidRead
  ∧ upb_Message_IsEqual (S (S fuel)) holder_heap 160 176 m_book
    = Fault InvalidRead.
Proof. repeat split; reflexivity. Qed.
End HolderExample.
